(** * libteam: the per-handle cache and change dispatcher of [lib/libteam.c]

    A shallow embedding of the team handle, of the two netlink reply
    decoders, of the request/reply exchange and of the change-handler
    registry, followed by the properties the specification states about
    them.

    Conventions.
    - C integers are [Z]; [uint32_t] values are taken in [0, 2^32) and the
      single [uint32_t -> int] conversion of the source is written out
      ([to_int]).
    - The intrusive [list_head] lists are Rocq lists, head first; the list
      helpers keep the names of the source.
    - What the code leaves to its environment (the result of [malloc], the
      value of an uninitialised local, what libnl returns, which messages
      arrive) is an explicit argument of the definition that consumes it.
    - Calls into application code and [printf] lines are recorded in a trace.
*)

From Stdlib Require Import ZArith List String Bool Lia.
Import ListNotations.
Open Scope Z_scope.

Set Implicit Arguments.

(** ** Constants of the system and libnl headers *)

Definition ENOENT : Z := 2.
Definition ENOMEM : Z := 12.
Definition EEXIST : Z := 17.
Definition EINVAL : Z := 22.
Definition ENOTSUP : Z := 95.
Definition ENOBUFS : Z := 105.

(** Netlink attribute type codes of [<netlink/attr.h>]. *)
Definition NLA_U32 : Z := 3.
Definition NLA_STRING : Z := 5.

(** Callback verdicts of [<netlink/handlers.h>]. *)
Definition NL_OK : Z := 0.
Definition NL_SKIP : Z := 1.
Definition NL_STOP : Z := 2.

(** The [uint32_t -> int] conversion in [nla_type = nla_get_u32 (...)]. *)
Definition to_int (z : Z) : Z := (z + 2 ^ 31) mod 2 ^ 32 - 2 ^ 31.

(** ** Declarations of [team.h] and [linux/if_team.h] *)

(** Modelled from the spec: [team.h] is not part of the sources; the
    change-class tag of a handler is one of PORT, OPTION, ALL. *)
Inductive team_change_type : Type :=
| TEAM_PORT_CHANGE
| TEAM_OPTION_CHANGE
| TEAM_ALL_CHANGE.

Definition team_change_type_eqb (a b : team_change_type) : bool :=
  match a, b with
  | TEAM_PORT_CHANGE, TEAM_PORT_CHANGE => true
  | TEAM_OPTION_CHANGE, TEAM_OPTION_CHANGE => true
  | TEAM_ALL_CHANGE, TEAM_ALL_CHANGE => true
  | _, _ => false
  end.

(** Modelled from the spec: [enum team_option_type] of [team.h] has the two
    tags U32 and STRING.  [set_option_value] receives the tag as an [int],
    so the tags are integers here. *)
Definition TEAM_OPTION_TYPE_U32 : Z := 0.
Definition TEAM_OPTION_TYPE_STRING : Z := 1.

(** Modelled from the spec: the generic-netlink commands of
    [linux/if_team.h] that the event callback tells apart. *)
Inductive team_cmd : Type :=
| TEAM_CMD_NOOP
| TEAM_CMD_OPTIONS_SET
| TEAM_CMD_OPTIONS_GET
| TEAM_CMD_PORT_LIST_GET.

(** Modelled from the spec: [struct team_change_handler] of [team.h].  A
    handler is known to the library by its address; [func] and [func_priv]
    are opaque to it, so a call of [func] is recorded by that address. *)
Record team_change_handler : Type := {
  handler_addr : nat;
  handler_type : team_change_type
}.

(** ** Structures of [libteam.c] *)

Record team_port : Type := {
  port_ifindex : Z;
  port_speed : Z;
  port_duplex : Z;
  port_changed : bool;
  port_linkup : bool
}.

(** The buffer behind [option->data]: four bytes holding a [__u32], or the
    bytes of a string with its terminator. *)
Inductive option_data : Type :=
| DataU32 (v : Z)
| DataString (s : string).

Record team_option : Type := {
  option_type : Z;
  option_changed : bool;
  option_name : string;
  option_data_of : option_data
}.

Record change_handler_item : Type := {
  call_this : bool;
  handler : team_change_handler
}.

(** The callbacks libteam installs on a socket with [nl_socket_modify_cb]
    and [nl_socket_modify_err_cb]. *)
Inductive valid_cb : Type :=
| ValidNone
| ValidGetPortList
| ValidGetOptions
| ValidEvent.

Record nl_sock : Type := {
  cb_err : bool;
  cb_finish : bool;
  cb_ack : bool;
  cb_valid : valid_cb;
  seq_check : bool
}.

Record team_handle : Type := {
  th_nl_sock : nl_sock;
  nl_sock_err : Z;
  th_nl_sock_event : nl_sock;
  family : Z;
  ifindex : Z;
  port_list : list team_port;
  option_list : list team_option;
  change_handler_list : list change_handler_item
}.

(** Field updates. *)
Definition set_nl_sock (s : nl_sock) (th : team_handle) : team_handle :=
  {| th_nl_sock := s; nl_sock_err := nl_sock_err th;
     th_nl_sock_event := th_nl_sock_event th; family := family th;
     ifindex := ifindex th; port_list := port_list th;
     option_list := option_list th;
     change_handler_list := change_handler_list th |}.

Definition set_nl_sock_err (e : Z) (th : team_handle) : team_handle :=
  {| th_nl_sock := th_nl_sock th; nl_sock_err := e;
     th_nl_sock_event := th_nl_sock_event th; family := family th;
     ifindex := ifindex th; port_list := port_list th;
     option_list := option_list th;
     change_handler_list := change_handler_list th |}.

Definition set_nl_sock_event (s : nl_sock) (th : team_handle) : team_handle :=
  {| th_nl_sock := th_nl_sock th; nl_sock_err := nl_sock_err th;
     th_nl_sock_event := s; family := family th;
     ifindex := ifindex th; port_list := port_list th;
     option_list := option_list th;
     change_handler_list := change_handler_list th |}.

Definition set_family (f : Z) (th : team_handle) : team_handle :=
  {| th_nl_sock := th_nl_sock th; nl_sock_err := nl_sock_err th;
     th_nl_sock_event := th_nl_sock_event th; family := f;
     ifindex := ifindex th; port_list := port_list th;
     option_list := option_list th;
     change_handler_list := change_handler_list th |}.

Definition set_ifindex (i : Z) (th : team_handle) : team_handle :=
  {| th_nl_sock := th_nl_sock th; nl_sock_err := nl_sock_err th;
     th_nl_sock_event := th_nl_sock_event th; family := family th;
     ifindex := i; port_list := port_list th;
     option_list := option_list th;
     change_handler_list := change_handler_list th |}.

Definition set_port_list (l : list team_port) (th : team_handle) : team_handle :=
  {| th_nl_sock := th_nl_sock th; nl_sock_err := nl_sock_err th;
     th_nl_sock_event := th_nl_sock_event th; family := family th;
     ifindex := ifindex th; port_list := l;
     option_list := option_list th;
     change_handler_list := change_handler_list th |}.

Definition set_option_list (l : list team_option) (th : team_handle) : team_handle :=
  {| th_nl_sock := th_nl_sock th; nl_sock_err := nl_sock_err th;
     th_nl_sock_event := th_nl_sock_event th; family := family th;
     ifindex := ifindex th; port_list := port_list th;
     option_list := l;
     change_handler_list := change_handler_list th |}.

Definition set_change_handler_list (l : list change_handler_item)
    (th : team_handle) : team_handle :=
  {| th_nl_sock := th_nl_sock th; nl_sock_err := nl_sock_err th;
     th_nl_sock_event := th_nl_sock_event th; family := family th;
     ifindex := ifindex th; port_list := port_list th;
     option_list := option_list th;
     change_handler_list := l |}.

(** ** The list helpers taken from [<linux/list.h>] *)

Section ListHead.
Variable T : Type.

(** [list_add new head]: insert right after the head. *)
Definition list_add (new : T) (head : list T) : list T := new :: head.

(** [list_add_tail new head]: insert right before the head. *)
Definition list_add_tail (new : T) (head : list T) : list T := head ++ [new].

(** [list_splice list head]: the nodes of [list] go in front of [head]. *)
Definition list_splice (l head : list T) : list T := l ++ head.

(** [list_del] of the first node that satisfies [is_entry]. *)
Fixpoint list_del (is_entry : T -> bool) (head : list T) : list T :=
  match head with
  | [] => []
  | x :: rest => if is_entry x then rest else x :: list_del is_entry rest
  end.

(** [list_get_next_entry entry head]: [entry] is the position of the
    current entry, [None] for the head itself. *)
Definition list_get_next_entry (entry : option nat) (head : list T) : option T :=
  match entry with
  | None => nth_error head 0
  | Some i => nth_error head (S i)
  end.
End ListHead.

(** ** Traces *)

(** What libteam hands to libnl for sending. *)
Record nl_request : Type := {
  req_family : Z;
  req_cmd : team_cmd;
  req_team_ifindex : Z;
  req_options : list (string * Z * option_data)
}.

Inductive log_msg : Type :=
| LogParseNested
| LogPortIfindexNotFound
| LogMallocFailed
| LogOptionAlreadyInList (name : string)
| LogUnknownNlaType
| LogIfindexNotValid (i : Z)
| LogConnectSock
| LogConnectEventSock
| LogResolveFamily
| LogResolveGroups
| LogAddMembership
| LogGetPortList
| LogGetOptions.

(** A line printed, a change handler called (by its address), a request
    handed to the kernel. *)
Inductive event : Type :=
| Printf (m : log_msg)
| Call (addr : nat)
| Send (msg : nl_request).

(** ** Computations on a handle *)

Inductive outcome (A : Type) : Type :=
| Ret (a : A)
| Blocked
| Fault.

Arguments Blocked {A}.
Arguments Fault {A}.

(** A computation runs on a handle and yields how it ended, the handle it
    left and what it printed or called.  [Blocked] is a receive that waits
    for a message that never comes, [Fault] a null-pointer dereference. *)
Definition M (A : Type) : Type :=
  team_handle -> outcome A * team_handle * list event.

Definition ret {A} (a : A) : M A := fun th => (Ret a, th, []).

Definition bind {A B} (m : M A) (k : A -> M B) : M B :=
  fun th =>
    match m th with
    | (Ret a, th1, t1) =>
        match k a th1 with
        | (o, th2, t2) => (o, th2, t1 ++ t2)
        end
    | (Blocked, th1, t1) => (Blocked, th1, t1)
    | (Fault, th1, t1) => (Fault, th1, t1)
    end.

Definition get : M team_handle := fun th => (Ret th, th, []).
Definition modify (f : team_handle -> team_handle) : M unit :=
  fun th => (Ret tt, f th, []).
Definition emit (t : list event) : M unit := fun th => (Ret tt, th, t).
Definition printf (m : log_msg) : M unit := emit [Printf m].
Definition block {A} : M A := fun th => (Blocked, th, []).
Definition fault {A} : M A := fun th => (Fault, th, []).

Declare Scope team_scope.
Delimit Scope team_scope with team.
Notation "x <- m ;; k" := (bind m (fun x => k))
  (at level 61, m at next level, right associativity) : team_scope.
Notation "m ;; k" := (bind m (fun _ => k))
  (at level 61, right associativity) : team_scope.
Open Scope team_scope.

Definition result_of {A} (r : outcome A * team_handle * list event) : outcome A :=
  fst (fst r).
Definition handle_of {A} (r : outcome A * team_handle * list event) : team_handle :=
  snd (fst r).
Definition trace_of {A} (r : outcome A * team_handle * list event) : list event :=
  snd r.

(** ** Netlink messages as the decoders see them *)

(** An attribute is its payload as [nla_get_u32], [nla_get_u8] and
    [nla_get_string] read it. *)
Record nlattr : Type := {
  nla_get_u32 : Z;
  nla_get_u8 : Z;
  nla_get_string : string
}.

(** The table [nla_parse_nested] fills for one port item: an entry per
    attribute id, [None] when the attribute is absent. *)
Record port_attrs : Type := {
  TEAM_ATTR_PORT_IFINDEX : option nlattr;
  TEAM_ATTR_PORT_CHANGED : option nlattr;
  TEAM_ATTR_PORT_LINKUP : option nlattr;
  TEAM_ATTR_PORT_SPEED : option nlattr;
  TEAM_ATTR_PORT_DUPLEX : option nlattr
}.

Record option_attrs : Type := {
  TEAM_ATTR_OPTION_NAME : option nlattr;
  TEAM_ATTR_OPTION_CHANGED : option nlattr;
  TEAM_ATTR_OPTION_TYPE : option nlattr;
  TEAM_ATTR_OPTION_DATA : option nlattr
}.

(** A generic-netlink message after [genlmsg_parse].  A nested list holds
    one element per nested attribute; an element is [None] when
    [nla_parse_nested] fails on it. *)
Record nl_msg : Type := {
  genl_cmd : team_cmd;
  TEAM_ATTR_TEAM_IFINDEX : option nlattr;
  TEAM_ATTR_LIST_PORT : option (list (option port_attrs));
  TEAM_ATTR_LIST_OPTION : option (list (option option_attrs))
}.

Definition present {A} (a : option A) : bool :=
  match a with Some _ => true | None => false end.

(** [malloc]: the next answer of the allocator is the head of [heap]; an
    exhausted list stands for an allocator that goes on succeeding. *)
Definition malloc (heap : list bool) : bool * list bool :=
  match heap with
  | [] => (true, [])
  | ok :: heap' => (ok, heap')
  end.

(** How the body of the option loop left the loop: at its end with the list
    in hand, by a [return] from the handler, or by the dereference of the
    null pointer [create_option] returned. *)
Inductive loop_exit (A : Type) : Type :=
| Completed (tmp_list : A)
| Returned
| Crashed.

Arguments Returned {A}.
Arguments Crashed {A}.

Definition logged {A} (m : log_msg) (r : list event * loop_exit A)
  : list event * loop_exit A :=
  (Printf m :: fst r, snd r).

(** ** The change dispatcher *)

Definition type_matches (type : team_change_type) (h : team_change_handler) : bool :=
  team_change_type_eqb type TEAM_ALL_CHANGE
  || team_change_type_eqb (handler_type h) type.

Definition mark_item (type : team_change_type) (handler_item : change_handler_item)
  : change_handler_item :=
  if type_matches type (handler handler_item)
  then {| call_this := true; handler := handler handler_item |}
  else handler_item.

Definition set_call_change_handlers (type : team_change_type) : M unit :=
  modify (fun th =>
    set_change_handler_list (map (mark_item type) (change_handler_list th)) th).

(** The walk of [check_call_change_handlers]: the registry it leaves and the
    calls it makes, in the order it makes them. *)
Fixpoint fire_items (type : team_change_type) (l : list change_handler_item)
  : list change_handler_item * list event :=
  match l with
  | [] => ([], [])
  | handler_item :: rest =>
      let h := handler handler_item in
      if type_matches type h && call_this handler_item
      then (let r := fire_items type rest in
            ({| call_this := false; handler := h |} :: fst r,
             Call (handler_addr h) :: snd r))
      else (let r := fire_items type rest in
            (handler_item :: fst r, snd r))
  end.

Definition check_call_change_handlers (type : team_change_type) : M unit :=
  th <- get ;;
  let r := fire_items type (change_handler_list th) in
  emit (snd r) ;;
  modify (set_change_handler_list (fst r)).

Definition is_handler (h : team_change_handler) (handler_item : change_handler_item)
  : bool :=
  Nat.eqb (handler_addr (handler handler_item)) (handler_addr h).

Definition find_change_handler (th : team_handle) (h : team_change_handler)
  : option change_handler_item :=
  find (is_handler h) (change_handler_list th).

(** ** The cache *)

Definition flush_port_list : M unit := modify (set_port_list []).

Definition flush_option_list : M unit := modify (set_option_list []).

(** [create_option]: three allocations, the record is built only when all
    three succeed. *)
Definition create_option (heap : list bool) (name : string) (opt_type : Z)
    (data : option_data) (changed : bool) : option team_option * list bool :=
  let (ok1, heap1) := malloc heap in
  if negb ok1 then (None, heap1) else
  let (ok2, heap2) := malloc heap1 in
  if negb ok2 then (None, heap2) else
  let (ok3, heap3) := malloc heap2 in
  if negb ok3 then (None, heap3) else
  (Some {| option_type := opt_type; option_changed := changed;
           option_name := name; option_data_of := data |}, heap3).

Definition __find_option (opt_list : list team_option) (name : string)
  : option team_option :=
  find (fun o => String.eqb (option_name o) name) opt_list.

(** ** Decoding a port list *)

Definition port_of_attrs (a : port_attrs) (ifindex_attr : nlattr) : team_port :=
  {| port_ifindex := nla_get_u32 ifindex_attr;
     port_speed := match TEAM_ATTR_PORT_SPEED a with
                   | Some s => nla_get_u32 s
                   | None => 0
                   end;
     port_duplex := match TEAM_ATTR_PORT_DUPLEX a with
                    | Some d => nla_get_u8 d
                    | None => 0
                    end;
     port_changed := present (TEAM_ATTR_PORT_CHANGED a);
     port_linkup := present (TEAM_ATTR_PORT_LINKUP a) |}.

(** The body of [nla_for_each_nested] in [get_port_list_handler]: what it
    prints, and the list in hand at the end of the loop, or [None] when the
    body returns from the handler. *)
Fixpoint port_list_loop (heap : list bool) (nested : list (option port_attrs))
    (tmp_list : list team_port) : list event * option (list team_port) :=
  match nested with
  | [] => ([], Some tmp_list)
  | None :: _ => ([Printf LogParseNested], None)
  | Some a :: rest =>
      match TEAM_ATTR_PORT_IFINDEX a with
      | None => ([Printf LogPortIfindexNotFound], None)
      | Some ifindex_attr =>
          let (ok, heap') := malloc heap in
          if negb ok then ([Printf LogMallocFailed], None)
          else port_list_loop heap' rest
                 (list_add_tail (port_of_attrs a ifindex_attr) tmp_list)
      end
  end.

(** [uninit] is the value the local [team_ifindex] happens to hold when the
    message carries no team-ifindex attribute. *)
Definition get_port_list_handler (uninit : Z) (heap : list bool) (msg : nl_msg)
  : M Z :=
  th <- get ;;
  let team_ifindex := match TEAM_ATTR_TEAM_IFINDEX msg with
                      | Some a => nla_get_u32 a
                      | None => uninit
                      end in
  if negb (team_ifindex =? ifindex th) then ret NL_SKIP else
  match TEAM_ATTR_LIST_PORT msg with
  | None => ret NL_SKIP
  | Some nested =>
      match port_list_loop heap nested [] with
      | (t, Some tmp_list) =>
          emit t ;;
          flush_port_list ;;
          modify (fun th => set_port_list (list_splice tmp_list (port_list th)) th) ;;
          set_call_change_handlers TEAM_PORT_CHANGE ;;
          ret NL_SKIP
      | (t, None) => emit t ;; ret NL_SKIP
      end
  end.

(** ** Decoding an option list *)

Fixpoint options_loop (heap : list bool) (nested : list (option option_attrs))
    (tmp_list : list team_option) : list event * loop_exit (list team_option) :=
  match nested with
  | [] => ([], Completed tmp_list)
  | None :: _ => ([Printf LogParseNested], Returned)
  | Some a :: rest =>
      match TEAM_ATTR_OPTION_NAME a, TEAM_ATTR_OPTION_TYPE a,
            TEAM_ATTR_OPTION_DATA a with
      | Some name_attr, Some type_attr, Some data_attr =>
          let name := nla_get_string name_attr in
          if present (__find_option tmp_list name)
          then logged (LogOptionAlreadyInList name)
                 (options_loop heap rest tmp_list)
          else
            let changed := present (TEAM_ATTR_OPTION_CHANGED a) in
            let nla_type := to_int (nla_get_u32 type_attr) in
            let decoded :=
              if nla_type =? NLA_U32
              then Some (DataU32 (nla_get_u32 data_attr), TEAM_OPTION_TYPE_U32)
              else if nla_type =? NLA_STRING
              then Some (DataString (nla_get_string data_attr),
                         TEAM_OPTION_TYPE_STRING)
              else None in
            match decoded with
            | None => logged LogUnknownNlaType (options_loop heap rest tmp_list)
            | Some (data, opt_type) =>
                match create_option heap name opt_type data changed with
                | (None, _) => ([], Crashed)
                | (Some o, heap') =>
                    options_loop heap' rest (list_add_tail o tmp_list)
                end
            end
      | _, _, _ => ([], Returned)
      end
  end.

Definition get_options_handler (uninit : Z) (heap : list bool) (msg : nl_msg)
  : M Z :=
  th <- get ;;
  let team_ifindex := match TEAM_ATTR_TEAM_IFINDEX msg with
                      | Some a => nla_get_u32 a
                      | None => uninit
                      end in
  if negb (team_ifindex =? ifindex th) then ret NL_SKIP else
  match TEAM_ATTR_LIST_OPTION msg with
  | None => ret NL_SKIP
  | Some nested =>
      match options_loop heap nested [] with
      | (t, Completed tmp_list) =>
          emit t ;;
          flush_option_list ;;
          modify (fun th => set_option_list (list_splice tmp_list (option_list th)) th) ;;
          set_call_change_handlers TEAM_OPTION_CHANGE ;;
          ret NL_SKIP
      | (t, Returned) => emit t ;; ret NL_SKIP
      | (t, Crashed) => emit t ;; fault
      end
  end.

(** ** The transport *)

(** What one pass of libnl's receive loop finds on a socket.  [ItemValid] is
    a message for the [NL_CB_VALID] callback, [ItemAck] an acknowledgement,
    [ItemFinish] the end of a multipart reply, [ItemError e] a kernel error
    carrying [e]. *)
Inductive nl_item : Type :=
| ItemValid (msg : nl_msg)
| ItemAck
| ItemFinish
| ItemError (error : Z).

(** An item together with what its callback finds in its environment. *)
Record delivery : Type := {
  item : nl_item;
  uninit_u32 : Z;
  heap : list bool
}.

Inductive which_sock : Type := CmdSock | EventSock.

Definition sock_of (s : which_sock) (th : team_handle) : nl_sock :=
  match s with
  | CmdSock => th_nl_sock th
  | EventSock => th_nl_sock_event th
  end.

(** The three callbacks [team_init] installs with [&th->nl_sock_err]. *)
Definition ack_handler : M Z :=
  modify (set_nl_sock_err 0) ;; ret NL_STOP.

Definition finish_handler : M Z :=
  modify (set_nl_sock_err 0) ;; ret NL_SKIP.

Definition error_handler (error : Z) : M Z :=
  modify (set_nl_sock_err error) ;; ret NL_SKIP.

Definition event_handler (uninit : Z) (heap : list bool) (msg : nl_msg) : M Z :=
  match genl_cmd msg with
  | TEAM_CMD_PORT_LIST_GET => get_port_list_handler uninit heap msg
  | TEAM_CMD_OPTIONS_GET => get_options_handler uninit heap msg
  | _ => ret NL_SKIP
  end.

(** libnl hands one item to the callback the socket has for it.  Where no
    callback is installed no code of libteam runs: libnl goes on after a
    valid message or an acknowledgement and leaves the pass at a finish or
    an error. *)
Definition nl_cb_call (s : which_sock) (d : delivery) : M Z :=
  th <- get ;;
  let sk := sock_of s th in
  match item d with
  | ItemValid msg =>
      match cb_valid sk with
      | ValidNone => ret NL_OK
      | ValidGetPortList => get_port_list_handler (uninit_u32 d) (heap d) msg
      | ValidGetOptions => get_options_handler (uninit_u32 d) (heap d) msg
      | ValidEvent => event_handler (uninit_u32 d) (heap d) msg
      end
  | ItemAck => if cb_ack sk then ack_handler else ret NL_OK
  | ItemFinish => if cb_finish sk then finish_handler else ret NL_STOP
  | ItemError e => if cb_err sk then error_handler e else ret NL_STOP
  end.

(** [nl_recvmsgs_default]: one pass over what has arrived; [NL_STOP] ends
    the pass, [NL_OK] and [NL_SKIP] go on with the next item. *)
Fixpoint nl_recvmsgs_default (s : which_sock) (arrived : list delivery) : M unit :=
  match arrived with
  | [] => ret tt
  | d :: rest =>
      verdict <- nl_cb_call s d ;;
      if verdict =? NL_STOP then ret tt else nl_recvmsgs_default s rest
  end.

(** What the environment answers during one request/reply exchange. *)
Record exchange : Type := {
  nlmsg_alloc_ok : bool;
  nla_put_ok : bool;
  nl_send_result : Z;
  replies : list (list delivery)
}.

Definition set_cb_valid (cb : valid_cb) (sk : nl_sock) : nl_sock :=
  {| cb_err := cb_err sk; cb_finish := cb_finish sk; cb_ack := cb_ack sk;
     cb_valid := cb; seq_check := seq_check sk |}.

(** The loop [while (th->nl_sock_err > 0) nl_recvmsgs_default (th->nl_sock)]:
    one element of [passes] per call of [nl_recvmsgs_default]; with none
    left the receive never returns. *)
Fixpoint recv_while_in_flight (passes : list (list delivery)) : M unit :=
  fun th =>
    if nl_sock_err th >? 0 then
      match passes with
      | [] => block th
      | arrived :: rest =>
          (nl_recvmsgs_default CmdSock arrived ;; recv_while_in_flight rest) th
      end
    else ret tt th.

Definition send_and_recv (x : exchange) (msg : nl_request)
    (valid_handler : option valid_cb) : M Z :=
  let err := nl_send_result x in
  if err <? 0 then ret err else
  emit [Send msg] ;;
  modify (set_nl_sock_err 1) ;;
  match valid_handler with
  | Some cb => modify (fun th => set_nl_sock (set_cb_valid cb (th_nl_sock th)) th)
  | None => ret tt
  end ;;
  recv_while_in_flight (replies x) ;;
  th <- get ;;
  ret (nl_sock_err th).

(** ** Requests *)

(** The [nla_put] steps of one request either all fit the message buffer
    ([nla_put_ok]) or the request is given up with [-ENOBUFS]. *)
Definition set_option_value (x : exchange) (opt_name : string)
    (data : option_data) (opt_type : Z) : M Z :=
  let nla_type :=
    if opt_type =? TEAM_OPTION_TYPE_U32 then Some NLA_U32
    else if opt_type =? TEAM_OPTION_TYPE_STRING then Some NLA_STRING
    else None in
  match nla_type with
  | None => ret (- ENOENT)
  | Some nla_type =>
      if negb (nlmsg_alloc_ok x) then ret (- ENOMEM) else
      if negb (nla_put_ok x) then ret (- ENOBUFS) else
      th <- get ;;
      send_and_recv x
        {| req_family := family th; req_cmd := TEAM_CMD_OPTIONS_SET;
           req_team_ifindex := ifindex th;
           req_options := [(opt_name, nla_type, data)] |}
        None
  end.

Definition get_port_list (x : exchange) : M Z :=
  if negb (nlmsg_alloc_ok x) then ret (- ENOMEM) else
  if negb (nla_put_ok x) then ret (- ENOBUFS) else
  th <- get ;;
  err <- send_and_recv x
           {| req_family := family th; req_cmd := TEAM_CMD_PORT_LIST_GET;
              req_team_ifindex := ifindex th; req_options := [] |}
           (Some ValidGetPortList) ;;
  if negb (err =? 0) then ret err else
  check_call_change_handlers TEAM_PORT_CHANGE ;;
  ret 0.

Definition get_options (x : exchange) : M Z :=
  if negb (nlmsg_alloc_ok x) then ret (- ENOMEM) else
  if negb (nla_put_ok x) then ret (- ENOBUFS) else
  th <- get ;;
  err <- send_and_recv x
           {| req_family := family th; req_cmd := TEAM_CMD_OPTIONS_GET;
              req_team_ifindex := ifindex th; req_options := [] |}
           (Some ValidGetOptions) ;;
  if negb (err =? 0) then ret err else
  check_call_change_handlers TEAM_OPTION_CHANGE ;;
  ret 0.

(** ** The public operations *)

Definition fresh_sock : nl_sock :=
  {| cb_err := false; cb_finish := false; cb_ack := false;
     cb_valid := ValidNone; seq_check := true |}.

(** What the allocations and the route-netlink connect of [team_alloc]
    answer. *)
Record alloc_env : Type := {
  malloc_handle_ok : bool;
  nl_socket_alloc_ok : bool;
  nl_socket_event_alloc_ok : bool;
  nl_cli_alloc_socket_ok : bool;
  nl_cli_connect_result : Z;
  nl_cli_link_alloc_cache_ok : bool
}.

Definition team_alloc (e : alloc_env) : option team_handle :=
  if negb (malloc_handle_ok e) then None else
  if negb (nl_socket_alloc_ok e) then None else
  if negb (nl_socket_event_alloc_ok e) then None else
  if negb (nl_cli_alloc_socket_ok e) then None else
  if negb (nl_cli_connect_result e =? 0) then None else
  if negb (nl_cli_link_alloc_cache_ok e) then None else
  Some {| th_nl_sock := fresh_sock; nl_sock_err := 0;
          th_nl_sock_event := fresh_sock; family := 0; ifindex := 0;
          port_list := []; option_list := []; change_handler_list := [] |}.

(** What libnl and the kernel answer to the steps of [team_init]. *)
Record init_env : Type := {
  genl_connect_result : Z;
  genl_connect_event_result : Z;
  genl_ctrl_resolve_result : Z;
  genl_ctrl_resolve_grp_result : Z;
  nl_socket_add_membership_result : Z;
  port_list_exchange : exchange;
  options_exchange : exchange
}.

Definition disable_seq_check (sk : nl_sock) : nl_sock :=
  {| cb_err := cb_err sk; cb_finish := cb_finish sk; cb_ack := cb_ack sk;
     cb_valid := cb_valid sk; seq_check := false |}.

Definition install_reply_callbacks (sk : nl_sock) : nl_sock :=
  {| cb_err := true; cb_finish := true; cb_ack := true;
     cb_valid := cb_valid sk; seq_check := seq_check sk |}.

Definition team_init (w : init_env) (ifindex : Z) : M Z :=
  if ifindex =? 0 then printf (LogIfindexNotValid ifindex) ;; ret (- ENOENT) else
  modify (set_ifindex ifindex) ;;
  modify (fun th => set_nl_sock_event (disable_seq_check (th_nl_sock_event th)) th) ;;
  if negb (genl_connect_result w =? 0)
  then printf LogConnectSock ;; ret (- ENOTSUP) else
  if negb (genl_connect_event_result w =? 0)
  then printf LogConnectEventSock ;; ret (- ENOTSUP) else
  modify (set_family (genl_ctrl_resolve_result w)) ;;
  if genl_ctrl_resolve_result w <? 0
  then printf LogResolveFamily ;; ret (- ENOENT) else
  let grp_id := genl_ctrl_resolve_grp_result w in
  if grp_id <? 0 then printf LogResolveGroups ;; ret (- ENOENT) else
  let err := nl_socket_add_membership_result w in
  if err <? 0 then printf LogAddMembership ;; ret (- EINVAL) else
  modify (fun th => set_nl_sock (install_reply_callbacks (th_nl_sock th)) th) ;;
  modify (fun th => set_nl_sock_event (set_cb_valid ValidEvent (th_nl_sock_event th)) th) ;;
  err <- get_port_list (port_list_exchange w) ;;
  if negb (err =? 0) then printf LogGetPortList ;; ret (- EINVAL) else
  err <- get_options (options_exchange w) ;;
  if negb (err =? 0) then printf LogGetOptions ;; ret (- EINVAL) else
  ret 0.

Definition team_process_event (arrived : list delivery) : M unit :=
  nl_recvmsgs_default EventSock arrived ;;
  check_call_change_handlers TEAM_ALL_CHANGE.

(** [team_check_events]: one element of [readable] per round in which
    [select] reports the event socket readable. *)
Fixpoint team_check_events (readable : list (list delivery)) : M unit :=
  match readable with
  | [] => ret tt
  | arrived :: rest => team_process_event arrived ;; team_check_events rest
  end.

Definition team_get_next_port (th : team_handle) (port : option nat)
  : option team_port :=
  list_get_next_entry port (port_list th).

Definition team_get_next_option (th : team_handle) (opt : option nat)
  : option team_option :=
  list_get_next_entry opt (option_list th).

Definition team_change_handler_register (malloc_ok : bool)
    (h : team_change_handler) : M Z :=
  th <- get ;;
  if present (find_change_handler th h) then ret (- EEXIST) else
  if negb malloc_ok then ret (- ENOMEM) else
  modify (fun th =>
    set_change_handler_list
      (list_add {| call_this := false; handler := h |} (change_handler_list th))
      th) ;;
  ret 0.

Definition team_change_handler_unregister (h : team_change_handler) : M unit :=
  th <- get ;;
  match find_change_handler th h with
  | None => ret tt
  | Some _ =>
      modify (fun th =>
        set_change_handler_list
          (list_del (is_handler h) (change_handler_list th)) th)
  end.

Definition team_get_option_by_name (th : team_handle) (name : string)
  : option team_option :=
  __find_option (option_list th) name.

Definition team_set_option_value_by_name_u32 (x : exchange) (opt_name : string)
    (val : Z) : M Z :=
  set_option_value x opt_name (DataU32 val) TEAM_OPTION_TYPE_U32.

Definition team_set_option_value_by_name_string (x : exchange)
    (opt_name : string) (str : string) : M Z :=
  set_option_value x opt_name (DataString str) TEAM_OPTION_TYPE_STRING.

Definition team_set_mode_name (x : exchange) (mode_name : string) : M Z :=
  team_set_option_value_by_name_string x "mode" mode_name.

Definition team_set_active_port (x : exchange) (ifindex : Z) : M Z :=
  team_set_option_value_by_name_u32 x "activeport" ifindex.

(** ** The calls of the public interface, as a state machine *)

Inductive api_call : Type :=
| CallInit (w : init_env) (ifindex : Z)
| CallProcessEvent (arrived : list delivery)
| CallCheckEvents (readable : list (list delivery))
| CallRegister (malloc_ok : bool) (h : team_change_handler)
| CallUnregister (h : team_change_handler)
| CallSetU32 (x : exchange) (opt_name : string) (val : Z)
| CallSetString (x : exchange) (opt_name : string) (str : string).

Definition run_call (c : api_call) : M unit :=
  match c with
  | CallInit w i => team_init w i ;; ret tt
  | CallProcessEvent arrived => team_process_event arrived
  | CallCheckEvents readable => team_check_events readable
  | CallRegister ok h => team_change_handler_register ok h ;; ret tt
  | CallUnregister h => team_change_handler_unregister h
  | CallSetU32 x n v => team_set_option_value_by_name_u32 x n v ;; ret tt
  | CallSetString x n s => team_set_option_value_by_name_string x n s ;; ret tt
  end.

Fixpoint run_calls (cs : list api_call) : M unit :=
  match cs with
  | [] => ret tt
  | c :: rest => run_call c ;; run_calls rest
  end.

(** The handles a program can hold: what [team_alloc] returns, and what a
    call that returns leaves behind. *)
Inductive reachable : team_handle -> Prop :=
| reachable_alloc : forall e th, team_alloc e = Some th -> reachable th
| reachable_call : forall c th,
    reachable th ->
    result_of (run_call c th) = Ret tt ->
    reachable (handle_of (run_call c th)).

(** ** Observations used by the statements *)

Definition addr_of (handler_item : change_handler_item) : nat :=
  handler_addr (handler handler_item).

(** The registered handler addresses, head of the registry first. *)
Definition registry (th : team_handle) : list nat :=
  map addr_of (change_handler_list th).

Definition registered (h : team_change_handler) (th : team_handle) : Prop :=
  In (handler_addr h) (registry th).

(** How often the handler at [addr] is called in a trace. *)
Fixpoint calls (addr : nat) (t : list event) : nat :=
  match t with
  | [] => 0%nat
  | Call a :: t' => ((if Nat.eqb a addr then 1 else 0) + calls addr t')%nat
  | _ :: t' => calls addr t'
  end.

(** The handlers called in a trace, in call order. *)
Fixpoint called (t : list event) : list nat :=
  match t with
  | [] => []
  | Call a :: t' => a :: called t'
  | _ :: t' => called t'
  end.

Definition option_names (l : list team_option) : list string :=
  map option_name l.

(** No two registrations carry the same handler address. *)
Definition registry_ok (th : team_handle) : Prop := NoDup (registry th).

(** Whether the walk of [check_call_change_handlers type] calls the handler
    of a registration, and the registration it leaves behind when it does. *)
Definition fires (type : team_change_type) (handler_item : change_handler_item)
  : bool :=
  type_matches type (handler handler_item) && call_this handler_item.

Definition clear_item (handler_item : change_handler_item) : change_handler_item :=
  {| call_this := false; handler := handler handler_item |}.

Definition call_of (handler_item : change_handler_item) : event :=
  Call (addr_of handler_item).

(** The port a nested entry describes: none when [nla_parse_nested] fails
    on it or when it lacks the port-ifindex attribute. *)
Definition entry_port (e : option port_attrs) : option team_port :=
  match e with
  | Some a =>
      match TEAM_ATTR_PORT_IFINDEX a with
      | Some ifindex_attr => Some (port_of_attrs a ifindex_attr)
      | None => None
      end
  | None => None
  end.

(** The allocator answers the first [n] requests. *)
Definition heap_allows (n : nat) (heap : list bool) : Prop :=
  forall k, (k < n)%nat -> nth k heap true = true.

(** The team ifindex a decoder compares with the handle's. *)
Definition team_ifindex_of (uninit : Z) (msg : nl_msg) : Z :=
  match TEAM_ATTR_TEAM_IFINDEX msg with
  | Some a => nla_get_u32 a
  | None => uninit
  end.

(** A port-list message refreshes the port list of [th] with [ports]: it is
    for this team, carries a port list, every nested entry parses and has its
    port-ifindex attribute, and a port record is allocated for each. *)
Definition port_refresh (th : team_handle) (uninit : Z) (heap : list bool)
    (msg : nl_msg) (ports : list team_port) : Prop :=
  team_ifindex_of uninit msg = ifindex th /\
  exists nested,
    TEAM_ATTR_LIST_PORT msg = Some nested /\
    map entry_port nested = map Some ports /\
    heap_allows (List.length nested) heap.

(** The handle a completed port refresh leaves. *)
Definition port_refreshed (ports : list team_port) (th : team_handle) : team_handle :=
  set_change_handler_list
    (map (mark_item TEAM_PORT_CHANGE) (change_handler_list th))
    (set_port_list ports th).

(** The handle a completed option refresh leaves. *)
Definition options_refreshed (opts : list team_option) (th : team_handle)
  : team_handle :=
  set_change_handler_list
    (map (mark_item TEAM_OPTION_CHANGE) (change_handler_list th))
    (set_option_list opts th).

(** [name] is the name of an option in [opt_list]. *)
Definition has_name (opt_list : list team_option) (name : string) : bool :=
  present (__find_option opt_list name).

(** A nested option entry the decoder can read: it parses and has the name,
    type and data attributes. *)
Definition wellformed (e : option option_attrs) : bool :=
  match e with
  | Some a =>
      present (TEAM_ATTR_OPTION_NAME a) && present (TEAM_ATTR_OPTION_TYPE a)
      && present (TEAM_ATTR_OPTION_DATA a)
  | None => false
  end.

Definition entry_name (a : option_attrs) : option string :=
  match TEAM_ATTR_OPTION_NAME a with
  | Some name_attr => Some (nla_get_string name_attr)
  | None => None
  end.

(** The option a readable entry describes, when its netlink type code is
    U32 or STRING. *)
Definition option_of_entry (a : option_attrs) : option team_option :=
  match TEAM_ATTR_OPTION_NAME a, TEAM_ATTR_OPTION_TYPE a,
        TEAM_ATTR_OPTION_DATA a with
  | Some name_attr, Some type_attr, Some data_attr =>
      let nla_type := to_int (nla_get_u32 type_attr) in
      if nla_type =? NLA_U32
      then Some {| option_type := TEAM_OPTION_TYPE_U32;
                   option_changed := present (TEAM_ATTR_OPTION_CHANGED a);
                   option_name := nla_get_string name_attr;
                   option_data_of := DataU32 (nla_get_u32 data_attr) |}
      else if nla_type =? NLA_STRING
      then Some {| option_type := TEAM_OPTION_TYPE_STRING;
                   option_changed := present (TEAM_ATTR_OPTION_CHANGED a);
                   option_name := nla_get_string name_attr;
                   option_data_of := DataString (nla_get_string data_attr) |}
      else None
  | _, _, _ => None
  end.

(** The options a message offers, in message order. *)
Definition candidates (nested : list (option option_attrs)) : list team_option :=
  flat_map (fun e => match e with
                     | Some a => match option_of_entry a with
                                 | Some o => [o]
                                 | None => []
                                 end
                     | None => []
                     end) nested.

Definition other_name (o o' : team_option) : bool :=
  negb (String.eqb (option_name o') (option_name o)).

(** Keep the first option of every name and drop the later ones. *)
Fixpoint first_of_each_name (l : list team_option) : list team_option :=
  match l with
  | [] => []
  | o :: rest => o :: filter (other_name o) (first_of_each_name rest)
  end.

(** The options of [cands] that join a list already holding [tmp_list]. *)
Definition accept (tmp_list cands : list team_option) : list team_option :=
  tmp_list ++
  filter (fun o => negb (has_name tmp_list (option_name o)))
         (first_of_each_name cands).

(** An option-list message refreshes the option list of [th] with [opts]:
    it is for this team, carries an option list, and the loop over its
    entries runs to its end with [opts] in hand, having printed [t]. *)
Definition option_refresh (th : team_handle) (uninit : Z) (heap : list bool)
    (msg : nl_msg) (t : list event) (opts : list team_option) : Prop :=
  team_ifindex_of uninit msg = ifindex th /\
  exists nested,
    TEAM_ATTR_LIST_OPTION msg = Some nested /\
    options_loop heap nested [] = (t, Completed opts).

Definition is_printf (e : event) : Prop :=
  exists m, e = Printf m.

(** No two options of the cached list carry the same name. *)
Definition names_unique (th : team_handle) : Prop :=
  NoDup (option_names (option_list th)).

(** The same handlers are registered, in the same order. *)
Definition same_registry (th th' : team_handle) : Prop :=
  registry th' = registry th.

(** [Inv] survives from the handle a computation starts on to the one it
    leaves. *)
Definition keeps (Inv : team_handle -> Prop) (th th' : team_handle) : Prop :=
  Inv th -> Inv th'.

(** The handle a walk of [check_call_change_handlers type] leaves. *)
Definition swept (type : team_change_type) (th : team_handle) : team_handle :=
  set_change_handler_list
    (map (fun it => if fires type it then clear_item it else it)
       (change_handler_list th)) th.

(** The calls a walk of [check_call_change_handlers type] makes. *)
Definition sweep_calls (type : team_change_type) (th : team_handle) : list event :=
  map call_of (filter (fires type) (change_handler_list th)).

(** A delivery refreshes the port list of [th]: a port-list message that
    [port_refresh] accepts. *)
Definition refreshes_ports (th : team_handle) (d : delivery) : Prop :=
  exists msg ports,
    item d = ItemValid msg /\
    genl_cmd msg = TEAM_CMD_PORT_LIST_GET /\
    port_refresh th (uninit_u32 d) (heap d) msg ports.




(** Among the addresses [a] and [b], the registry holds [b] first. *)
Definition is_either (a b : nat) (x : nat) : bool :=
  Nat.eqb x a || Nat.eqb x b.

Definition registered_after (a b : nat) (th : team_handle) : Prop :=
  filter (is_either a b) (registry th) = [b; a].

(** A call that does not unregister the handler at [a] or at [b]. *)
Definition keeps_registered (a b : nat) (c : api_call) : Prop :=
  match c with
  | CallUnregister h => handler_addr h <> a /\ handler_addr h <> b
  | _ => True
  end.

(** ** Sample data

    A team device with ifindex 7, as scenario S1 of the specification has
    it, and the messages of the other scenarios. *)

Definition u32_attr (v : Z) : nlattr :=
  {| nla_get_u32 := v; nla_get_u8 := v mod 256; nla_get_string := EmptyString |}.

Definition string_attr (s : string) : nlattr :=
  {| nla_get_u32 := 0; nla_get_u8 := 0; nla_get_string := s |}.

Definition flag_attr : nlattr := u32_attr 0.

Definition port_entry (i speed duplex : Z) (linkup : bool) : option port_attrs :=
  Some {| TEAM_ATTR_PORT_IFINDEX := Some (u32_attr i);
          TEAM_ATTR_PORT_CHANGED := None;
          TEAM_ATTR_PORT_LINKUP := if linkup then Some flag_attr else None;
          TEAM_ATTR_PORT_SPEED := Some (u32_attr speed);
          TEAM_ATTR_PORT_DUPLEX := Some (u32_attr duplex) |}.

(** A port entry without its port-ifindex attribute. *)
Definition port_entry_no_ifindex : option port_attrs :=
  Some {| TEAM_ATTR_PORT_IFINDEX := None;
          TEAM_ATTR_PORT_CHANGED := None;
          TEAM_ATTR_PORT_LINKUP := None;
          TEAM_ATTR_PORT_SPEED := Some (u32_attr 10);
          TEAM_ATTR_PORT_DUPLEX := None |}.

Definition option_entry (name : string) (nla_type : Z) (data : nlattr)
  : option option_attrs :=
  Some {| TEAM_ATTR_OPTION_NAME := Some (string_attr name);
          TEAM_ATTR_OPTION_CHANGED := None;
          TEAM_ATTR_OPTION_TYPE := Some (u32_attr nla_type);
          TEAM_ATTR_OPTION_DATA := Some data |}.

(** An option entry without its type attribute. *)
Definition option_entry_no_type (name : string) : option option_attrs :=
  Some {| TEAM_ATTR_OPTION_NAME := Some (string_attr name);
          TEAM_ATTR_OPTION_CHANGED := None;
          TEAM_ATTR_OPTION_TYPE := None;
          TEAM_ATTR_OPTION_DATA := Some (u32_attr 1) |}.

Definition port_list_msg (team_ifindex : Z) (nested : list (option port_attrs))
  : nl_msg :=
  {| genl_cmd := TEAM_CMD_PORT_LIST_GET;
     TEAM_ATTR_TEAM_IFINDEX := Some (u32_attr team_ifindex);
     TEAM_ATTR_LIST_PORT := Some nested;
     TEAM_ATTR_LIST_OPTION := None |}.

Definition options_msg (team_ifindex : Z) (nested : list (option option_attrs))
  : nl_msg :=
  {| genl_cmd := TEAM_CMD_OPTIONS_GET;
     TEAM_ATTR_TEAM_IFINDEX := Some (u32_attr team_ifindex);
     TEAM_ATTR_LIST_PORT := None;
     TEAM_ATTR_LIST_OPTION := Some nested |}.

(** A delivery in an environment where [malloc] succeeds. *)
Definition deliver (i : nl_item) : delivery :=
  {| item := i; uninit_u32 := 0; heap := [] |}.

Definition exchange_with (passes : list (list delivery)) : exchange :=
  {| nlmsg_alloc_ok := true; nla_put_ok := true; nl_send_result := 20;
     replies := passes |}.

Definition sample_alloc_env : alloc_env :=
  {| malloc_handle_ok := true; nl_socket_alloc_ok := true;
     nl_socket_event_alloc_ok := true; nl_cli_alloc_socket_ok := true;
     nl_cli_connect_result := 0; nl_cli_link_alloc_cache_ok := true |}.

(** The handle [team_alloc] returns. *)
Definition fresh_handle : team_handle :=
  {| th_nl_sock := fresh_sock; nl_sock_err := 0;
     th_nl_sock_event := fresh_sock; family := 0; ifindex := 0;
     port_list := []; option_list := []; change_handler_list := [] |}.

Definition sample_port_11 : team_port :=
  {| port_ifindex := 11; port_speed := 1000; port_duplex := 1;
     port_changed := false; port_linkup := true |}.

Definition sample_port_12 : team_port :=
  {| port_ifindex := 12; port_speed := 100; port_duplex := 0;
     port_changed := false; port_linkup := false |}.

Definition sample_ports_msg : nl_msg :=
  port_list_msg 7 [port_entry 11 1000 1 true; port_entry 12 100 0 false].

Definition sample_options_msg : nl_msg :=
  options_msg 7 [option_entry "mode" NLA_STRING (string_attr "activebackup");
                 option_entry "activeport" NLA_U32 (u32_attr 11)].

(** The kernel of scenario S1: two ports, two options, each dump closed by
    an acknowledgement. *)
Definition sample_init_env : init_env :=
  {| genl_connect_result := 0;
     genl_connect_event_result := 0;
     genl_ctrl_resolve_result := 23;
     genl_ctrl_resolve_grp_result := 4;
     nl_socket_add_membership_result := 0;
     port_list_exchange :=
       exchange_with [[deliver (ItemValid sample_ports_msg); deliver ItemAck]];
     options_exchange :=
       exchange_with [[deliver (ItemValid sample_options_msg); deliver ItemAck]] |}.

(** The handle after [team_init] on ifindex 7 in that environment. *)
Definition sample_handle : team_handle :=
  handle_of (team_init sample_init_env 7 fresh_handle).

Definition port_handler (addr : nat) : team_change_handler :=
  {| handler_addr := addr; handler_type := TEAM_PORT_CHANGE |}.

Definition option_handler (addr : nat) : team_change_handler :=
  {| handler_addr := addr; handler_type := TEAM_OPTION_CHANGE |}.

Definition all_handler (addr : nat) : team_change_handler :=
  {| handler_addr := addr; handler_type := TEAM_ALL_CHANGE |}.

(** The sample handle with a PORT handler at address 1 registered first
    and an ALL handler at address 2 registered second. *)
Definition sample_with_handlers : team_handle :=
  handle_of
    (run_calls [CallRegister true (port_handler 1);
                CallRegister true (all_handler 2)] sample_handle).

(** Two port-list messages that arrive in one pass: first port 11 alone,
    then both ports. *)
Definition two_port_messages : list delivery :=
  [deliver (ItemValid (port_list_msg 7 [port_entry 11 1000 1 true]));
   deliver (ItemValid sample_ports_msg)].

(** A port-list message for team 7 whose first entry lacks the port
    ifindex and whose second entry describes port 13. *)
Definition ports_msg_missing_ifindex : nl_msg :=
  port_list_msg 7 [port_entry_no_ifindex; port_entry 13 1000 1 true].

Definition sample_port_13 : team_port :=
  {| port_ifindex := 13; port_speed := 1000; port_duplex := 1;
     port_changed := false; port_linkup := true |}.

(** An option-list message for team 7 whose first entry lacks the type
    attribute and whose second entry sets [mode] to [roundrobin]. *)
Definition options_msg_missing_type : nl_msg :=
  options_msg 7 [option_entry_no_type "activeport";
                 option_entry "mode" NLA_STRING (string_attr "roundrobin")].

(** A port-list message of another team device. *)
Definition ports_msg_of_team_99 : nl_msg :=
  port_list_msg 99 [port_entry 13 1000 1 true].

(** Netlink type code [NLA_U8], one the option decoder does not know. *)
Definition NLA_U8 : Z := 1.

(** An option-list message for team 7 with two entries named [mode]: the
    first of a type the decoder does not know, the second a string. *)
Definition options_msg_unknown_then_known : nl_msg :=
  options_msg 7 [option_entry "mode" NLA_U8 (u32_attr 1);
                 option_entry "mode" NLA_STRING (string_attr "roundrobin")].

(** Scenario S3: two string entries named [mode]. *)
Definition options_msg_two_modes : nl_msg :=
  options_msg 7 [option_entry "mode" NLA_STRING (string_attr "roundrobin");
                 option_entry "mode" NLA_STRING (string_attr "activebackup")].

(** The steps of [team_init] before the two refreshes. *)
Definition connected (w : init_env) : Prop :=
  genl_connect_result w = 0 /\ genl_connect_event_result w = 0.

Definition resolved (w : init_env) : Prop :=
  0 <= genl_ctrl_resolve_result w /\ 0 <= genl_ctrl_resolve_grp_result w.

Definition subscribed (w : init_env) : Prop :=
  0 <= nl_socket_add_membership_result w.

(** The handle [team_init] has set up when it asks for the port list. *)
Definition init_setup (w : init_env) (i : Z) (th : team_handle) : team_handle :=
  let th1 := set_ifindex i th in
  let th2 := set_nl_sock_event (disable_seq_check (th_nl_sock_event th1)) th1 in
  let th3 := set_family (genl_ctrl_resolve_result w) th2 in
  let th4 := set_nl_sock (install_reply_callbacks (th_nl_sock th3)) th3 in
  set_nl_sock_event (set_cb_valid ValidEvent (th_nl_sock_event th4)) th4.

(** The handle after the port-list refresh of [team_init]. *)
Definition init_ports_done (w : init_env) (i : Z) (th : team_handle)
  : outcome Z * team_handle * list event :=
  get_port_list (port_list_exchange w) (init_setup w i th).

Definition init_options_done (w : init_env) (i : Z) (th : team_handle)
  : outcome Z * team_handle * list event :=
  get_options (options_exchange w) (handle_of (init_ports_done w i th)).

(** Environments in which one step of [team_init] fails. *)
Definition init_env_connect_fails : init_env :=
  {| genl_connect_result := -111;
     genl_connect_event_result := 0;
     genl_ctrl_resolve_result := 23;
     genl_ctrl_resolve_grp_result := 4;
     nl_socket_add_membership_result := 0;
     port_list_exchange := exchange_with [];
     options_exchange := exchange_with [] |}.

Definition init_env_resolve_fails : init_env :=
  {| genl_connect_result := 0;
     genl_connect_event_result := 0;
     genl_ctrl_resolve_result := -12;
     genl_ctrl_resolve_grp_result := 4;
     nl_socket_add_membership_result := 0;
     port_list_exchange := exchange_with [];
     options_exchange := exchange_with [] |}.

Definition init_env_membership_fails : init_env :=
  {| genl_connect_result := 0;
     genl_connect_event_result := 0;
     genl_ctrl_resolve_result := 23;
     genl_ctrl_resolve_grp_result := 4;
     nl_socket_add_membership_result := -1;
     port_list_exchange := exchange_with [];
     options_exchange := exchange_with [] |}.

(** The kernel answers the port-list request with the error -19. *)
Definition init_env_refresh_fails : init_env :=
  {| genl_connect_result := 0;
     genl_connect_event_result := 0;
     genl_ctrl_resolve_result := 23;
     genl_ctrl_resolve_grp_result := 4;
     nl_socket_add_membership_result := 0;
     port_list_exchange := exchange_with [[deliver (ItemError (-19))]];
     options_exchange := exchange_with [] |}.

(** [subseq s l]: [s] is [l] with some elements left out. *)
Inductive subseq {A : Type} : list A -> list A -> Prop :=
| subseq_nil : subseq [] []
| subseq_skip : forall x s l, subseq s l -> subseq s (x :: l)
| subseq_take : forall x s l, subseq s l -> subseq (x :: s) (x :: l).

(** Two PORT handlers registered one after the other on the sample handle,
    then one pump that drains two port-list messages. *)
Definition register_two_then_pump : list api_call :=
  [CallRegister true (port_handler 1);
   CallRegister true (port_handler 2);
   CallProcessEvent two_port_messages].

(** The kernel sends the port list and then, instead of closing the dump,
    the error -19: the refresh is done and marked, the request fails. *)
Definition init_env_ports_then_error : init_env :=
  {| genl_connect_result := 0;
     genl_connect_event_result := 0;
     genl_ctrl_resolve_result := 23;
     genl_ctrl_resolve_grp_result := 4;
     nl_socket_add_membership_result := 0;
     port_list_exchange :=
       exchange_with [[deliver (ItemValid sample_ports_msg);
                       deliver (ItemError (-19))]];
     options_exchange := exchange_with [] |}.

(** A fresh handle with one PORT handler, at address 1. *)
Definition fresh_with_handler : team_handle :=
  handle_of (team_change_handler_register true (port_handler 1) fresh_handle).

(** The request [set_option_value] builds: the team ifindex and one option
    item with its name, netlink type and data. *)
Definition option_set_request (th : team_handle) (opt_name : string)
    (nla_type : Z) (data : option_data) : nl_request :=
  {| req_family := family th; req_cmd := TEAM_CMD_OPTIONS_SET;
     req_team_ifindex := ifindex th;
     req_options := [(opt_name, nla_type, data)] |}.


(** The kernel acknowledges an option-set request. *)
Definition exchange_acked : exchange := exchange_with [[deliver ItemAck]].

(** ** Reading the cache

    The getters and the cursor iteration of the public interface. *)

(** What a data buffer reads as through the type it was not stored with:
    the first four bytes of a string as a [__u32], the four bytes of a
    [__u32] as a C string.  The getters do not look at the type tag, so
    these readings are theirs to return. *)
Record buffer_views : Type := {
  string_as_u32 : string -> Z;
  u32_as_string : Z -> string
}.

Definition team_get_option_value_u32 (v : buffer_views) (o : team_option) : Z :=
  match option_data_of o with
  | DataU32 val => val
  | DataString s => string_as_u32 v s
  end.

Definition team_get_option_value_string (v : buffer_views) (o : team_option)
  : string :=
  match option_data_of o with
  | DataString s => s
  | DataU32 val => u32_as_string v val
  end.

(** The return value, and what is stored through [u32_ptr] when something
    is. *)
Definition team_get_option_value_by_name_u32 (v : buffer_views)
    (th : team_handle) (name : string) : Z * option Z :=
  match team_get_option_by_name th name with
  | None => (- ENOENT, None)
  | Some o => (0, Some (team_get_option_value_u32 v o))
  end.

Definition team_get_option_value_by_name_string (v : buffer_views)
    (th : team_handle) (name : string) : Z * option string :=
  match team_get_option_by_name th name with
  | None => (- ENOENT, None)
  | Some o => (0, Some (team_get_option_value_string v o))
  end.

Definition team_get_mode_name (v : buffer_views) (th : team_handle)
  : Z * option string :=
  team_get_option_value_by_name_string v th "mode".

Definition team_get_active_port (v : buffer_views) (th : team_handle)
  : Z * option Z :=
  team_get_option_value_by_name_u32 v th "activeport".

(** The cursor that stands for the entry [team_get_next_port] or
    [team_get_next_option] has just returned. *)
Definition cursor_after (cursor : option nat) : option nat :=
  match cursor with
  | None => Some 0%nat
  | Some i => Some (S i)
  end.

(** A caller's loop [for (p = next (th, NULL); p; p = next (th, p))], cut
    after [fuel] turns. *)
Fixpoint walk_ports (th : team_handle) (fuel : nat) (cursor : option nat)
  : list team_port :=
  match fuel with
  | O => []
  | S fuel' =>
      match team_get_next_port th cursor with
      | None => []
      | Some port => port :: walk_ports th fuel' (cursor_after cursor)
      end
  end.

Fixpoint walk_options (th : team_handle) (fuel : nat) (cursor : option nat)
  : list team_option :=
  match fuel with
  | O => []
  | S fuel' =>
      match team_get_next_option th cursor with
      | None => []
      | Some opt => opt :: walk_options th fuel' (cursor_after cursor)
      end
  end.

(** ** Further observations *)

(** The type tag of an option says what its data buffer holds. *)
Definition well_typed (o : team_option) : bool :=
  match option_data_of o with
  | DataU32 _ => option_type o =? TEAM_OPTION_TYPE_U32
  | DataString _ => option_type o =? TEAM_OPTION_TYPE_STRING
  end.

Definition cache_well_typed (th : team_handle) : Prop :=
  Forall (fun o => well_typed o = true) (option_list th).

(** What [team_init] binds and installs stays: the ifindex, the family, the
    event socket, and the reply callbacks of the command socket. *)
Definition same_binding (th th' : team_handle) : Prop :=
  ifindex th' = ifindex th /\
  family th' = family th /\
  th_nl_sock_event th' = th_nl_sock_event th /\
  cb_err (th_nl_sock th') = cb_err (th_nl_sock th) /\
  cb_finish (th_nl_sock th') = cb_finish (th_nl_sock th) /\
  cb_ack (th_nl_sock th') = cb_ack (th_nl_sock th).

(** The class whose refresh the event callback runs for a command. *)
Definition class_of_cmd (cmd : team_cmd) : option team_change_type :=
  match cmd with
  | TEAM_CMD_PORT_LIST_GET => Some TEAM_PORT_CHANGE
  | TEAM_CMD_OPTIONS_GET => Some TEAM_OPTION_CHANGE
  | _ => None
  end.

(** No message among [arrived] has a command that refreshes class [C]. *)
Definition no_refresh_of (C : team_change_type) (arrived : list delivery) : Prop :=
  forall d msg,
    In d arrived -> item d = ItemValid msg ->
    class_of_cmd (genl_cmd msg) <> Some C.

(** Every registration at address [a] declares class [C] and is not
    pending. *)
Definition unmarked (C : team_change_type) (a : nat) (th : team_handle) : Prop :=
  forall it,
    In it (change_handler_list th) -> addr_of it = a ->
    handler_type (handler it) = C /\ call_this it = false.

(** A call that registers at address [a] nothing but a handler of class
    [C]. *)
Definition registers_only (C : team_change_type) (a : nat) (c : api_call)
  : Prop :=
  match c with
  | CallRegister _ h => handler_addr h = a -> handler_type h = C
  | _ => True
  end.

(** [holds I P m]: started on a handle that satisfies [I], the computation
    leaves a handle that satisfies [I] and a trace that satisfies [P],
    whichever way it ends. *)
Definition holds {A} (I : team_handle -> Prop) (P : list event -> Prop)
    (m : M A) : Prop :=
  forall th, I th -> I (handle_of (m th)) /\ P (trace_of (m th)).

(** A call that does not register a handler at [a]. *)
Definition not_registering (a : nat) (c : api_call) : Prop :=
  match c with
  | CallRegister _ h => handler_addr h <> a
  | _ => True
  end.

(** The option item of an option-list message carries what the option-set
    request [r] put in its item: the name, the netlink type code and the
    data, under the attribute ids [set_option_value] wrote them with. *)
Definition echoes (r : nl_request) (msg : nl_msg) (a : option_attrs) : Prop :=
  (exists i, TEAM_ATTR_TEAM_IFINDEX msg = Some i /\
             nla_get_u32 i = req_team_ifindex r) /\
  TEAM_ATTR_LIST_OPTION msg = Some [Some a] /\
  exists name code data name_attr type_attr data_attr,
    req_options r = [(name, code, data)] /\
    TEAM_ATTR_OPTION_NAME a = Some name_attr /\
    TEAM_ATTR_OPTION_TYPE a = Some type_attr /\
    TEAM_ATTR_OPTION_DATA a = Some data_attr /\
    nla_get_string name_attr = name /\
    nla_get_u32 type_attr = code /\
    match data with
    | DataU32 val => nla_get_u32 data_attr = val
    | DataString s => nla_get_string data_attr = s
    end.

(** The kernel answers a request with the error [-19]. *)
Definition exchange_refused : exchange :=
  exchange_with [[deliver (ItemError (-19))]].

(** The kernel answers the port-list request with the sample port list and
    an acknowledgement. *)
Definition exchange_sample_ports : exchange :=
  exchange_with [[deliver (ItemValid sample_ports_msg); deliver ItemAck]].

(** Every buffer read through the other type reads as nothing. *)
Definition sample_views : buffer_views :=
  {| string_as_u32 := fun _ => 0; u32_as_string := fun _ => EmptyString |}.

(** The option-list message that echoes a request to set [activeport] to
    42 on team 7. *)
Definition echo_of_activeport_42 : nl_msg :=
  options_msg 7 [option_entry "activeport" NLA_U32 (u32_attr 42)].

(** The registered handlers, head of the registry first. *)
Definition handlers (th : team_handle) : list team_change_handler :=
  map handler (change_handler_list th).

(** The address [a] is that of a handler registered on [th] that declares
    class [C]. *)
Definition declared_for (C : team_change_type) (th : team_handle) (a : nat)
  : Prop :=
  exists h, In h (handlers th) /\ handler_addr h = a /\ handler_type h = C.

(** [returns Q m]: whenever [m] returns, what it returns satisfies [Q]. *)
Definition returns {A} (Q : A -> Prop) (m : M A) : Prop :=
  forall th r, result_of (m th) = Ret r -> Q r.

(** The kernel sends the sample port list and then the error [-19]. *)
Definition exchange_ports_then_error : exchange :=
  exchange_with [[deliver (ItemValid sample_ports_msg);
                  deliver (ItemError (-19))]].

(** A call other than [team_init]. *)
Definition not_init (c : api_call) : Prop :=
  match c with
  | CallInit _ _ => False
  | _ => True
  end.

(** The requests sent in a trace, in the order they were sent. *)
Fixpoint sends (t : list event) : list nl_request :=
  match t with
  | [] => []
  | Send r :: t' => r :: sends t'
  | _ :: t' => sends t'
  end.

(** The request [get_port_list] and [get_options] build: the command and
    the team ifindex, no option item. *)
Definition refresh_request (cmd : team_cmd) (f i : Z) : nl_request :=
  {| req_family := f; req_cmd := cmd; req_team_ifindex := i;
     req_options := [] |}.

(** The registrations are the same, in the same order, and every one that
    was pending is still pending. *)
Definition flags_kept (th th' : team_handle) : Prop :=
  Forall2 (fun it it' =>
             handler it' = handler it /\
             (call_this it = true -> call_this it' = true))
          (change_handler_list th) (change_handler_list th').


(** The request is built and the send does not fail. *)
Definition built_and_sent (x : exchange) : bool :=
  nlmsg_alloc_ok x && nla_put_ok x && (0 <=? nl_send_result x).

(** [frames R m]: [R] relates the handle [m] starts on to the handle it
    leaves, whichever way it ends. *)
Definition frames {A} (R : team_handle -> team_handle -> Prop) (m : M A) : Prop :=
  forall th, R th (handle_of (m th)).

(** [emits P m]: [P] holds of what [m] prints, calls and sends, whichever
    way it ends. *)
Definition emits {A} (P : list event -> Prop) (m : M A) : Prop :=
  forall th, P (trace_of (m th)).

(** ** Reasoning about computations *)

Unset Implicit Arguments.

Lemma run_ret : forall A (a : A) th, ret a th = (Ret a, th, []).
Proof. reflexivity. Qed.

Section Frames.
Variable R : team_handle -> team_handle -> Prop.
Hypothesis R_refl : forall th, R th th.
Hypothesis R_trans : forall a b c, R a b -> R b c -> R a c.

Lemma frames_ret : forall A (a : A), frames R (ret a).
Proof. intros A a th. apply R_refl. Qed.

Lemma frames_get : frames R get.
Proof. intros th. apply R_refl. Qed.

Lemma frames_emit : forall t, frames R (emit t).
Proof. intros t th. apply R_refl. Qed.

Lemma frames_block : forall A, frames R (@block A).
Proof. intros A th. apply R_refl. Qed.

Lemma frames_fault : forall A, frames R (@fault A).
Proof. intros A th. apply R_refl. Qed.

Lemma frames_modify : forall f, (forall th, R th (f th)) -> frames R (modify f).
Proof. intros f H th. apply H. Qed.

Lemma frames_bind : forall A B (m : M A) (k : A -> M B),
  frames R m -> (forall a, frames R (k a)) -> frames R (bind m k).
Proof.
  intros A B m k Hm Hk th. unfold bind.
  specialize (Hm th). destruct (m th) as [[o th1] t1]. simpl in Hm.
  destruct o as [a| |]; simpl; auto.
  specialize (Hk a th1). destruct (k a th1) as [[o2 th2] t2]. simpl in *.
  eapply R_trans; eauto.
Qed.

Lemma frames_if : forall A (b : bool) (m1 m2 : M A),
  frames R m1 -> frames R m2 -> frames R (if b then m1 else m2).
Proof. intros A [] m1 m2 H1 H2; assumption. Qed.
End Frames.

Section Emits.
Variable P : list event -> Prop.
Hypothesis P_nil : P [].
Hypothesis P_app : forall t1 t2, P t1 -> P t2 -> P (t1 ++ t2).

Lemma emits_ret : forall A (a : A), emits P (ret a).
Proof. intros A a th. apply P_nil. Qed.

Lemma emits_get : emits P get.
Proof. intros th. apply P_nil. Qed.

Lemma emits_modify : forall f, emits P (modify f).
Proof. intros f th. apply P_nil. Qed.

Lemma emits_block : forall A, emits P (@block A).
Proof. intros A th. apply P_nil. Qed.

Lemma emits_fault : forall A, emits P (@fault A).
Proof. intros A th. apply P_nil. Qed.

Lemma emits_emit : forall t, P t -> emits P (emit t).
Proof. intros t H th. apply H. Qed.

Lemma emits_bind : forall A B (m : M A) (k : A -> M B),
  emits P m -> (forall a, emits P (k a)) -> emits P (bind m k).
Proof.
  intros A B m k Hm Hk th. unfold bind.
  specialize (Hm th). destruct (m th) as [[o th1] t1]. simpl in Hm.
  destruct o as [a| |]; simpl; auto.
  specialize (Hk a th1). destruct (k a th1) as [[o2 th2] t2]. simpl in *.
  apply P_app; assumption.
Qed.

Lemma emits_if : forall A (b : bool) (m1 m2 : M A),
  emits P m1 -> emits P m2 -> emits P (if b then m1 else m2).
Proof. intros A [] m1 m2 H1 H2; assumption. Qed.
End Emits.

(** ** The dispatcher *)

Lemma set_change_handler_list_same : forall th,
  set_change_handler_list (change_handler_list th) th = th.
Proof. intros []. reflexivity. Qed.

Lemma run_set_call_change_handlers : forall type th,
  set_call_change_handlers type th =
  (Ret tt,
   set_change_handler_list (map (mark_item type) (change_handler_list th)) th,
   []).
Proof. reflexivity. Qed.

Lemma fire_items_spec : forall type l,
  fire_items type l =
  (map (fun it => if fires type it then clear_item it else it) l,
   map call_of (filter (fires type) l)).
Proof.
  intros type l. induction l as [|it l IH]; [reflexivity|].
  cbn [fire_items map filter]. rewrite IH. unfold fires, clear_item. cbn [fst snd].
  destruct (type_matches type (handler it) && call_this it); reflexivity.
Qed.

Lemma run_check_call_change_handlers : forall type th,
  check_call_change_handlers type th =
  (Ret tt,
   set_change_handler_list
     (map (fun it => if fires type it then clear_item it else it)
        (change_handler_list th)) th,
   map call_of (filter (fires type) (change_handler_list th))).
Proof.
  intros type th. unfold check_call_change_handlers, bind, get, emit, modify.
  rewrite fire_items_spec. simpl. rewrite app_nil_r. reflexivity.
Qed.

Lemma addr_of_mark_item : forall type it, addr_of (mark_item type it) = addr_of it.
Proof.
  intros type it. unfold mark_item.
  destruct (type_matches type (handler it)); reflexivity.
Qed.

Lemma handler_mark_item : forall type it, handler (mark_item type it) = handler it.
Proof.
  intros type it. unfold mark_item.
  destruct (type_matches type (handler it)); reflexivity.
Qed.

Lemma map_addr_of_mark : forall type l,
  map addr_of (map (mark_item type) l) = map addr_of l.
Proof.
  intros type l. rewrite map_map. apply map_ext. intros it.
  apply addr_of_mark_item.
Qed.

Lemma map_addr_of_fire : forall type l,
  map addr_of (map (fun it => if fires type it then clear_item it else it) l)
  = map addr_of l.
Proof.
  intros type l. rewrite map_map. apply map_ext. intros it.
  destruct (fires type it); reflexivity.
Qed.

Lemma calls_app : forall addr t1 t2,
  calls addr (t1 ++ t2) = (calls addr t1 + calls addr t2)%nat.
Proof.
  intros addr t1 t2. induction t1 as [|e t1 IH]; simpl; [reflexivity|].
  destruct e; rewrite IH; lia.
Qed.

Lemma called_app : forall t1 t2, called (t1 ++ t2) = called t1 ++ called t2.
Proof.
  intros t1 t2. induction t1 as [|e t1 IH]; simpl; [reflexivity|].
  destruct e; rewrite IH; reflexivity.
Qed.

Lemma called_map_call_of : forall l, called (map call_of l) = map addr_of l.
Proof.
  induction l as [|it l IH]; simpl; [reflexivity|]. rewrite IH. reflexivity.
Qed.

Lemma calls_absent : forall addr (f : change_handler_item -> bool) l,
  ~ In addr (map addr_of l) ->
  calls addr (map call_of (filter f l)) = 0%nat.
Proof.
  intros addr f l. induction l as [|it l IH]; simpl; intros Hn; [reflexivity|].
  destruct (f it); simpl.
  - destruct (Nat.eqb_spec (addr_of it) addr) as [E|E].
    + exfalso. apply Hn. left. exact E.
    + apply IH. intros Hin. apply Hn. right. exact Hin.
  - apply IH. intros Hin. apply Hn. right. exact Hin.
Qed.

(** With distinct addresses in the registry, one walk calls a handler once
    when its registration fires and not at all otherwise. *)
Lemma calls_fire_once : forall addr f l,
  NoDup (map addr_of l) ->
  calls addr (map call_of (filter f l)) =
  if existsb (fun it => Nat.eqb (addr_of it) addr && f it) l then 1%nat else 0%nat.
Proof.
  intros addr f l. induction l as [|it l IH]; simpl; intros Hnd; [reflexivity|].
  inversion Hnd as [|a l' Hnotin Hnd']; subst.
  specialize (IH Hnd').
  destruct (f it) eqn:Ef; simpl.
  - destruct (Nat.eqb_spec (addr_of it) addr) as [E|E]; simpl.
    + rewrite calls_absent; [reflexivity|]. rewrite <- E. exact Hnotin.
    + exact IH.
  - rewrite andb_false_r. simpl. exact IH.
Qed.

Lemma calls_fire_le_1 : forall addr f l,
  NoDup (map addr_of l) ->
  (calls addr (map call_of (filter f l)) <= 1)%nat.
Proof.
  intros addr f l Hnd. rewrite calls_fire_once by exact Hnd.
  destruct (existsb _ l); lia.
Qed.

(** ** The port-list decoder *)

Lemma malloc_nth : forall heap, malloc heap = (nth 0 heap true, tl heap).
Proof. intros [|b heap]; reflexivity. Qed.

Lemma nth_tl : forall k (heap : list bool),
  nth k (tl heap) true = nth (S k) heap true.
Proof. intros k [|b heap]; [destruct k|]; reflexivity. Qed.

Lemma heap_allows_S : forall n heap,
  heap_allows (S n) heap <-> nth 0 heap true = true /\ heap_allows n (tl heap).
Proof.
  intros n heap. unfold heap_allows. split.
  - intros H. split; [apply H; lia|]. intros k Hk. rewrite nth_tl. apply H. lia.
  - intros [H0 H] [|k] Hk; [exact H0|]. rewrite <- nth_tl. apply H. lia.
Qed.

Lemma heap_allows_nil : forall n, heap_allows n [].
Proof. intros n k _. destruct k; reflexivity. Qed.

(** The loop either takes every entry, or prints one line and returns from
    the handler at the first entry it cannot take. *)
Lemma port_list_loop_cases : forall nested heap tmp_list,
  (exists ports,
     map entry_port nested = map Some ports /\
     heap_allows (List.length nested) heap /\
     port_list_loop heap nested tmp_list = ([], Some (tmp_list ++ ports)))
  \/
  (((exists e, In e nested /\ entry_port e = None) \/
    (exists k, (k < List.length nested)%nat /\ nth k heap true = false)) /\
   exists m, port_list_loop heap nested tmp_list = ([Printf m], None)).
Proof.
  induction nested as [|e nested IH]; intros heap tmp_list.
  - left. exists []. simpl. rewrite app_nil_r. repeat split.
    intros k Hk. inversion Hk.
  - destruct e as [a|].
    + destruct (TEAM_ATTR_PORT_IFINDEX a) as [ia|] eqn:Eia.
      * cbn [port_list_loop]. rewrite Eia, malloc_nth.
        destruct (nth 0 heap true) eqn:E0; cbn [negb].
        -- destruct (IH (tl heap) (list_add_tail (port_of_attrs a ia) tmp_list))
             as [[ports [Hm [Hh Hl]]]|[Hbad [m Hl]]].
           ++ left. exists (port_of_attrs a ia :: ports). split; [|split].
              ** simpl. rewrite Eia, Hm. reflexivity.
              ** apply heap_allows_S. split; assumption.
              ** rewrite Hl. unfold list_add_tail. rewrite <- app_assoc. reflexivity.
           ++ right. split; [|exists m; exact Hl].
              destruct Hbad as [[e [Hin He]]|[k [Hk Hn]]].
              ** left. exists e. split; [right; exact Hin|exact He].
              ** right. exists (S k). split; [simpl; lia|].
                 rewrite <- nth_tl. exact Hn.
        -- right. split; [|exists LogMallocFailed; reflexivity].
           right. exists 0%nat. split; [simpl; lia|exact E0].
      * right. split.
        -- left. exists (Some a). split; [left; reflexivity|].
           simpl. rewrite Eia. reflexivity.
        -- exists LogPortIfindexNotFound. cbn [port_list_loop]. rewrite Eia. reflexivity.
    + right. split.
      * left. exists None. split; [left; reflexivity|reflexivity].
      * exists LogParseNested. reflexivity.
Qed.

Lemma map_Some_inj : forall A (l1 l2 : list A), map Some l1 = map Some l2 -> l1 = l2.
Proof.
  induction l1 as [|x l1 IH]; intros [|y l2] H; simpl in H; try discriminate.
  - reflexivity.
  - inversion H. f_equal. apply IH. assumption.
Qed.

Lemma map_Some_no_None : forall A (f : A -> option team_port) l ports e,
  map f l = map Some ports -> In e l -> f e <> None.
Proof.
  intros A f l. induction l as [|x l IH]; intros [|p ports] e H Hin; simpl in *;
    try discriminate; try contradiction.
  inversion H. destruct Hin as [->|Hin]; [congruence|]. eapply IH; eauto.
Qed.

(** A refreshing message: flush, splice, mark. *)
Lemma get_port_list_handler_refresh : forall th uninit heap msg ports,
  port_refresh th uninit heap msg ports ->
  get_port_list_handler uninit heap msg th = (Ret NL_SKIP, port_refreshed ports th, []).
Proof.
  intros th uninit heap msg ports [Hi [nested [Hl [Hm Hh]]]].
  unfold get_port_list_handler, bind, get. cbn [fst snd].
  unfold team_ifindex_of in Hi. rewrite Hi, Z.eqb_refl. cbn [negb]. rewrite Hl.
  destruct (port_list_loop_cases nested heap []) as [[ps [Hm' [_ Hloop]]]|[Hbad _]].
  - rewrite Hloop. rewrite Hm in Hm'. apply map_Some_inj in Hm'. subst ps.
    cbn. unfold port_refreshed, set_change_handler_list, set_port_list, list_splice.
    cbn. rewrite app_nil_r. reflexivity.
  - exfalso. destruct Hbad as [[e [Hin He]]|[k [Hk Hn]]].
    + eapply map_Some_no_None; eauto.
    + rewrite Hh in Hn by exact Hk. discriminate.
Qed.

(** Whatever the message and the allocator, the handler returns [NL_SKIP]
    and either leaves the handle as it found it, printing at most one line,
    or completes a refresh in silence. *)
Lemma get_port_list_handler_cases : forall th uninit heap msg,
  (exists ports,
     port_refresh th uninit heap msg ports /\
     get_port_list_handler uninit heap msg th
       = (Ret NL_SKIP, port_refreshed ports th, []))
  \/
  ((forall ports, ~ port_refresh th uninit heap msg ports) /\
   exists t, get_port_list_handler uninit heap msg th = (Ret NL_SKIP, th, t) /\
             (t = [] \/ exists m, t = [Printf m])).
Proof.
  intros th uninit heap msg.
  destruct (Z.eq_dec (team_ifindex_of uninit msg) (ifindex th)) as [Ei|Ei].
  - destruct (TEAM_ATTR_LIST_PORT msg) as [nested|] eqn:El.
    + destruct (port_list_loop_cases nested heap []) as [[ps [Hm [Hh Hloop]]]|[Hbad [m Hloop]]].
      * left. exists ps.
        assert (Hr : port_refresh th uninit heap msg ps).
        { split; [exact Ei|]. exists nested. auto. }
        split; [exact Hr|]. apply get_port_list_handler_refresh. exact Hr.
      * right. split.
        -- intros ports [_ [nested' [El' [Hm Hh]]]]. rewrite El in El'.
           inversion El'; subst nested'.
           destruct Hbad as [[e [Hin He]]|[k [Hk Hn]]].
           ++ eapply map_Some_no_None; eauto.
           ++ rewrite Hh in Hn by exact Hk. discriminate.
        -- exists [Printf m]. split; [|right; exists m; reflexivity].
           unfold get_port_list_handler, bind, get. cbn [fst snd].
           unfold team_ifindex_of in Ei. rewrite Ei, Z.eqb_refl. cbn [negb].
           rewrite El, Hloop. reflexivity.
    + right. split.
      * intros ports [_ [nested [El' _]]]. congruence.
      * exists []. split; [|left; reflexivity].
        unfold get_port_list_handler, bind, get. cbn [fst snd].
        unfold team_ifindex_of in Ei. rewrite Ei, Z.eqb_refl. cbn [negb].
        rewrite El. reflexivity.
  - right. split.
    + intros ports [Hi _]. contradiction.
    + exists []. split; [|left; reflexivity].
      unfold get_port_list_handler, bind, get. cbn [fst snd].
      unfold team_ifindex_of in Ei. apply Z.eqb_neq in Ei. rewrite Ei. reflexivity.
Qed.

(** ** The option-list decoder *)

Lemma has_name_existsb : forall l name,
  has_name l name = existsb (fun o => String.eqb (option_name o) name) l.
Proof.
  intros l name. unfold has_name, __find_option.
  induction l as [|o l IH]; simpl; [reflexivity|].
  destruct (String.eqb (option_name o) name); [reflexivity|exact IH].
Qed.

Lemma has_name_app : forall l1 l2 name,
  has_name (l1 ++ l2) name = has_name l1 name || has_name l2 name.
Proof. intros. rewrite !has_name_existsb. apply existsb_app. Qed.

Lemma has_name_In : forall l name,
  has_name l name = true <-> In name (option_names l).
Proof.
  intros l name. rewrite has_name_existsb. unfold option_names. split.
  - intros H. apply existsb_exists in H. destruct H as [o [Hin He]].
    apply String.eqb_eq in He. subst name. apply in_map. exact Hin.
  - intros H. apply in_map_iff in H. destruct H as [o [He Hin]].
    apply existsb_exists. exists o. split; [exact Hin|].
    apply String.eqb_eq. exact He.
Qed.

Lemma filter_ext_in' : forall A (f g : A -> bool) l,
  (forall x, In x l -> f x = g x) -> filter f l = filter g l.
Proof.
  intros A f g l. induction l as [|x l IH]; intros H; simpl; [reflexivity|].
  rewrite (H x) by (left; reflexivity). rewrite IH; [reflexivity|].
  intros y Hy. apply H. right. exact Hy.
Qed.

Lemma filter_filter' : forall A (f g : A -> bool) l,
  filter f (filter g l) = filter (fun x => g x && f x) l.
Proof.
  intros A f g l. induction l as [|x l IH]; simpl; [reflexivity|].
  destruct (g x); simpl; [destruct (f x)|]; rewrite IH; reflexivity.
Qed.

(** An option whose name is already held does not join. *)
Lemma accept_dup : forall tmp_list o cands,
  has_name tmp_list (option_name o) = true ->
  accept tmp_list (o :: cands) = accept tmp_list cands.
Proof.
  intros tmp_list o cands H. unfold accept. f_equal. simpl. rewrite H. simpl.
  rewrite filter_filter'. apply filter_ext_in'. intros x _.
  unfold other_name.
  destruct (String.eqb_spec (option_name x) (option_name o)) as [E|E]; simpl.
  - rewrite E, H. reflexivity.
  - reflexivity.
Qed.

(** An option with a new name joins at the tail. *)
Lemma accept_new : forall tmp_list o cands,
  has_name tmp_list (option_name o) = false ->
  accept tmp_list (o :: cands) = accept (list_add_tail o tmp_list) cands.
Proof.
  intros tmp_list o cands H. unfold accept, list_add_tail. simpl. rewrite H. simpl.
  rewrite <- app_assoc. simpl. do 2 f_equal.
  rewrite filter_filter'. apply filter_ext_in'. intros x _.
  rewrite has_name_app. unfold other_name.
  replace (has_name [o] (option_name x)) with (String.eqb (option_name o) (option_name x)).
  2:{ rewrite has_name_existsb. simpl. rewrite orb_false_r. reflexivity. }
  rewrite (String.eqb_sym (option_name o)).
  destruct (String.eqb (option_name x) (option_name o)); simpl.
  - rewrite orb_true_r. reflexivity.
  - rewrite orb_false_r. reflexivity.
Qed.

Lemma accept_nil : forall tmp_list, accept tmp_list [] = tmp_list.
Proof. intros. unfold accept. simpl. apply app_nil_r. Qed.

Lemma accept_from_nil : forall cands, accept [] cands = first_of_each_name cands.
Proof.
  intros cands. unfold accept. simpl.
  induction (first_of_each_name cands) as [|o l IH]; simpl; [reflexivity|].
  rewrite IH. reflexivity.
Qed.

Lemma option_of_entry_name : forall a o,
  option_of_entry a = Some o -> entry_name a = Some (option_name o).
Proof.
  intros a o. unfold option_of_entry, entry_name.
  destruct (TEAM_ATTR_OPTION_NAME a) as [n|]; [|discriminate].
  destruct (TEAM_ATTR_OPTION_TYPE a) as [t|]; [|discriminate].
  destruct (TEAM_ATTR_OPTION_DATA a) as [d|]; [|discriminate].
  cbv zeta.
  destruct (to_int (nla_get_u32 t) =? NLA_U32);
    [|destruct (to_int (nla_get_u32 t) =? NLA_STRING)];
    intros H; inversion H; reflexivity.
Qed.

Lemma create_option_cases : forall heap name opt_type data changed,
  (nth 0 heap true = true /\ nth 1 heap true = true /\ nth 2 heap true = true /\
   create_option heap name opt_type data changed =
   (Some {| option_type := opt_type; option_changed := changed;
            option_name := name; option_data_of := data |},
    tl (tl (tl heap))))
  \/
  ((exists k, (k < 3)%nat /\ nth k heap true = false) /\
   exists heap', create_option heap name opt_type data changed = (None, heap')).
Proof.
  intros heap name opt_type data changed. unfold create_option.
  rewrite (malloc_nth heap).
  destruct (nth 0 heap true) eqn:E0; cbn [negb].
  2:{ right. split; [exists 0%nat; split; [lia|exact E0]|eexists; reflexivity]. }
  rewrite (malloc_nth (tl heap)). rewrite nth_tl.
  destruct (nth 1 heap true) eqn:E1; cbn [negb].
  2:{ right. split; [exists 1%nat; split; [lia|exact E1]|eexists; reflexivity]. }
  rewrite (malloc_nth (tl (tl heap))). rewrite !nth_tl.
  destruct (nth 2 heap true) eqn:E2; cbn [negb].
  2:{ right. split; [exists 2%nat; split; [lia|exact E2]|eexists; reflexivity]. }
  left. auto.
Qed.

(** One turn of the loop on an entry that parses, read through
    [option_of_entry]. *)
Lemma options_loop_step : forall heap a rest tmp_list,
  options_loop heap (Some a :: rest) tmp_list =
  match entry_name a with
  | Some name =>
      if wellformed (Some a) then
        if has_name tmp_list name
        then logged (LogOptionAlreadyInList name) (options_loop heap rest tmp_list)
        else match option_of_entry a with
             | None => logged LogUnknownNlaType (options_loop heap rest tmp_list)
             | Some o =>
                 match create_option heap (option_name o) (option_type o)
                         (option_data_of o) (option_changed o) with
                 | (None, _) => ([], Crashed)
                 | (Some o', heap') =>
                     options_loop heap' rest (list_add_tail o' tmp_list)
                 end
             end
      else ([], Returned)
  | None => ([], Returned)
  end.
Proof.
  intros heap a rest tmp_list. cbn [options_loop].
  unfold entry_name, wellformed, option_of_entry, has_name.
  destruct (TEAM_ATTR_OPTION_NAME a) as [n|]; [|reflexivity].
  destruct (TEAM_ATTR_OPTION_TYPE a) as [t|]; [|reflexivity].
  destruct (TEAM_ATTR_OPTION_DATA a) as [d|]; [|reflexivity].
  cbn [present andb].
  destruct (present (__find_option tmp_list (nla_get_string n))); [reflexivity|].
  cbv zeta.
  destruct (to_int (nla_get_u32 t) =? NLA_U32); [reflexivity|].
  destruct (to_int (nla_get_u32 t) =? NLA_STRING); reflexivity.
Qed.

Lemma logged_completed : forall A m (r : list event * loop_exit A) t l,
  logged m r = (t, Completed l) ->
  exists t', t = Printf m :: t' /\ r = (t', Completed l).
Proof.
  intros A m [t' x] t l H. unfold logged in H. simpl in H. inversion H; subst.
  exists t'. split; reflexivity.
Qed.

Lemma candidates_cons_some : forall a rest,
  candidates (Some a :: rest) =
  match option_of_entry a with
  | Some o => o :: candidates rest
  | None => candidates rest
  end.
Proof.
  intros a rest. unfold candidates. simpl.
  destruct (option_of_entry a); reflexivity.
Qed.

Lemma team_option_eta : forall o,
  {| option_type := option_type o; option_changed := option_changed o;
     option_name := option_name o; option_data_of := option_data_of o |} = o.
Proof. intros []. reflexivity. Qed.

Lemma heap_allows_le : forall n m heap,
  (m <= n)%nat -> heap_allows n heap -> heap_allows m heap.
Proof. intros n m heap Hle H k Hk. apply H. lia. Qed.

Lemma heap_allows_drop3 : forall n heap,
  heap_allows (3 + n) heap -> heap_allows n (tl (tl (tl heap))).
Proof.
  intros n heap H k Hk. rewrite !nth_tl. apply H. lia.
Qed.

(** When the loop runs to its end, every entry was readable, the list in
    hand holds the first option of every name the message offers with a
    known type, and one line was printed per entry left out. *)
Lemma options_loop_completed : forall nested heap tmp_list t l,
  options_loop heap nested tmp_list = (t, Completed l) ->
  forallb wellformed nested = true /\
  l = accept tmp_list (candidates nested) /\
  Forall is_printf t /\
  (List.length t + List.length l = List.length tmp_list + List.length nested)%nat.
Proof.
  induction nested as [|e nested IH]; intros heap tmp_list t l H.
  - simpl in H. inversion H; subst. rewrite accept_nil. simpl.
    repeat split; [constructor|lia].
  - destruct e as [a|]; [|simpl in H; discriminate].
    rewrite options_loop_step in H.
    destruct (entry_name a) as [name|] eqn:En; [|discriminate].
    destruct (wellformed (Some a)) eqn:Ew; [|discriminate].
    cbn [forallb]. rewrite Ew. cbn [andb]. rewrite candidates_cons_some.
    destruct (has_name tmp_list name) eqn:Eh.
    + apply logged_completed in H. destruct H as [t' [-> H]].
      apply IH in H. destruct H as [Hw [Hl [Ht Hn]]].
      split; [exact Hw|]. split; [|split].
      * destruct (option_of_entry a) as [o|] eqn:Eo; [|exact Hl].
        apply option_of_entry_name in Eo. rewrite En in Eo. inversion Eo; subst name.
        rewrite accept_dup by exact Eh. exact Hl.
      * constructor; [eexists; reflexivity|exact Ht].
      * simpl. lia.
    + destruct (option_of_entry a) as [o|] eqn:Eo.
      * pose proof (option_of_entry_name _ _ Eo) as Eo'. rewrite En in Eo'.
        inversion Eo'; subst name.
        destruct (create_option_cases heap (option_name o) (option_type o)
                    (option_data_of o) (option_changed o))
          as [[_ [_ [_ Hc]]]|[_ [heap' Hc]]]; rewrite Hc in H; [|discriminate].
        rewrite team_option_eta in H.
        apply IH in H. destruct H as [Hw [Hl [Ht Hn]]].
        split; [exact Hw|]. split; [|split].
        -- rewrite accept_new by exact Eh. exact Hl.
        -- exact Ht.
        -- unfold list_add_tail in Hn. rewrite length_app in Hn. simpl in *. lia.
      * apply logged_completed in H. destruct H as [t' [-> H]].
        apply IH in H. destruct H as [Hw [Hl [Ht Hn]]].
        split; [exact Hw|]. split; [exact Hl|]. split.
        -- constructor; [eexists; reflexivity|exact Ht].
        -- simpl. lia.
Qed.

Lemma wellformed_entry_name : forall a,
  wellformed (Some a) = true -> exists name, entry_name a = Some name.
Proof.
  intros a H. unfold wellformed in H. unfold entry_name.
  destruct (TEAM_ATTR_OPTION_NAME a) as [n|]; [eexists; reflexivity|discriminate].
Qed.

(** Readable entries and an allocator that answers are enough for the loop
    to run to its end. *)
Lemma options_loop_complete : forall nested heap tmp_list,
  forallb wellformed nested = true ->
  heap_allows (3 * List.length nested) heap ->
  exists t,
    options_loop heap nested tmp_list
    = (t, Completed (accept tmp_list (candidates nested))).
Proof.
  induction nested as [|e nested IH]; intros heap tmp_list Hw Hh.
  - exists []. simpl. rewrite accept_nil. reflexivity.
  - cbn [forallb] in Hw. apply andb_prop in Hw. destruct Hw as [Hwe Hw].
    destruct e as [a|]; [|discriminate].
    assert (Hh3 : heap_allows (3 + 3 * List.length nested) heap).
    { eapply heap_allows_le; [|exact Hh]. simpl. lia. }
    assert (Hh' : heap_allows (3 * List.length nested) heap).
    { eapply heap_allows_le; [|exact Hh3]. lia. }
    rewrite options_loop_step, Hwe, candidates_cons_some.
    destruct (wellformed_entry_name _ Hwe) as [name En]. rewrite En.
    destruct (has_name tmp_list name) eqn:Eh.
    + destruct (IH heap tmp_list Hw Hh') as [t Ht]. rewrite Ht.
      exists (Printf (LogOptionAlreadyInList name) :: t). unfold logged. simpl.
      destruct (option_of_entry a) as [o|] eqn:Eo; [|reflexivity].
      apply option_of_entry_name in Eo. rewrite En in Eo. inversion Eo; subst name.
      rewrite accept_dup by exact Eh. reflexivity.
    + destruct (option_of_entry a) as [o|] eqn:Eo.
      * pose proof (option_of_entry_name _ _ Eo) as Eo'. rewrite En in Eo'.
        inversion Eo'; subst name.
        destruct (create_option_cases heap (option_name o) (option_type o)
                    (option_data_of o) (option_changed o))
          as [[_ [_ [_ Hc]]]|[[k [Hk Hn]] _]].
        -- rewrite Hc, team_option_eta.
           destruct (IH (tl (tl (tl heap))) (list_add_tail o tmp_list) Hw
                       (heap_allows_drop3 _ _ Hh3)) as [t Ht].
           exists t. rewrite Ht, accept_new by exact Eh. reflexivity.
        -- rewrite Hh3 in Hn by lia. discriminate.
      * destruct (IH heap tmp_list Hw Hh') as [t Ht]. rewrite Ht.
        exists (Printf LogUnknownNlaType :: t). reflexivity.
Qed.

(** Whatever way the loop ends, it has only printed. *)
Lemma options_loop_prints : forall nested heap tmp_list,
  Forall is_printf (fst (options_loop heap nested tmp_list)).
Proof.
  induction nested as [|e nested IH]; intros heap tmp_list.
  - constructor.
  - destruct e as [a|]; [|simpl; constructor; [eexists; reflexivity|constructor]].
    rewrite options_loop_step.
    destruct (entry_name a) as [name|]; [|constructor].
    destruct (wellformed (Some a)); [|constructor].
    destruct (has_name tmp_list name).
    + simpl. constructor; [eexists; reflexivity|apply IH].
    + destruct (option_of_entry a) as [o|].
      * destruct (create_option heap (option_name o) (option_type o)
                    (option_data_of o) (option_changed o)) as [[o'|] heap'].
        -- apply IH.
        -- constructor.
      * simpl. constructor; [eexists; reflexivity|apply IH].
Qed.

Lemma get_options_handler_refresh : forall th uninit heap msg t opts,
  option_refresh th uninit heap msg t opts ->
  get_options_handler uninit heap msg th
  = (Ret NL_SKIP, options_refreshed opts th, t).
Proof.
  intros th uninit heap msg t opts [Hi [nested [Hl Hloop]]].
  unfold get_options_handler, bind, get. cbn [fst snd].
  unfold team_ifindex_of in Hi. rewrite Hi, Z.eqb_refl. cbn [negb].
  rewrite Hl, Hloop. cbn.
  unfold options_refreshed, set_change_handler_list, set_option_list, list_splice.
  cbn. rewrite !app_nil_r. reflexivity.
Qed.

(** Whatever the message and the allocator, the handler either completes a
    refresh, or leaves the handle as it found it: it then returns [NL_SKIP],
    or faults on the record [create_option] did not allocate. *)
Lemma get_options_handler_cases : forall th uninit heap msg,
  (exists t opts,
     option_refresh th uninit heap msg t opts /\
     get_options_handler uninit heap msg th
       = (Ret NL_SKIP, options_refreshed opts th, t))
  \/
  ((forall t opts, ~ option_refresh th uninit heap msg t opts) /\
   exists o t, get_options_handler uninit heap msg th = (o, th, t) /\
               (o = Ret NL_SKIP \/ o = Fault) /\ Forall is_printf t).
Proof.
  intros th uninit heap msg.
  destruct (Z.eq_dec (team_ifindex_of uninit msg) (ifindex th)) as [Ei|Ei].
  - destruct (TEAM_ATTR_LIST_OPTION msg) as [nested|] eqn:El.
    + pose proof (options_loop_prints nested heap []) as Hp.
      destruct (options_loop heap nested []) as [t [opts| |]] eqn:Hloop.
      * left. exists t, opts.
        assert (Hr : option_refresh th uninit heap msg t opts).
        { split; [exact Ei|]. exists nested. auto. }
        split; [exact Hr|]. apply get_options_handler_refresh. exact Hr.
      * right. split.
        -- intros t' opts [_ [nested' [El' Hloop']]]. congruence.
        -- exists (Ret NL_SKIP), t. split; [|split; [left; reflexivity|exact Hp]].
           unfold get_options_handler, bind, get. cbn [fst snd].
           unfold team_ifindex_of in Ei. rewrite Ei, Z.eqb_refl. cbn [negb].
           rewrite El, Hloop. cbn. rewrite app_nil_r. reflexivity.
      * right. split.
        -- intros t' opts [_ [nested' [El' Hloop']]]. congruence.
        -- exists Fault, t. split; [|split; [right; reflexivity|exact Hp]].
           unfold get_options_handler, bind, get. cbn [fst snd].
           unfold team_ifindex_of in Ei. rewrite Ei, Z.eqb_refl. cbn [negb].
           rewrite El, Hloop. cbn. rewrite app_nil_r. reflexivity.
    + right. split.
      * intros t opts [_ [nested [El' _]]]. congruence.
      * exists (Ret NL_SKIP), []. split; [|split; [left; reflexivity|constructor]].
        unfold get_options_handler, bind, get. cbn [fst snd].
        unfold team_ifindex_of in Ei. rewrite Ei, Z.eqb_refl. cbn [negb].
        rewrite El. reflexivity.
  - right. split.
    + intros t opts [Hi _]. contradiction.
    + exists (Ret NL_SKIP), []. split; [|split; [left; reflexivity|constructor]].
      unfold get_options_handler, bind, get. cbn [fst snd].
      unfold team_ifindex_of in Ei. apply Z.eqb_neq in Ei. rewrite Ei. reflexivity.
Qed.

(** *** The list a refresh installs has one option per name *)

Lemma option_names_filter_incl : forall (f : team_option -> bool) l name,
  In name (option_names (filter f l)) -> In name (option_names l).
Proof.
  intros f l name H. unfold option_names in *. apply in_map_iff in H.
  destruct H as [o [He Hin]]. apply filter_In in Hin. destruct Hin as [Hin _].
  apply in_map_iff. exists o. auto.
Qed.

Lemma NoDup_option_names_filter : forall (f : team_option -> bool) l,
  NoDup (option_names l) -> NoDup (option_names (filter f l)).
Proof.
  intros f l. induction l as [|o l IH]; simpl; intros H; [constructor|].
  inversion H as [|x xs Hnotin Hnd]; subst.
  destruct (f o); simpl; [|apply IH; exact Hnd].
  constructor; [|apply IH; exact Hnd].
  intros Hin. apply Hnotin. eapply option_names_filter_incl. exact Hin.
Qed.

Lemma first_of_each_name_NoDup : forall l,
  NoDup (option_names (first_of_each_name l)).
Proof.
  induction l as [|o l IH]; simpl; [constructor|].
  constructor.
  - intros Hin. unfold option_names in Hin. apply in_map_iff in Hin.
    destruct Hin as [o' [He Hin]]. apply filter_In in Hin.
    destruct Hin as [_ Hf]. unfold other_name in Hf. rewrite He in Hf.
    rewrite String.eqb_refl in Hf. discriminate.
  - apply NoDup_option_names_filter. exact IH.
Qed.

Lemma find_option_filter_other : forall o l name,
  option_name o <> name ->
  __find_option (filter (other_name o) l) name = __find_option l name.
Proof.
  intros o l name Hne. unfold __find_option.
  induction l as [|x l IH]; simpl; [reflexivity|].
  unfold other_name at 1.
  destruct (String.eqb_spec (option_name x) (option_name o)) as [E|E]; simpl.
  - destruct (String.eqb_spec (option_name x) name) as [E'|E']; [congruence|exact IH].
  - destruct (String.eqb (option_name x) name); [reflexivity|exact IH].
Qed.

(** Looking a name up in the refreshed list finds the first option of that
    name the message offers. *)
Lemma find_option_first_of_each_name : forall l name,
  __find_option (first_of_each_name l) name = __find_option l name.
Proof.
  induction l as [|o l IH]; intros name; [reflexivity|].
  cbn [first_of_each_name]. unfold __find_option at 1 2. cbn [find].
  destruct (String.eqb_spec (option_name o) name) as [E|E]; [reflexivity|].
  fold (__find_option (filter (other_name o) (first_of_each_name l)) name).
  fold (__find_option l name).
  rewrite find_option_filter_other by exact E. apply IH.
Qed.

Lemma options_loop_NoDup : forall heap nested t opts,
  options_loop heap nested [] = (t, Completed opts) ->
  NoDup (option_names opts).
Proof.
  intros heap nested t opts H. apply options_loop_completed in H.
  destruct H as [_ [-> _]]. rewrite accept_from_nil.
  apply first_of_each_name_NoDup.
Qed.

(** ** What every operation but registration does to the handle

    A relation that holds across each elementary update holds across every
    operation that is made of them, however the environment answers. *)

Section Stable.
Variable R : team_handle -> team_handle -> Prop.
Hypothesis R_refl : forall th, R th th.
Hypothesis R_trans : forall a b c, R a b -> R b c -> R a c.
Hypothesis R_valid_cb : forall cb th,
  R th (set_nl_sock (set_cb_valid cb (th_nl_sock th)) th).
Hypothesis R_reply_cbs : forall th,
  R th (set_nl_sock (install_reply_callbacks (th_nl_sock th)) th).
Hypothesis R_nl_sock_err : forall e th, R th (set_nl_sock_err e th).
Hypothesis R_seq_check : forall th,
  R th (set_nl_sock_event (disable_seq_check (th_nl_sock_event th)) th).
Hypothesis R_event_cb : forall th,
  R th (set_nl_sock_event (set_cb_valid ValidEvent (th_nl_sock_event th)) th).
Hypothesis R_family : forall f th, R th (set_family f th).
Hypothesis R_ifindex : forall i th, R th (set_ifindex i th).
Hypothesis R_ports : forall ports th, R th (port_refreshed ports th).
Hypothesis R_options : forall th heap nested t opts,
  options_loop heap nested [] = (t, Completed opts) ->
  R th (options_refreshed opts th).
Hypothesis R_fire : forall type th,
  R th (set_change_handler_list
          (map (fun it => if fires type it then clear_item it else it)
             (change_handler_list th)) th).

Ltac framing :=
  repeat lazymatch goal with
    | |- frames _ (ret _) => apply (frames_ret R R_refl)
    | |- frames _ get => apply (frames_get R R_refl)
    | |- frames _ (emit _) => apply (frames_emit R R_refl)
    | |- frames _ (printf _) => apply (frames_emit R R_refl)
    | |- frames _ block => apply (frames_block R R_refl)
    | |- frames _ fault => apply (frames_fault R R_refl)
    | |- frames _ (modify _) =>
        apply (frames_modify R); intro;
        first [ apply R_valid_cb | apply R_reply_cbs | apply R_nl_sock_err
              | apply R_seq_check | apply R_event_cb
              | apply R_family | apply R_ifindex ]
    | |- frames _ (bind _ _) => apply (frames_bind R R_trans); [ | intro ]
    | |- frames _ (if _ then _ else _) => apply (frames_if R)
    | |- frames _ (let _ := _ in _) => cbv zeta
    end.

Lemma stable_get_port_list_handler : forall uninit heap msg,
  frames R (get_port_list_handler uninit heap msg).
Proof.
  intros uninit heap msg th.
  destruct (get_port_list_handler_cases th uninit heap msg)
    as [[ports [_ H]]|[_ [t [H _]]]]; rewrite H; unfold handle_of; cbn [fst snd].
  - apply R_ports.
  - apply R_refl.
Qed.

Lemma stable_get_options_handler : forall uninit heap msg,
  frames R (get_options_handler uninit heap msg).
Proof.
  intros uninit heap msg th.
  destruct (get_options_handler_cases th uninit heap msg)
    as [[t [opts [[_ [nested [_ Hl]]] H]]]|[_ [o [t [H _]]]]]; rewrite H;
    unfold handle_of; cbn [fst snd].
  - eapply R_options. exact Hl.
  - apply R_refl.
Qed.

Lemma stable_event_handler : forall uninit heap msg,
  frames R (event_handler uninit heap msg).
Proof.
  intros uninit heap msg. unfold event_handler.
  destruct (genl_cmd msg);
    try apply (frames_ret R R_refl);
    auto using stable_get_port_list_handler, stable_get_options_handler.
Qed.

Lemma stable_nl_cb_call : forall s d, frames R (nl_cb_call s d).
Proof.
  intros s d. unfold nl_cb_call.
  apply (frames_bind R R_trans); [apply (frames_get R R_refl)|]. intros th0.
  destruct (item d) as [msg| | |e].
  - destruct (cb_valid (sock_of s th0));
      try apply (frames_ret R R_refl);
      auto using stable_get_port_list_handler, stable_get_options_handler,
                 stable_event_handler.
  - destruct (cb_ack (sock_of s th0)); unfold ack_handler; framing.
  - destruct (cb_finish (sock_of s th0)); unfold finish_handler; framing.
  - destruct (cb_err (sock_of s th0)); unfold error_handler; framing.
Qed.

Lemma stable_nl_recvmsgs_default : forall s arrived,
  frames R (nl_recvmsgs_default s arrived).
Proof.
  intros s arrived. induction arrived as [|d rest IH]; simpl.
  - apply (frames_ret R R_refl).
  - apply (frames_bind R R_trans); [apply stable_nl_cb_call|].
    intros verdict. apply (frames_if R); [apply (frames_ret R R_refl)|exact IH].
Qed.

Lemma stable_recv_while_in_flight : forall passes,
  frames R (recv_while_in_flight passes).
Proof.
  induction passes as [|arrived rest IH]; intros th; simpl.
  - destruct (nl_sock_err th >? 0); apply R_refl.
  - destruct (nl_sock_err th >? 0); [|apply R_refl].
    revert th. apply (frames_bind R R_trans); [apply stable_nl_recvmsgs_default|].
    intros _. exact IH.
Qed.

Lemma stable_send_and_recv : forall x msg valid_handler,
  frames R (send_and_recv x msg valid_handler).
Proof.
  intros x msg valid_handler. unfold send_and_recv. framing.
  - destruct valid_handler; framing.
  - apply stable_recv_while_in_flight.
Qed.

Lemma stable_check_call_change_handlers : forall type,
  frames R (check_call_change_handlers type).
Proof.
  intros type th. rewrite run_check_call_change_handlers.
  unfold handle_of; cbn [fst snd]. apply R_fire.
Qed.

Lemma stable_get_port_list : forall x, frames R (get_port_list x).
Proof.
  intros x. unfold get_port_list. framing.
  - apply stable_send_and_recv.
  - apply stable_check_call_change_handlers.
Qed.

Lemma stable_get_options : forall x, frames R (get_options x).
Proof.
  intros x. unfold get_options. framing.
  - apply stable_send_and_recv.
  - apply stable_check_call_change_handlers.
Qed.

Lemma stable_set_option_value : forall x opt_name data opt_type,
  frames R (set_option_value x opt_name data opt_type).
Proof.
  intros x opt_name data opt_type. unfold set_option_value.
  destruct (opt_type =? TEAM_OPTION_TYPE_U32);
    [|destruct (opt_type =? TEAM_OPTION_TYPE_STRING)];
    framing; apply stable_send_and_recv.
Qed.

Lemma stable_team_init : forall w i, frames R (team_init w i).
Proof.
  intros w i. unfold team_init, printf. framing;
    auto using stable_get_port_list, stable_get_options.
Qed.

Lemma stable_team_process_event : forall arrived,
  frames R (team_process_event arrived).
Proof.
  intros arrived. unfold team_process_event. framing.
  - apply stable_nl_recvmsgs_default.
  - apply stable_check_call_change_handlers.
Qed.

Lemma stable_team_check_events : forall readable,
  frames R (team_check_events readable).
Proof.
  induction readable as [|arrived rest IH]; simpl.
  - apply (frames_ret R R_refl).
  - apply (frames_bind R R_trans); [apply stable_team_process_event|].
    intros _. exact IH.
Qed.
End Stable.

(** ** Registration *)

Lemma find_change_handler_None : forall th h,
  find_change_handler th h = None <-> ~ registered h th.
Proof.
  intros th h. unfold find_change_handler, registered, registry.
  induction (change_handler_list th) as [|it l IH]; simpl.
  - split; [intros _ []|reflexivity].
  - unfold is_handler at 1. fold (addr_of it).
    destruct (Nat.eqb_spec (addr_of it) (handler_addr h)) as [E|E].
    + split; [discriminate|]. intros H. exfalso. apply H. left. exact E.
    + rewrite IH. split.
      * intros H [C|C]; [contradiction|]. apply H. exact C.
      * intros H C. apply H. right. exact C.
Qed.

Lemma run_team_change_handler_register : forall malloc_ok h th,
  team_change_handler_register malloc_ok h th =
  if present (find_change_handler th h) then (Ret (- EEXIST), th, [])
  else if negb malloc_ok then (Ret (- ENOMEM), th, [])
  else (Ret 0,
        set_change_handler_list
          (list_add {| call_this := false; handler := h |}
             (change_handler_list th)) th,
        []).
Proof.
  intros malloc_ok h th. unfold team_change_handler_register, bind, get.
  cbn [fst snd]. destruct (present (find_change_handler th h)); [reflexivity|].
  destruct malloc_ok; reflexivity.
Qed.

Lemma run_team_change_handler_unregister : forall h th,
  team_change_handler_unregister h th =
  (Ret tt,
   match find_change_handler th h with
   | None => th
   | Some _ =>
       set_change_handler_list
         (list_del (is_handler h) (change_handler_list th)) th
   end,
   []).
Proof.
  intros h th. unfold team_change_handler_unregister, bind, get.
  cbn [fst snd]. destruct (find_change_handler th h); reflexivity.
Qed.

(** [list_del] takes out the first registration of the handler and leaves
    the rest in place. *)
Lemma list_del_split : forall h l,
  In (handler_addr h) (map addr_of l) ->
  exists l1 it l2,
    l = l1 ++ it :: l2 /\ addr_of it = handler_addr h /\
    ~ In (handler_addr h) (map addr_of l1) /\
    list_del (is_handler h) l = l1 ++ l2.
Proof.
  intros h l. induction l as [|x l IH]; simpl; intros Hin; [contradiction|].
  unfold is_handler at 1. fold (addr_of x).
  destruct (Nat.eqb_spec (addr_of x) (handler_addr h)) as [E|E].
  - exists [], x, l. simpl. auto.
  - destruct Hin as [C|Hin]; [contradiction|].
    destruct (IH Hin) as [l1 [it [l2 [-> [Hit [Hn Hd]]]]]].
    exists (x :: l1), it, l2. simpl. rewrite Hd. repeat split; auto.
    intros [C|C]; [contradiction|]. apply Hn. exact C.
Qed.

(** ** Invariants of the handle *)

Lemma keeps_refl : forall Inv th, keeps Inv th th.
Proof. intros Inv th H. exact H. Qed.

Lemma keeps_trans : forall Inv a b c,
  keeps Inv a b -> keeps Inv b c -> keeps Inv a c.
Proof. intros Inv a b c H1 H2 H. apply H2, H1, H. Qed.

Lemma same_registry_refl : forall th, same_registry th th.
Proof. reflexivity. Qed.

Lemma same_registry_trans : forall a b c,
  same_registry a b -> same_registry b c -> same_registry a c.
Proof. unfold same_registry. intros a b c H1 H2. congruence. Qed.

Lemma same_registry_swept : forall type th, same_registry th (swept type th).
Proof.
  intros type th. unfold same_registry, swept, registry. simpl.
  apply map_addr_of_fire.
Qed.

Lemma same_registry_port_refreshed : forall ports th,
  same_registry th (port_refreshed ports th).
Proof.
  intros ports th. unfold same_registry, port_refreshed, registry. simpl.
  apply map_addr_of_mark.
Qed.

Lemma same_registry_options_refreshed : forall opts th,
  same_registry th (options_refreshed opts th).
Proof.
  intros opts th. unfold same_registry, options_refreshed, registry. simpl.
  apply map_addr_of_mark.
Qed.

Ltac same_registry_side :=
  first [ exact same_registry_refl
        | exact same_registry_trans
        | exact same_registry_port_refreshed
        | exact same_registry_swept
        | intros; apply same_registry_options_refreshed
        | intros; reflexivity ].

(** Setters and the event pump leave the registry as it is. *)
Lemma same_registry_team_process_event : forall arrived,
  frames same_registry (team_process_event arrived).
Proof.
  intros arrived. apply stable_team_process_event; same_registry_side.
Qed.

Lemma same_registry_nl_recvmsgs_default : forall s arrived,
  frames same_registry (nl_recvmsgs_default s arrived).
Proof.
  intros s arrived. apply stable_nl_recvmsgs_default; same_registry_side.
Qed.

Lemma names_unique_options_refreshed : forall th heap nested t opts,
  options_loop heap nested [] = (t, Completed opts) ->
  keeps names_unique th (options_refreshed opts th).
Proof.
  intros th heap nested t opts H _. unfold names_unique. simpl.
  eapply options_loop_NoDup. exact H.
Qed.

Ltac names_unique_side :=
  first [ exact (keeps_refl names_unique)
        | exact (keeps_trans names_unique)
        | exact names_unique_options_refreshed
        | intros; intro; assumption ].

Lemma same_registry_keeps_ok : forall th th',
  same_registry th th' -> keeps registry_ok th th'.
Proof.
  intros th th' H Hok. unfold registry_ok in *. rewrite H. exact Hok.
Qed.

Ltac registry_ok_side :=
  first [ exact (keeps_refl registry_ok)
        | exact (keeps_trans registry_ok)
        | intros; apply same_registry_keeps_ok;
          first [ apply same_registry_port_refreshed
                | apply same_registry_options_refreshed
                | apply same_registry_swept
                | reflexivity ] ].

Lemma names_unique_run_call : forall c, frames (keeps names_unique) (run_call c).
Proof.
  intros [w i|arrived|readable|ok h|h|x n v|x n s]; cbn [run_call].
  - apply (frames_bind _ (keeps_trans names_unique));
      [|intro; apply (frames_ret _ (keeps_refl names_unique))].
    apply stable_team_init; names_unique_side.
  - apply stable_team_process_event; names_unique_side.
  - apply stable_team_check_events; names_unique_side.
  - intros th. unfold handle_of, bind.
    rewrite run_team_change_handler_register.
    destruct (present (find_change_handler th h)); [intro; assumption|].
    destruct ok; intro; assumption.
  - intros th. rewrite run_team_change_handler_unregister.
    destruct (find_change_handler th h); intro; assumption.
  - apply (frames_bind _ (keeps_trans names_unique));
      [|intro; apply (frames_ret _ (keeps_refl names_unique))].
    apply stable_set_option_value; names_unique_side.
  - apply (frames_bind _ (keeps_trans names_unique));
      [|intro; apply (frames_ret _ (keeps_refl names_unique))].
    apply stable_set_option_value; names_unique_side.
Qed.

Lemma registry_ok_register : forall ok h th,
  keeps registry_ok th (handle_of (team_change_handler_register ok h th)).
Proof.
  intros ok h th Hok. rewrite run_team_change_handler_register.
  destruct (find_change_handler th h) as [it|] eqn:Ef; [exact Hok|].
  cbn [present]. destruct ok; [|exact Hok].
  unfold handle_of, registry_ok, registry. simpl.
  constructor; [|exact Hok]. apply find_change_handler_None. exact Ef.
Qed.

Lemma registry_ok_unregister : forall h th,
  keeps registry_ok th (handle_of (team_change_handler_unregister h th)).
Proof.
  intros h th Hok. rewrite run_team_change_handler_unregister.
  unfold handle_of. cbn [fst snd].
  destruct (find_change_handler th h) as [it|] eqn:Ef; [|exact Hok].
  assert (Hin : registered h th).
  { destruct (in_dec Nat.eq_dec (handler_addr h) (registry th)) as [Hin|Hn];
      [exact Hin|]. apply find_change_handler_None in Hn. congruence. }
  destruct (list_del_split h _ Hin) as [l1 [x [l2 [El [_ [_ Hd]]]]]].
  unfold registry_ok, registry in *. simpl. rewrite Hd. rewrite El in Hok.
  rewrite map_app in *. simpl in Hok. eapply NoDup_remove_1. exact Hok.
Qed.

Lemma registry_ok_run_call : forall c, frames (keeps registry_ok) (run_call c).
Proof.
  intros [w i|arrived|readable|ok h|h|x n v|x n s]; cbn [run_call].
  - apply (frames_bind _ (keeps_trans registry_ok));
      [|intro; apply (frames_ret _ (keeps_refl registry_ok))].
    apply stable_team_init; registry_ok_side.
  - apply stable_team_process_event; registry_ok_side.
  - apply stable_team_check_events; registry_ok_side.
  - apply (frames_bind _ (keeps_trans registry_ok));
      [|intro; apply (frames_ret _ (keeps_refl registry_ok))].
    intros th. apply registry_ok_register.
  - intros th. apply registry_ok_unregister.
  - apply (frames_bind _ (keeps_trans registry_ok));
      [|intro; apply (frames_ret _ (keeps_refl registry_ok))].
    apply stable_set_option_value; registry_ok_side.
  - apply (frames_bind _ (keeps_trans registry_ok));
      [|intro; apply (frames_ret _ (keeps_refl registry_ok))].
    apply stable_set_option_value; registry_ok_side.
Qed.

Lemma team_alloc_lists : forall e th,
  team_alloc e = Some th ->
  port_list th = [] /\ option_list th = [] /\ change_handler_list th = [].
Proof.
  intros e th. unfold team_alloc.
  repeat match goal with
         | |- context [if ?b then None else _] => destruct b; [discriminate|]
         end.
  intros H. inversion H. simpl. auto.
Qed.

Lemma reachable_names_unique : forall th, reachable th -> names_unique th.
Proof.
  intros th H. induction H as [e th Ha|c th Hr IH Hret].
  - apply team_alloc_lists in Ha. destruct Ha as [_ [Ho _]].
    unfold names_unique. rewrite Ho. constructor.
  - apply names_unique_run_call. exact IH.
Qed.

Lemma reachable_registry_ok : forall th, reachable th -> registry_ok th.
Proof.
  intros th H. induction H as [e th Ha|c th Hr IH Hret].
  - apply team_alloc_lists in Ha. destruct Ha as [_ [_ Hc]].
    unfold registry_ok, registry. rewrite Hc. constructor.
  - apply registry_ok_run_call. exact IH.
Qed.

(** ** The event pump *)

Lemma prints_app : forall t1 t2 : list event,
  Forall is_printf t1 -> Forall is_printf t2 -> Forall is_printf (t1 ++ t2).
Proof. intros t1 t2 H1 H2. apply Forall_app. split; assumption. Qed.

Lemma prints_no_calls : forall t addr, Forall is_printf t -> calls addr t = 0%nat.
Proof.
  intros t addr H. induction H as [|e t [m ->] _ IH]; simpl; [reflexivity|exact IH].
Qed.

Lemma get_port_list_handler_prints : forall uninit heap msg,
  emits (Forall is_printf) (get_port_list_handler uninit heap msg).
Proof.
  intros uninit heap msg th.
  destruct (get_port_list_handler_cases th uninit heap msg)
    as [[ports [_ H]]|[_ [t [H [->|[m ->]]]]]]; rewrite H; unfold trace_of; simpl.
  - constructor.
  - constructor.
  - constructor; [eexists; reflexivity|constructor].
Qed.

Lemma get_options_handler_prints : forall uninit heap msg,
  emits (Forall is_printf) (get_options_handler uninit heap msg).
Proof.
  intros uninit heap msg th.
  destruct (get_options_handler_cases th uninit heap msg)
    as [[t [opts [[_ [nested [_ Hl]]] H]]]|[_ [o [t [H [_ Hp]]]]]]; rewrite H;
    unfold trace_of; simpl.
  - pose proof (options_loop_prints nested heap []) as Hp. rewrite Hl in Hp.
    exact Hp.
  - exact Hp.
Qed.

Lemma nl_cb_call_prints : forall s d, emits (Forall is_printf) (nl_cb_call s d).
Proof.
  intros s d. unfold nl_cb_call.
  apply (emits_bind _ prints_app); [apply emits_get; constructor|]. intros th0.
  destruct (item d) as [msg| | |e].
  - destruct (cb_valid (sock_of s th0)).
    + apply emits_ret. constructor.
    + apply get_port_list_handler_prints.
    + apply get_options_handler_prints.
    + unfold event_handler. destruct (genl_cmd msg);
        first [ apply get_port_list_handler_prints
              | apply get_options_handler_prints
              | apply emits_ret; constructor ].
  - destruct (cb_ack (sock_of s th0)); intros th; constructor.
  - destruct (cb_finish (sock_of s th0)); intros th; constructor.
  - destruct (cb_err (sock_of s th0)); intros th; constructor.
Qed.

(** A receive pass prints at most; it calls no change handler. *)
Lemma nl_recvmsgs_default_prints : forall s arrived,
  emits (Forall is_printf) (nl_recvmsgs_default s arrived).
Proof.
  intros s arrived. induction arrived as [|d rest IH]; simpl.
  - apply emits_ret. constructor.
  - apply (emits_bind _ prints_app); [apply nl_cb_call_prints|].
    intros verdict. apply emits_if; [apply emits_ret; constructor|exact IH].
Qed.

(** [team_process_event]: the receive pass, then, when it returns, the walk
    over the registry for every class. *)
Lemma run_team_process_event : forall arrived th,
  team_process_event arrived th =
  match nl_recvmsgs_default EventSock arrived th with
  | (Ret _, th1, t1) =>
      (Ret tt, swept TEAM_ALL_CHANGE th1, t1 ++ sweep_calls TEAM_ALL_CHANGE th1)
  | (Blocked, th1, t1) => (Blocked, th1, t1)
  | (Fault, th1, t1) => (Fault, th1, t1)
  end.
Proof.
  intros arrived th. unfold team_process_event, bind.
  destruct (nl_recvmsgs_default EventSock arrived th) as [[[u| |] th1] t1];
    [|reflexivity|reflexivity].
  rewrite run_check_call_change_handlers. reflexivity.
Qed.

Lemma swept_all_clear : forall th it,
  In it (change_handler_list (swept TEAM_ALL_CHANGE th)) -> call_this it = false.
Proof.
  intros th it H. unfold swept in H. simpl in H. apply in_map_iff in H.
  destruct H as [x [<- _]]. unfold fires, type_matches. simpl.
  destruct (call_this x) eqn:E; [reflexivity|exact E].
Qed.

(** One walk calls the handler of a registration once when it fires and not
    at all when it does not. *)
Lemma sweep_calls_count : forall type th it,
  registry_ok th ->
  In it (change_handler_list th) ->
  calls (addr_of it) (sweep_calls type th) = if fires type it then 1%nat else 0%nat.
Proof.
  intros type th it Hok Hin. unfold sweep_calls.
  rewrite calls_fire_once by exact Hok.
  destruct (fires type it) eqn:Ef.
  - replace (existsb _ _) with true; [reflexivity|]. symmetry.
    apply existsb_exists. exists it. split; [exact Hin|].
    rewrite Nat.eqb_refl, Ef. reflexivity.
  - replace (existsb _ _) with false; [reflexivity|]. symmetry.
    apply not_true_is_false. intros Hex. apply existsb_exists in Hex.
    destruct Hex as [x [Hx Hb]]. apply andb_prop in Hb. destruct Hb as [Ha Hf].
    apply Nat.eqb_eq in Ha.
    assert (x = it); [|subst x; congruence].
    clear - Hok Hin Hx Ha. unfold registry_ok, registry in Hok.
    induction (change_handler_list th) as [|y l IH]; [contradiction|].
    simpl in Hok. inversion Hok as [|z zs Hn Hnd]; subst.
    destruct Hin as [->|Hin], Hx as [->|Hx]; auto.
    + exfalso. apply Hn. rewrite <- Ha. apply in_map. exact Hx.
    + exfalso. apply Hn. rewrite Ha. apply in_map. exact Hin.
Qed.

Lemma fires_clear_item : forall type it, fires type (clear_item it) = false.
Proof. intros type it. unfold fires, clear_item. simpl. apply andb_false_r. Qed.

(** Right after a walk nothing is left to fire for its class. *)
Lemma sweep_calls_swept : forall type th, sweep_calls type (swept type th) = [].
Proof.
  intros type th. unfold sweep_calls, swept. simpl.
  induction (change_handler_list th) as [|it l IH]; simpl; [reflexivity|].
  destruct (fires type it) eqn:Ef.
  - rewrite fires_clear_item. exact IH.
  - rewrite Ef. exact IH.
Qed.

(** ** The model on the scenarios of the specification *)

(** S1: after [team_init] on ifindex 7 the cache holds ports 11 and 12 in
    that order, [mode] reads [activebackup] and [activeport] reads 11. *)
Example scenario_initial_sync :
  result_of (team_init sample_init_env 7 fresh_handle) = Ret 0 /\
  map port_ifindex (port_list sample_handle) = [11; 12] /\
  option_map option_data_of (team_get_option_by_name sample_handle "mode")
  = Some (DataString "activebackup") /\
  option_map option_data_of (team_get_option_by_name sample_handle "activeport")
  = Some (DataU32 11).
Proof. vm_compute. repeat split; reflexivity. Qed.

(** S3: of two string entries named [mode] the first is kept and the second
    is warned about; an OPTION handler is called once. *)
Example scenario_duplicate_name :
  option_list
    (handle_of (team_process_event [deliver (ItemValid options_msg_two_modes)]
                  (handle_of (team_change_handler_register true
                                (option_handler 5) sample_handle))))
  = [ {| option_type := TEAM_OPTION_TYPE_STRING; option_changed := false;
         option_name := "mode"; option_data_of := DataString "roundrobin" |} ] /\
  trace_of (team_process_event [deliver (ItemValid options_msg_two_modes)]
              (handle_of (team_change_handler_register true
                            (option_handler 5) sample_handle)))
  = [Printf (LogOptionAlreadyInList "mode"); Call 5%nat].
Proof. vm_compute. split; reflexivity. Qed.

(** S4: [team_set_active_port 42] sends one option-set request for
    [activeport] and the cache still reads 11. *)
Example scenario_set_round_trip :
  trace_of (team_set_active_port exchange_acked 42 sample_handle)
  = [Send (option_set_request sample_handle "activeport" NLA_U32 (DataU32 42))] /\
  result_of (team_set_active_port exchange_acked 42 sample_handle) = Ret 0 /\
  option_map option_data_of
    (team_get_option_by_name
       (handle_of (team_set_active_port exchange_acked 42 sample_handle))
       "activeport")
  = Some (DataU32 11).
Proof. vm_compute. repeat split; reflexivity. Qed.

(** * The claims *)

(** C2.  In one call of [team_process_event] every registered handler is
    called at most once, whatever and however many messages the receive pass
    drained; when the call returns no registration is left pending.  One walk
    of [check_call_change_handlers] calls the handler of a registration
    exactly once when it is pending with a matching class, clears its flag,
    calls no other handler, and leaves nothing to fire for a second walk. *)
Theorem process_event_fires_at_most_once : forall th arrived,
  registry_ok th ->
  (forall addr,
     (calls addr (trace_of (team_process_event arrived th)) <= 1)%nat) /\
  (result_of (team_process_event arrived th) = Ret tt ->
   forall it,
     In it (change_handler_list (handle_of (team_process_event arrived th))) ->
     call_this it = false) /\
  (forall type,
     check_call_change_handlers type th
     = (Ret tt, swept type th, sweep_calls type th) /\
     sweep_calls type (swept type th) = [] /\
     forall it,
       In it (change_handler_list th) ->
       calls (addr_of it) (sweep_calls type th)
       = (if fires type it then 1%nat else 0%nat) /\
       In (if fires type it then clear_item it else it)
          (change_handler_list (swept type th))).
Proof.
  intros th arrived Hok. split; [|split].
  - intros addr. rewrite run_team_process_event.
    pose proof (nl_recvmsgs_default_prints EventSock arrived th) as Hp.
    pose proof (same_registry_nl_recvmsgs_default EventSock arrived th) as Hs.
    destruct (nl_recvmsgs_default EventSock arrived th) as [[o th1] t1].
    unfold trace_of, handle_of in *. cbn [fst snd] in *.
    assert (H0 : calls addr t1 = 0%nat) by (apply prints_no_calls; exact Hp).
    destruct o as [u| |]; cbn [snd]; try lia.
    rewrite calls_app, H0. unfold sweep_calls. simpl.
    apply calls_fire_le_1. unfold same_registry, registry in Hs.
    rewrite Hs. exact Hok.
  - rewrite run_team_process_event.
    destruct (nl_recvmsgs_default EventSock arrived th) as [[[u| |] th1] t1];
      unfold result_of, handle_of; cbn [fst snd]; try discriminate.
    intros _ it Hin. eapply swept_all_clear. exact Hin.
  - intros type. split; [apply run_check_call_change_handlers|].
    split; [apply sweep_calls_swept|].
    intros it Hin. split; [apply sweep_calls_count; assumption|].
    unfold swept. simpl.
    apply (in_map (fun it => if fires type it then clear_item it else it)).
    exact Hin.
Qed.

Lemma process_event_fires_at_most_once_witness :
  registry_ok sample_with_handlers /\
  (calls 1 (trace_of (team_process_event two_port_messages sample_with_handlers))
   <= 1)%nat.
Proof.
  assert (Hok : registry_ok sample_with_handlers).
  { unfold registry_ok. vm_compute. constructor.
    - intros [H|[]]. discriminate.
    - constructor; [intros []|constructor]. }
  split; [exact Hok|].
  exact (proj1 (process_event_fires_at_most_once sample_with_handlers
                  two_port_messages Hok) 1%nat).
Defined.

Lemma mark_item_idem : forall type it,
  mark_item type (mark_item type it) = mark_item type it.
Proof.
  intros type it. unfold mark_item.
  destruct (type_matches type (handler it)) eqn:E; simpl; rewrite E; reflexivity.
Qed.

Lemma mark_item_class : forall C it,
  C <> TEAM_ALL_CHANGE ->
  handler (mark_item C it) = handler it /\
  call_this (mark_item C it)
  = if team_change_type_eqb (handler_type (handler it)) C then true
    else call_this it.
Proof.
  intros C it HC. split; [apply handler_mark_item|].
  unfold mark_item, type_matches.
  destruct C; try contradiction; simpl;
    destruct (handler_type (handler it)); reflexivity.
Qed.

Lemma port_refresh_same_ifindex : forall th th' uninit heap msg ports,
  ifindex th' = ifindex th ->
  port_refresh th uninit heap msg ports -> port_refresh th' uninit heap msg ports.
Proof.
  intros th th' uninit heap msg ports E [Hi H]. split; [congruence|exact H].
Qed.

(** A receive pass over port-list messages that all refresh: it returns in
    silence and, unless it was empty, leaves every PORT registration
    marked. *)
Lemma pump_of_port_refreshes : forall arrived th,
  cb_valid (th_nl_sock_event th) = ValidEvent ->
  Forall (refreshes_ports th) arrived ->
  exists th1,
    nl_recvmsgs_default EventSock arrived th = (Ret tt, th1, []) /\
    change_handler_list th1
    = match arrived with
      | [] => change_handler_list th
      | _ => map (mark_item TEAM_PORT_CHANGE) (change_handler_list th)
      end.
Proof.
  induction arrived as [|d rest IH]; intros th Hcb Hall.
  - exists th. split; reflexivity.
  - inversion Hall as [|d' rest' [msg [ports [Hitem [Hcmd Hr]]]] Hrest]; subst.
    assert (Hcall : nl_cb_call EventSock d th
                    = (Ret NL_SKIP, port_refreshed ports th, [])).
    { unfold nl_cb_call, bind, get. cbn [fst snd sock_of].
      rewrite Hitem, Hcb. unfold event_handler. rewrite Hcmd.
      rewrite (get_port_list_handler_refresh _ _ _ _ _ Hr). reflexivity. }
    destruct (IH (port_refreshed ports th)) as [th1 [Hrun Hl]].
    + exact Hcb.
    + eapply Forall_impl; [|exact Hrest].
      intros d0 [m0 [p0 [H1 [H2 H3]]]]. exists m0, p0.
      split; [exact H1|]. split; [exact H2|].
      eapply port_refresh_same_ifindex; [|exact H3]. reflexivity.
    + exists th1. split.
      * cbn [nl_recvmsgs_default]. unfold bind. rewrite Hcall.
        change (NL_SKIP =? NL_STOP) with false. cbv iota.
        rewrite Hrun. reflexivity.
      * rewrite Hl. unfold port_refreshed. simpl.
        destruct rest; [reflexivity|].
        rewrite map_map. apply map_ext. intros it. apply mark_item_idem.
Qed.

(** C1, as the code has it.  A completed refresh of class C marks every
    registration whose handler declares class C; the mark compares the
    declared class with C, so a registration of any other declared class
    keeps its flag.  When a receive pass of [team_process_event] drains
    port-list messages that refresh, the walk that follows calls every
    registered PORT handler exactly once. *)
Theorem refresh_marks_handlers_of_its_class :
  (forall th uninit heap msg ports,
     port_refresh th uninit heap msg ports ->
     change_handler_list (handle_of (get_port_list_handler uninit heap msg th))
     = map (mark_item TEAM_PORT_CHANGE) (change_handler_list th)) /\
  (forall th uninit heap msg t opts,
     option_refresh th uninit heap msg t opts ->
     change_handler_list (handle_of (get_options_handler uninit heap msg th))
     = map (mark_item TEAM_OPTION_CHANGE) (change_handler_list th)) /\
  (forall C it,
     C <> TEAM_ALL_CHANGE ->
     handler (mark_item C it) = handler it /\
     call_this (mark_item C it)
     = if team_change_type_eqb (handler_type (handler it)) C then true
       else call_this it) /\
  (forall th arrived it,
     cb_valid (th_nl_sock_event th) = ValidEvent ->
     registry_ok th ->
     arrived <> [] ->
     Forall (refreshes_ports th) arrived ->
     In it (change_handler_list th) ->
     handler_type (handler it) = TEAM_PORT_CHANGE ->
     calls (addr_of it) (trace_of (team_process_event arrived th)) = 1%nat).
Proof.
  split; [|split; [|split]].
  - intros th uninit heap msg ports H.
    rewrite (get_port_list_handler_refresh _ _ _ _ _ H). reflexivity.
  - intros th uninit heap msg t opts H.
    rewrite (get_options_handler_refresh _ _ _ _ _ _ H). reflexivity.
  - exact mark_item_class.
  - intros th arrived it Hcb Hok Hne Hall Hin Hty.
    destruct (pump_of_port_refreshes arrived th Hcb Hall) as [th1 [Hrun Hl]].
    rewrite run_team_process_event, Hrun. unfold trace_of. cbn [snd app].
    destruct arrived as [|d rest]; [contradiction|].
    assert (Hok1 : registry_ok th1).
    { unfold registry_ok, registry. rewrite Hl, map_addr_of_mark. exact Hok. }
    assert (Hin1 : In (mark_item TEAM_PORT_CHANGE it) (change_handler_list th1)).
    { rewrite Hl. apply in_map. exact Hin. }
    pose proof (sweep_calls_count TEAM_ALL_CHANGE th1 _ Hok1 Hin1) as Hc.
    rewrite addr_of_mark_item in Hc. rewrite Hc.
    unfold fires, mark_item, type_matches. rewrite Hty. reflexivity.
Qed.

Lemma refresh_marks_handlers_of_its_class_witness :
  calls 1 (trace_of (team_process_event two_port_messages sample_with_handlers))
  = 1%nat.
Proof.
  apply (proj2 (proj2 (proj2 refresh_marks_handlers_of_its_class))
           sample_with_handlers two_port_messages
           {| call_this := false; handler := port_handler 1 |}).
  - reflexivity.
  - unfold registry_ok. vm_compute. constructor.
    + intros [H|[]]. discriminate.
    + constructor; [intros []|constructor].
  - discriminate.
  - unfold two_port_messages. constructor; [|constructor; [|constructor]].
    + exists (port_list_msg 7 [port_entry 11 1000 1 true]), [sample_port_11].
      split; [reflexivity|]. split; [reflexivity|]. split; [reflexivity|].
      eexists. split; [reflexivity|]. split; [reflexivity|].
      apply heap_allows_nil.
    + exists sample_ports_msg, [sample_port_11; sample_port_12].
      split; [reflexivity|]. split; [reflexivity|]. split; [reflexivity|].
      eexists. split; [reflexivity|]. split; [reflexivity|].
      apply heap_allows_nil.
  - vm_compute. right. left. reflexivity.
  - reflexivity.
Defined.

(** C1 as stated fails: a port refresh completes on a handle that holds an
    ALL handler at address 2 and a PORT handler at address 1; the ALL
    registration is not marked, and the pump that drains two port-list
    messages calls the PORT handler only. *)
Lemma all_class_handler_left_unmarked :
  port_list (handle_of (get_port_list_handler 0 [] sample_ports_msg
                          sample_with_handlers))
  = [sample_port_11; sample_port_12] /\
  change_handler_list (handle_of (get_port_list_handler 0 [] sample_ports_msg
                                    sample_with_handlers))
  = [ {| call_this := false; handler := all_handler 2 |};
      {| call_this := true; handler := port_handler 1 |} ] /\
  called (trace_of (team_process_event two_port_messages sample_with_handlers))
  = [1%nat].
Proof. vm_compute. repeat split; reflexivity. Qed.

(** ** Messages the decoders do not take *)

Lemma get_port_list_handler_other_team : forall th uninit heap msg,
  team_ifindex_of uninit msg <> ifindex th ->
  get_port_list_handler uninit heap msg th = (Ret NL_SKIP, th, []).
Proof.
  intros th uninit heap msg H. unfold get_port_list_handler, bind, get.
  cbn [fst snd]. unfold team_ifindex_of in H. apply Z.eqb_neq in H.
  rewrite H. reflexivity.
Qed.

Lemma get_options_handler_other_team : forall th uninit heap msg,
  team_ifindex_of uninit msg <> ifindex th ->
  get_options_handler uninit heap msg th = (Ret NL_SKIP, th, []).
Proof.
  intros th uninit heap msg H. unfold get_options_handler, bind, get.
  cbn [fst snd]. unfold team_ifindex_of in H. apply Z.eqb_neq in H.
  rewrite H. reflexivity.
Qed.

Lemma nothing_pending_sweep : forall type th,
  (forall it, In it (change_handler_list th) -> call_this it = false) ->
  swept type th = th /\ sweep_calls type th = [].
Proof.
  intros type th H. unfold swept, sweep_calls.
  assert (Hl : map (fun it => if fires type it then clear_item it else it)
                 (change_handler_list th) = change_handler_list th
               /\ filter (fires type) (change_handler_list th) = []).
  { induction (change_handler_list th) as [|it l IH]; simpl; [auto|].
    assert (Hf : fires type it = false).
    { unfold fires. rewrite (H it) by (left; reflexivity). apply andb_false_r. }
    rewrite Hf. destruct IH as [IH1 IH2].
    - intros x Hx. apply H. right. exact Hx.
    - rewrite IH1, IH2. auto. }
  destruct Hl as [-> ->]. split; [apply set_change_handler_list_same|reflexivity].
Qed.

(** C4.  A port-list or option-list message whose team-ifindex attribute
    differs from the ifindex the handle is bound to is skipped without a
    word: each decoder returns [NL_SKIP] and leaves the whole handle, both
    cached lists and every pending flag included, as it found it.  A
    [team_process_event] that drains such a message does what the walk
    alone does, and with nothing pending it calls no handler. *)
Theorem cross_ifindex_message_skipped : forall th uninit heap msg a,
  TEAM_ATTR_TEAM_IFINDEX msg = Some a ->
  nla_get_u32 a <> ifindex th ->
  get_port_list_handler uninit heap msg th = (Ret NL_SKIP, th, []) /\
  get_options_handler uninit heap msg th = (Ret NL_SKIP, th, []) /\
  (forall d,
     item d = ItemValid msg ->
     team_process_event [d] th
     = check_call_change_handlers TEAM_ALL_CHANGE th /\
     ((forall it, In it (change_handler_list th) -> call_this it = false) ->
      team_process_event [d] th = (Ret tt, th, []))).
Proof.
  intros th uninit heap msg a Ha Hne.
  assert (Hi : forall u, team_ifindex_of u msg <> ifindex th).
  { intros u. unfold team_ifindex_of. rewrite Ha. exact Hne. }
  split; [apply get_port_list_handler_other_team; apply Hi|].
  split; [apply get_options_handler_other_team; apply Hi|].
  intros d Hd.
  assert (Hrun : nl_recvmsgs_default EventSock [d] th = (Ret tt, th, [])).
  { cbn [nl_recvmsgs_default]. unfold bind at 1, nl_cb_call, bind, get.
    cbn [fst snd]. rewrite Hd.
    destruct (cb_valid (sock_of EventSock th)).
    - reflexivity.
    - rewrite get_port_list_handler_other_team by apply Hi. reflexivity.
    - rewrite get_options_handler_other_team by apply Hi. reflexivity.
    - unfold event_handler. destruct (genl_cmd msg); try reflexivity.
      + rewrite get_options_handler_other_team by apply Hi. reflexivity.
      + rewrite get_port_list_handler_other_team by apply Hi. reflexivity. }
  split.
  - rewrite run_team_process_event, Hrun, run_check_call_change_handlers.
    reflexivity.
  - intros Hnone. rewrite run_team_process_event, Hrun.
    destruct (nothing_pending_sweep TEAM_ALL_CHANGE th Hnone) as [-> ->].
    reflexivity.
Qed.

Lemma cross_ifindex_message_skipped_witness :
  get_port_list_handler 0 [] ports_msg_of_team_99 sample_with_handlers
  = (Ret NL_SKIP, sample_with_handlers, []) /\
  team_process_event [deliver (ItemValid ports_msg_of_team_99)]
    sample_with_handlers
  = (Ret tt, sample_with_handlers, []).
Proof.
  assert (Ha : TEAM_ATTR_TEAM_IFINDEX ports_msg_of_team_99 = Some (u32_attr 99))
    by reflexivity.
  assert (Hne : nla_get_u32 (u32_attr 99) <> ifindex sample_with_handlers)
    by (vm_compute; discriminate).
  destruct (cross_ifindex_message_skipped sample_with_handlers 0 []
              ports_msg_of_team_99 (u32_attr 99) Ha Hne) as [Hp [_ Hev]].
  split; [exact Hp|].
  apply (Hev (deliver (ItemValid ports_msg_of_team_99))); [reflexivity|].
  vm_compute. intros it [<-|[<-|[]]]; reflexivity.
Defined.

(** C10.  When the port-list loop meets an entry it cannot take (the nested
    attributes fail to parse, the port-ifindex attribute is missing, or no
    port record can be allocated), the handler returns [NL_SKIP] with the
    handle exactly as it found it: the previous port list stays and no
    registration is marked.  The port list is replaced only by a message
    every entry of which was taken, and then by the ports of all of them. *)
Theorem port_decoder_abort_keeps_snapshot : forall th uninit heap msg,
  (forall nested,
     TEAM_ATTR_LIST_PORT msg = Some nested ->
     (exists e, In e nested /\ entry_port e = None) \/
     (exists k, (k < List.length nested)%nat /\ nth k heap true = false) ->
     result_of (get_port_list_handler uninit heap msg th) = Ret NL_SKIP /\
     handle_of (get_port_list_handler uninit heap msg th) = th) /\
  (handle_of (get_port_list_handler uninit heap msg th) = th \/
   exists ports,
     port_refresh th uninit heap msg ports /\
     handle_of (get_port_list_handler uninit heap msg th)
     = port_refreshed ports th).
Proof.
  intros th uninit heap msg.
  destruct (get_port_list_handler_cases th uninit heap msg)
    as [[ports [Hr H]]|[Hno [t [H _]]]]; rewrite H;
    unfold result_of, handle_of; cbn [fst snd].
  - split; [|right; exists ports; auto].
    intros nested Hl Hbad. exfalso.
    destruct Hr as [_ [nested' [Hl' [Hm Hh]]]]. rewrite Hl in Hl'.
    inversion Hl'; subst nested'.
    destruct Hbad as [[e [Hin He]]|[k [Hk Hn]]].
    + eapply map_Some_no_None; eauto.
    + rewrite Hh in Hn by exact Hk. discriminate.
  - split; [|left; reflexivity]. intros nested _ _. auto.
Qed.

Lemma port_decoder_abort_keeps_snapshot_witness :
  handle_of (get_port_list_handler 0 [] ports_msg_missing_ifindex
               sample_with_handlers)
  = sample_with_handlers.
Proof.
  apply (proj1 (port_decoder_abort_keeps_snapshot sample_with_handlers 0 []
                  ports_msg_missing_ifindex)
           [port_entry_no_ifindex; port_entry 13 1000 1 true]).
  - reflexivity.
  - left. exists port_entry_no_ifindex. split; [left; reflexivity|reflexivity].
Defined.

Lemma forallb_wellformed_false : forall nested heap tmp_list t l,
  forallb wellformed nested = false ->
  options_loop heap nested tmp_list <> (t, Completed l).
Proof.
  intros nested heap tmp_list t l Hw H. apply options_loop_completed in H.
  destruct H as [H _]. congruence.
Qed.

(** C3, as the code has it.  For a message of the handle's own team:
    - an option entry whose name is already in the list being built, or
      whose netlink type is neither U32 nor STRING, is left out with one
      printed line, the loop goes on, and when every entry is readable and
      the allocator answers, the options taken replace the old list in its
      entirety;
    - an option or port entry that does not parse or lacks a required
      attribute ends the decoding of the whole message, and the handle stays
      exactly as it was: nothing is replaced, nothing is marked;
    - a port-list message every entry of which is taken replaces the old
      port list with the ports of all entries.
    A message of another team is skipped whole and in silence. *)
Theorem decoder_anomalies : forall th uninit heap msg,
  (team_ifindex_of uninit msg <> ifindex th ->
   get_port_list_handler uninit heap msg th = (Ret NL_SKIP, th, []) /\
   get_options_handler uninit heap msg th = (Ret NL_SKIP, th, [])) /\
  (forall nested,
     team_ifindex_of uninit msg = ifindex th ->
     TEAM_ATTR_LIST_OPTION msg = Some nested ->
     forallb wellformed nested = true ->
     heap_allows (3 * List.length nested) heap ->
     exists t,
       get_options_handler uninit heap msg th
       = (Ret NL_SKIP,
          options_refreshed (first_of_each_name (candidates nested)) th, t) /\
       option_list (handle_of (get_options_handler uninit heap msg th))
       = first_of_each_name (candidates nested) /\
       Forall is_printf t /\
       (List.length t + List.length (first_of_each_name (candidates nested))
        = List.length nested)%nat) /\
  (forall nested,
     TEAM_ATTR_LIST_OPTION msg = Some nested ->
     forallb wellformed nested = false ->
     handle_of (get_options_handler uninit heap msg th) = th) /\
  (forall nested,
     TEAM_ATTR_LIST_PORT msg = Some nested ->
     (exists e, In e nested /\ entry_port e = None) ->
     handle_of (get_port_list_handler uninit heap msg th) = th) /\
  (forall ports,
     port_refresh th uninit heap msg ports ->
     get_port_list_handler uninit heap msg th
     = (Ret NL_SKIP, port_refreshed ports th, []) /\
     port_list (handle_of (get_port_list_handler uninit heap msg th)) = ports).
Proof.
  intros th uninit heap msg. split; [|split; [|split; [|split]]].
  - intros H. split.
    + apply get_port_list_handler_other_team. exact H.
    + apply get_options_handler_other_team. exact H.
  - intros nested Hi Hl Hw Hh.
    destruct (options_loop_complete nested heap [] Hw Hh) as [t Ht].
    rewrite accept_from_nil in Ht.
    assert (Hr : option_refresh th uninit heap msg t
                   (first_of_each_name (candidates nested))).
    { split; [exact Hi|]. exists nested. auto. }
    exists t. rewrite (get_options_handler_refresh _ _ _ _ _ _ Hr).
    split; [reflexivity|]. split; [reflexivity|].
    apply options_loop_completed in Ht. destruct Ht as [_ [_ [Hp Hn]]].
    split; [exact Hp|]. simpl in Hn. exact Hn.
  - intros nested Hl Hw.
    destruct (get_options_handler_cases th uninit heap msg)
      as [[t [opts [[_ [nested' [Hl' Hloop]]] _]]]|[_ [o [t [H _]]]]].
    + exfalso. rewrite Hl in Hl'. inversion Hl'; subst nested'.
      eapply forallb_wellformed_false; eauto.
    + rewrite H. reflexivity.
  - intros nested Hl [e [Hin He]].
    destruct (get_port_list_handler_cases th uninit heap msg)
      as [[ports [[_ [nested' [Hl' [Hm _]]]] _]]|[_ [t [H _]]]].
    + exfalso. rewrite Hl in Hl'. inversion Hl'; subst nested'.
      eapply map_Some_no_None; eauto.
    + rewrite H. reflexivity.
  - intros ports Hr. rewrite (get_port_list_handler_refresh _ _ _ _ _ Hr).
    split; reflexivity.
Qed.

Lemma decoder_anomalies_witness :
  handle_of (get_options_handler 0 [] options_msg_missing_type sample_with_handlers)
  = sample_with_handlers /\
  handle_of (get_port_list_handler 0 [] ports_msg_missing_ifindex
               sample_with_handlers)
  = sample_with_handlers /\
  get_port_list_handler 0 [] ports_msg_of_team_99 sample_with_handlers
  = (Ret NL_SKIP, sample_with_handlers, []).
Proof.
  destruct (decoder_anomalies sample_with_handlers 0 [] options_msg_missing_type)
    as [_ [_ [Ho _]]].
  destruct (decoder_anomalies sample_with_handlers 0 [] ports_msg_missing_ifindex)
    as [_ [_ [_ [Hp _]]]].
  destruct (decoder_anomalies sample_with_handlers 0 [] ports_msg_of_team_99)
    as [Hx _].
  split; [|split].
  - apply (Ho [option_entry_no_type "activeport";
               option_entry "mode" NLA_STRING (string_attr "roundrobin")]);
      reflexivity.
  - apply (Hp [port_entry_no_ifindex; port_entry 13 1000 1 true]);
      [reflexivity|].
    exists port_entry_no_ifindex. split; [left; reflexivity|reflexivity].
  - apply Hx. vm_compute. discriminate.
Defined.

(** C3 as stated fails.  The second entry of the port-list message
    describes port 13 and the first lacks the port ifindex: the handler
    prints one line and returns, and the cached list still holds ports 11
    and 12, not port 13.  The second entry of the option-list message sets
    [mode] to [roundrobin] and the first lacks its type: the handler returns
    without a line printed and [mode] still reads [activebackup]. *)
Lemma missing_attribute_aborts_refresh :
  entry_port (port_entry 13 1000 1 true) = Some sample_port_13 /\
  get_port_list_handler 0 [] ports_msg_missing_ifindex sample_handle
  = (Ret NL_SKIP, sample_handle, [Printf LogPortIfindexNotFound]) /\
  port_list sample_handle = [sample_port_11; sample_port_12] /\
  get_options_handler 0 [] options_msg_missing_type sample_handle
  = (Ret NL_SKIP, sample_handle, []) /\
  team_get_option_by_name sample_handle "mode"
  = Some {| option_type := TEAM_OPTION_TYPE_STRING; option_changed := false;
            option_name := "mode";
            option_data_of := DataString "activebackup" |}.
Proof. vm_compute. repeat split; reflexivity. Qed.

(** ** Duplicate option names *)

Lemma has_name_cons : forall o l name,
  has_name (o :: l) name = String.eqb (option_name o) name || has_name l name.
Proof. intros. rewrite !has_name_existsb. reflexivity. Qed.

(** An entry whose name an earlier taken entry carries is left out with the
    line that names it. *)
Lemma options_loop_dup_warned : forall pre heap tmp_list t l a post name,
  options_loop heap (pre ++ Some a :: post) tmp_list = (t, Completed l) ->
  entry_name a = Some name ->
  has_name tmp_list name || has_name (candidates pre) name = true ->
  In (Printf (LogOptionAlreadyInList name)) t.
Proof.
  induction pre as [|e pre IH]; intros heap tmp_list t l a post name H En Hh.
  - cbn [app] in H. rewrite options_loop_step, En in H.
    destruct (wellformed (Some a)); [|discriminate].
    cbn [candidates flat_map has_name __find_option find present] in Hh.
    rewrite orb_false_r in Hh. rewrite Hh in H.
    apply logged_completed in H. destruct H as [t' [-> _]]. left. reflexivity.
  - destruct e as [b|]; [|cbn in H; discriminate].
    cbn [app] in H. rewrite options_loop_step in H.
    destruct (entry_name b) as [nb|] eqn:Enb; [|discriminate].
    destruct (wellformed (Some b)); [|discriminate].
    rewrite candidates_cons_some in Hh.
    destruct (has_name tmp_list nb) eqn:Eh.
    + apply logged_completed in H. destruct H as [t' [-> H]].
      right. eapply IH; [exact H|exact En|].
      destruct (option_of_entry b) as [o|] eqn:Eo; [|exact Hh].
      apply option_of_entry_name in Eo. rewrite Enb in Eo. inversion Eo; subst nb.
      rewrite has_name_cons in Hh.
      destruct (String.eqb_spec (option_name o) name) as [E|E].
      * rewrite <- E, Eh. reflexivity.
      * exact Hh.
    + destruct (option_of_entry b) as [o|] eqn:Eo.
      * destruct (create_option_cases heap (option_name o) (option_type o)
                    (option_data_of o) (option_changed o))
          as [[_ [_ [_ Hc]]]|[_ [heap' Hc]]]; rewrite Hc in H; [|discriminate].
        rewrite team_option_eta in H.
        eapply IH; [exact H|exact En|].
        unfold list_add_tail. rewrite has_name_app, has_name_cons.
        rewrite has_name_cons in Hh.
        replace (has_name [] name) with false by reflexivity.
        rewrite orb_false_r, <- orb_assoc. exact Hh.
      * apply logged_completed in H. destruct H as [t' [-> H]].
        right. eapply IH; [exact H|exact En|exact Hh].
Qed.

Lemma names_unique_get_options_handler : forall th uninit heap msg,
  names_unique th ->
  names_unique (handle_of (get_options_handler uninit heap msg th)).
Proof.
  intros th uninit heap msg.
  apply (stable_get_options_handler (keeps names_unique)); names_unique_side.
Qed.

(** C5, as the code has it.  The options of a handle carry pairwise
    different names: on every handle built through [team_alloc] and the
    public calls, and across every option-list message.  When a refresh runs
    to its end, the list it installs holds each name once; the option it
    holds for a name is the one described by the first entry of that name
    whose netlink type is U32 or STRING; and every entry that comes after
    such an entry of the same name is left out with the warning that names
    it. *)
Theorem option_names_unique :
  (forall th, reachable th -> names_unique th) /\
  (forall th uninit heap msg,
     names_unique th ->
     names_unique (handle_of (get_options_handler uninit heap msg th))) /\
  (forall heap nested t opts,
     options_loop heap nested [] = (t, Completed opts) ->
     NoDup (option_names opts) /\
     opts = first_of_each_name (candidates nested) /\
     (forall name, __find_option opts name = __find_option (candidates nested) name) /\
     (forall pre a post name,
        nested = pre ++ Some a :: post ->
        entry_name a = Some name ->
        has_name (candidates pre) name = true ->
        In (Printf (LogOptionAlreadyInList name)) t)).
Proof.
  split; [exact reachable_names_unique|].
  split; [exact names_unique_get_options_handler|].
  intros heap nested t opts H.
  split; [eapply options_loop_NoDup; exact H|].
  pose proof (options_loop_completed _ _ _ _ _ H) as [_ [Ho _]].
  rewrite accept_from_nil in Ho. split; [exact Ho|]. split.
  - intros name. rewrite Ho. apply find_option_first_of_each_name.
  - intros pre a post name -> En Hh.
    eapply options_loop_dup_warned; [exact H|exact En|].
    rewrite Hh. apply orb_true_r.
Qed.

Lemma option_names_unique_witness :
  names_unique sample_handle /\
  In (Printf (LogOptionAlreadyInList "mode"))
     [Printf (LogOptionAlreadyInList "mode")].
Proof.
  destruct option_names_unique as [Hreach [_ Hloop]].
  split.
  - apply Hreach.
    assert (E : handle_of (run_call (CallInit sample_init_env 7) fresh_handle)
                = sample_handle) by (vm_compute; reflexivity).
    rewrite <- E. apply reachable_call.
    + apply (reachable_alloc sample_alloc_env). vm_compute. reflexivity.
    + vm_compute. reflexivity.
  - assert (Hrun : options_loop []
                [option_entry "mode" NLA_STRING (string_attr "roundrobin");
                 option_entry "mode" NLA_STRING (string_attr "activebackup")]
                []
              = ([Printf (LogOptionAlreadyInList "mode")],
                 Completed
                   [ {| option_type := TEAM_OPTION_TYPE_STRING;
                        option_changed := false; option_name := "mode";
                        option_data_of := DataString "roundrobin" |} ]))
      by (vm_compute; reflexivity).
    destruct (Hloop _ _ _ _ Hrun) as [_ [_ [_ Hw]]].
    apply (Hw [option_entry "mode" NLA_STRING (string_attr "roundrobin")]
              {| TEAM_ATTR_OPTION_NAME := Some (string_attr "mode");
                 TEAM_ATTR_OPTION_CHANGED := None;
                 TEAM_ATTR_OPTION_TYPE := Some (u32_attr NLA_STRING);
                 TEAM_ATTR_OPTION_DATA := Some (string_attr "activebackup") |}
              [] "mode"%string);
      vm_compute; reflexivity.
Defined.

(** C5 as stated fails on which entry is kept.  Of two entries named
    [mode] the first has a type the decoder does not know: it is the first
    that is left out, with the unknown-type line, and the second that is
    kept; no duplicate warning is printed. *)
Lemma first_entry_of_unknown_type_not_kept :
  get_options_handler 0 [] options_msg_unknown_then_known sample_handle
  = (Ret NL_SKIP,
     options_refreshed
       [ {| option_type := TEAM_OPTION_TYPE_STRING; option_changed := false;
            option_name := "mode";
            option_data_of := DataString "roundrobin" |} ]
       sample_handle,
     [Printf LogUnknownNlaType]).
Proof. vm_compute. reflexivity. Qed.

(** ** Initialisation *)

Lemma run_bind_get : forall A (k : team_handle -> M A) th,
  bind get k th = k th th.
Proof.
  intros A k th. unfold bind, get.
  destruct (k th th) as [[o th2] t2]. reflexivity.
Qed.

Lemma run_bind_modify : forall A f (k : unit -> M A) th,
  bind (modify f) k th = k tt (f th).
Proof.
  intros A f k th. unfold bind, modify.
  destruct (k tt (f th)) as [[o th2] t2]. reflexivity.
Qed.

(** [team_init] once its first five steps have succeeded: what is left is
    the two refreshes. *)
Lemma run_team_init_refreshes : forall w i th,
  i <> 0 -> connected w -> resolved w -> subscribed w ->
  team_init w i th =
  (err1 <- get_port_list (port_list_exchange w) ;;
   if negb (err1 =? 0) then printf LogGetPortList ;; ret (- EINVAL) else
   err2 <- get_options (options_exchange w) ;;
   if negb (err2 =? 0) then printf LogGetOptions ;; ret (- EINVAL) else
   ret 0) (init_setup w i th).
Proof.
  intros w i th Hi [Hc1 Hc2] [Hr1 Hr2] Hs. unfold team_init.
  apply Z.eqb_neq in Hi. rewrite Hi, Hc1, Hc2. cbn [Z.eqb negb].
  apply Z.ltb_ge in Hr1, Hr2, Hs. rewrite Hr1. cbv zeta. rewrite Hr2, Hs.
  rewrite !run_bind_modify. reflexivity.
Qed.

(** C6.  [team_init] returns the negative errno of the first step that
    fails: [-ENOENT] for ifindex 0, [-ENOTSUP] when either [genl_connect]
    fails, [-ENOENT] when the family or the multicast group does not
    resolve, [-EINVAL] when the membership cannot be added, [-EINVAL] when
    the port-list or the option refresh returns an error; and 0 when every
    step succeeds. *)
Theorem team_init_errno : forall w i th,
  (i = 0 -> result_of (team_init w i th) = Ret (- ENOENT)) /\
  (i <> 0 -> genl_connect_result w <> 0 ->
   result_of (team_init w i th) = Ret (- ENOTSUP)) /\
  (i <> 0 -> genl_connect_result w = 0 -> genl_connect_event_result w <> 0 ->
   result_of (team_init w i th) = Ret (- ENOTSUP)) /\
  (i <> 0 -> connected w -> genl_ctrl_resolve_result w < 0 ->
   result_of (team_init w i th) = Ret (- ENOENT)) /\
  (i <> 0 -> connected w -> 0 <= genl_ctrl_resolve_result w ->
   genl_ctrl_resolve_grp_result w < 0 ->
   result_of (team_init w i th) = Ret (- ENOENT)) /\
  (i <> 0 -> connected w -> resolved w ->
   nl_socket_add_membership_result w < 0 ->
   result_of (team_init w i th) = Ret (- EINVAL)) /\
  (i <> 0 -> connected w -> resolved w -> subscribed w ->
   forall err,
     result_of (init_ports_done w i th) = Ret err -> err <> 0 ->
     result_of (team_init w i th) = Ret (- EINVAL)) /\
  (i <> 0 -> connected w -> resolved w -> subscribed w ->
   result_of (init_ports_done w i th) = Ret 0 ->
   forall err,
     result_of (init_options_done w i th) = Ret err -> err <> 0 ->
     result_of (team_init w i th) = Ret (- EINVAL)) /\
  (i <> 0 -> connected w -> resolved w -> subscribed w ->
   result_of (init_ports_done w i th) = Ret 0 ->
   result_of (init_options_done w i th) = Ret 0 ->
   result_of (team_init w i th) = Ret 0).
Proof.
  intros w i th.
  repeat match goal with |- _ /\ _ => split end.
  - intros ->. reflexivity.
  - intros Hi Hc. unfold team_init. apply Z.eqb_neq in Hi, Hc.
    rewrite Hi, Hc. reflexivity.
  - intros Hi Hc1 Hc2. unfold team_init. apply Z.eqb_neq in Hi, Hc2.
    rewrite Hi, Hc1, Hc2. reflexivity.
  - intros Hi [Hc1 Hc2] Hr. unfold team_init. apply Z.eqb_neq in Hi.
    apply Z.ltb_lt in Hr. rewrite Hi, Hc1, Hc2, Hr. reflexivity.
  - intros Hi [Hc1 Hc2] Hr1 Hr2. unfold team_init. apply Z.eqb_neq in Hi.
    apply Z.ltb_ge in Hr1. apply Z.ltb_lt in Hr2.
    rewrite Hi, Hc1, Hc2, Hr1. cbv zeta. rewrite Hr2. reflexivity.
  - intros Hi [Hc1 Hc2] [Hr1 Hr2] Hs. unfold team_init. apply Z.eqb_neq in Hi.
    apply Z.ltb_ge in Hr1, Hr2. apply Z.ltb_lt in Hs.
    rewrite Hi, Hc1, Hc2, Hr1. cbv zeta. rewrite Hr2, Hs. reflexivity.
  - intros Hi Hc Hr Hs err Hp Herr.
    rewrite run_team_init_refreshes by assumption.
    unfold init_ports_done in Hp. unfold bind at 1.
    destruct (get_port_list (port_list_exchange w) (init_setup w i th))
      as [[o th1] t1]. unfold result_of in Hp. cbn [fst] in Hp. subst o.
    apply Z.eqb_neq in Herr. rewrite Herr. reflexivity.
  - intros Hi Hc Hr Hs Hp err Ho Herr.
    rewrite run_team_init_refreshes by assumption.
    unfold init_options_done, init_ports_done in *. unfold bind at 1.
    destruct (get_port_list (port_list_exchange w) (init_setup w i th))
      as [[o th1] t1]. unfold result_of, handle_of in *. cbn [fst snd] in *.
    subst o. cbn [Z.eqb negb]. unfold bind at 1.
    destruct (get_options (options_exchange w) th1) as [[o2 th2] t2].
    cbn [fst] in Ho. subst o2.
    apply Z.eqb_neq in Herr. rewrite Herr. reflexivity.
  - intros Hi Hc Hr Hs Hp Ho.
    rewrite run_team_init_refreshes by assumption.
    unfold init_options_done, init_ports_done in *. unfold bind at 1.
    destruct (get_port_list (port_list_exchange w) (init_setup w i th))
      as [[o th1] t1]. unfold result_of, handle_of in *. cbn [fst snd] in *.
    subst o. cbn [Z.eqb negb]. unfold bind at 1.
    destruct (get_options (options_exchange w) th1) as [[o2 th2] t2].
    cbn [fst] in Ho. subst o2. reflexivity.
Qed.

Lemma team_init_errno_witness :
  result_of (team_init sample_init_env 0 fresh_handle) = Ret (- ENOENT) /\
  result_of (team_init init_env_connect_fails 7 fresh_handle) = Ret (- ENOTSUP) /\
  result_of (team_init init_env_resolve_fails 7 fresh_handle) = Ret (- ENOENT) /\
  result_of (team_init init_env_membership_fails 7 fresh_handle) = Ret (- EINVAL) /\
  result_of (team_init init_env_refresh_fails 7 fresh_handle) = Ret (- EINVAL) /\
  result_of (team_init sample_init_env 7 fresh_handle) = Ret 0.
Proof.
  assert (H7 : 7 <> 0) by discriminate.
  split; [|split; [|split; [|split; [|split]]]].
  - apply (proj1 (team_init_errno sample_init_env 0 fresh_handle)). reflexivity.
  - destruct (team_init_errno init_env_connect_fails 7 fresh_handle)
      as [_ [H _]].
    apply H; [exact H7|]. vm_compute. discriminate.
  - destruct (team_init_errno init_env_resolve_fails 7 fresh_handle)
      as [_ [_ [_ [H _]]]].
    apply H; [exact H7| |]; vm_compute; auto.
  - destruct (team_init_errno init_env_membership_fails 7 fresh_handle)
      as [_ [_ [_ [_ [_ [H _]]]]]].
    apply H; [exact H7| | |]; vm_compute; auto; split; discriminate.
  - destruct (team_init_errno init_env_refresh_fails 7 fresh_handle)
      as [_ [_ [_ [_ [_ [_ [H _]]]]]]].
    apply (H H7) with (err := -19).
    + vm_compute. auto.
    + vm_compute. split; discriminate.
    + vm_compute. discriminate.
    + vm_compute. reflexivity.
    + discriminate.
  - destruct (team_init_errno sample_init_env 7 fresh_handle)
      as [_ [_ [_ [_ [_ [_ [_ [_ H]]]]]]]].
    apply (H H7).
    + vm_compute. auto.
    + vm_compute. split; discriminate.
    + vm_compute. discriminate.
    + vm_compute. reflexivity.
    + vm_compute. reflexivity.
Defined.

(** ** The order of the registry *)

Lemma subseq_map_filter : forall (f : change_handler_item -> bool) l,
  subseq (map addr_of (filter f l)) (map addr_of l).
Proof.
  intros f l. induction l as [|it l IH]; simpl; [constructor|].
  destruct (f it); simpl; constructor; exact IH.
Qed.

Lemma subseq_filter : forall A (p : A -> bool) s l,
  subseq s l -> subseq (filter p s) (filter p l).
Proof.
  intros A p s l H. induction H as [|x s l H IH|x s l H IH]; simpl.
  - constructor.
  - destruct (p x); [constructor|]; exact IH.
  - destruct (p x); [constructor|]; exact IH.
Qed.

Lemma subseq_nil_inv : forall A (s : list A), subseq s [] -> s = [].
Proof. intros A s H. inversion H. reflexivity. Qed.

(** A piece of [[b; a]] that holds both is the whole. *)
Lemma subseq_pair : forall (a b : nat) s,
  a <> b -> subseq s [b; a] -> In a s -> In b s -> s = [b; a].
Proof.
  intros a b s Hne H Ha Hb.
  inversion H as [|x s1 l1 H1|x s1 l1 H1]; subst.
  - exfalso. inversion H1 as [|y s2 l2 H2|y s2 l2 H2]; subst.
    + apply subseq_nil_inv in H2. subst. contradiction.
    + apply subseq_nil_inv in H2. subst.
      destruct Hb as [E|[]]. apply Hne. exact E.
  - inversion H1 as [|y s2 l2 H2|y s2 l2 H2]; subst.
    + apply subseq_nil_inv in H2. subst. exfalso.
      destruct Ha as [E|[]]. apply Hne. symmetry. exact E.
    + apply subseq_nil_inv in H2. subst. reflexivity.
Qed.

Lemma filter_eq_cons : forall A (p : A -> bool) l x r,
  filter p l = x :: r ->
  exists u l', l = u ++ x :: l' /\ filter p l' = r.
Proof.
  intros A p l. induction l as [|y l IH]; simpl; intros x r H; [discriminate|].
  destruct (p y).
  - inversion H; subst. exists [], l. auto.
  - destruct (IH x r H) as [u [l' [-> Hr]]]. exists (y :: u), l'. auto.
Qed.

(** When the registry holds [b] before [a], a walk that calls both calls
    [b] first. *)
Lemma sweep_order : forall a b type th,
  a <> b ->
  registered_after a b th ->
  In a (called (sweep_calls type th)) ->
  In b (called (sweep_calls type th)) ->
  exists u v w, called (sweep_calls type th) = u ++ b :: v ++ a :: w.
Proof.
  intros a b type th Hne Hreg Ha Hb. unfold sweep_calls in *.
  rewrite called_map_call_of in *.
  set (M := map addr_of (filter (fires type) (change_handler_list th))) in *.
  assert (Hsub : subseq (filter (is_either a b) M) [b; a]).
  { unfold registered_after, registry in Hreg. rewrite <- Hreg.
    apply subseq_filter. apply subseq_map_filter. }
  assert (HM : filter (is_either a b) M = [b; a]).
  { apply subseq_pair; [exact Hne|exact Hsub| |].
    - apply filter_In. split; [exact Ha|]. unfold is_either.
      rewrite Nat.eqb_refl. reflexivity.
    - apply filter_In. split; [exact Hb|]. unfold is_either.
      rewrite Nat.eqb_refl. apply orb_true_r. }
  destruct (filter_eq_cons _ _ _ _ _ HM) as [u [l' [-> Hl']]].
  destruct (filter_eq_cons _ _ _ _ _ Hl') as [v [w [-> _]]].
  exists u, v, w. reflexivity.
Qed.

Lemma filter_cons_if : forall A (p : A -> bool) x l,
  filter p (x :: l) = if p x then x :: filter p l else filter p l.
Proof. reflexivity. Qed.

Lemma filter_either_single : forall a b l,
  NoDup l -> In a l -> ~ In b l -> filter (is_either a b) l = [a].
Proof.
  intros a b l Hnd Ha Hb. induction l as [|x l IH]; [contradiction|].
  inversion Hnd as [|y ys Hx Hnd']; subst. simpl. unfold is_either at 1.
  destruct (Nat.eqb_spec x b) as [Eb|Eb].
  { exfalso. apply Hb. left. exact Eb. }
  rewrite orb_false_r.
  destruct (Nat.eqb_spec x a) as [Ea|Ea].
  - subst x. f_equal.
    assert (Hnone : forall z, In z l -> is_either a b z = false).
    { intros z Hz. unfold is_either.
      destruct (Nat.eqb_spec z a) as [->|_]; [contradiction|].
      destruct (Nat.eqb_spec z b) as [->|_]; [|reflexivity].
      exfalso. apply Hb. right. exact Hz. }
    clear - Hnone. induction l as [|z l IH]; [reflexivity|]. simpl.
    rewrite Hnone by (left; reflexivity). apply IH.
    intros y Hy. apply Hnone. right. exact Hy.
  - apply IH; [exact Hnd'| |].
    + destruct Ha as [C|Ha]; [contradiction|exact Ha].
    + intros C. apply Hb. right. exact C.
Qed.

(** Registering [b] on a handle that holds [a] puts [b] before [a]. *)
Lemma registered_after_register : forall th a b,
  registry_ok th -> registered a th -> ~ registered b th ->
  registered_after (handler_addr a) (handler_addr b)
    (handle_of (team_change_handler_register true b th)).
Proof.
  intros th a b Hok Ha Hb. rewrite run_team_change_handler_register.
  apply find_change_handler_None in Hb as Hf. rewrite Hf. cbn [present negb].
  unfold handle_of, registered_after, registry. cbn [fst snd].
  change (filter (is_either (handler_addr a) (handler_addr b))
            (handler_addr b :: map addr_of (change_handler_list th))
          = [handler_addr b; handler_addr a]).
  rewrite filter_cons_if.
  assert (Hb' : is_either (handler_addr a) (handler_addr b) (handler_addr b) = true).
  { unfold is_either. rewrite Nat.eqb_refl. apply orb_true_r. }
  rewrite Hb'. f_equal. apply filter_either_single; assumption.
Qed.

Lemma registered_after_In : forall a b th,
  registered_after a b th -> In a (registry th) /\ In b (registry th).
Proof.
  intros a b th H. unfold registered_after in H. split.
  - assert (Hin : In a (filter (is_either a b) (registry th)))
      by (rewrite H; right; left; reflexivity).
    apply filter_In in Hin. tauto.
  - assert (Hin : In b (filter (is_either a b) (registry th)))
      by (rewrite H; left; reflexivity).
    apply filter_In in Hin. tauto.
Qed.

Lemma same_registry_keeps_after : forall a b th th',
  same_registry th th' -> keeps (registered_after a b) th th'.
Proof.
  intros a b th th' H Hreg. unfold registered_after in *. rewrite H. exact Hreg.
Qed.

Ltac registered_after_side a b :=
  first [ exact (keeps_refl (registered_after a b))
        | exact (keeps_trans (registered_after a b))
        | intros; apply same_registry_keeps_after;
          first [ apply same_registry_port_refreshed
                | apply same_registry_options_refreshed
                | apply same_registry_swept
                | reflexivity ] ].

(** No call but the unregistration of one of the two changes which of them
    the registry holds first. *)
Lemma registered_after_run_call : forall a b c,
  keeps_registered a b c ->
  frames (keeps (registered_after a b)) (run_call c).
Proof.
  intros a b [w i|arrived|readable|ok h|h|x n v|x n s] Hc; cbn [run_call].
  - apply (frames_bind _ (keeps_trans (registered_after a b)));
      [|intro; apply (frames_ret _ (keeps_refl (registered_after a b)))].
    apply stable_team_init; registered_after_side a b.
  - apply stable_team_process_event; registered_after_side a b.
  - apply stable_team_check_events; registered_after_side a b.
  - apply (frames_bind _ (keeps_trans (registered_after a b)));
      [|intro; apply (frames_ret _ (keeps_refl (registered_after a b)))].
    intros th Hreg. rewrite run_team_change_handler_register.
    destruct (find_change_handler th h) as [it|] eqn:Ef; [exact Hreg|].
    cbn [present]. destruct ok; [|exact Hreg].
    apply find_change_handler_None in Ef.
    destruct (registered_after_In _ _ _ Hreg) as [Ha Hb].
    unfold handle_of, registered_after, registry in *. cbn [fst snd].
    change (filter (is_either a b)
              (handler_addr h :: map addr_of (change_handler_list th)) = [b; a]).
    rewrite filter_cons_if.
    assert (Hf : is_either a b (handler_addr h) = false).
    { unfold is_either.
      destruct (Nat.eqb_spec (handler_addr h) a) as [E|_].
      { exfalso. apply Ef. unfold registered, registry. rewrite E. exact Ha. }
      destruct (Nat.eqb_spec (handler_addr h) b) as [E|_].
      { exfalso. apply Ef. unfold registered, registry. rewrite E. exact Hb. }
      reflexivity. }
    rewrite Hf. exact Hreg.
  - intros th Hreg. rewrite run_team_change_handler_unregister.
    unfold handle_of. cbn [fst snd].
    destruct (find_change_handler th h) as [it|] eqn:Ef; [|exact Hreg].
    assert (Hin : registered h th).
    { destruct (in_dec Nat.eq_dec (handler_addr h) (registry th)) as [Hin|Hn];
        [exact Hin|]. apply find_change_handler_None in Hn. congruence. }
    destruct (list_del_split h _ Hin) as [l1 [x [l2 [El [Hx [_ Hd]]]]]].
    destruct Hc as [Hna Hnb].
    unfold registered_after, registry in *. simpl. rewrite Hd.
    assert (Hf : is_either a b (addr_of x) = false).
    { unfold is_either. rewrite Hx.
      destruct (Nat.eqb_spec (handler_addr h) a) as [E|_]; [contradiction|].
      destruct (Nat.eqb_spec (handler_addr h) b) as [E|_]; [contradiction|].
      reflexivity. }
    rewrite El in Hreg. rewrite map_app, filter_app in *.
    change (map addr_of (x :: l2)) with (addr_of x :: map addr_of l2) in Hreg.
    rewrite filter_cons_if, Hf in Hreg. exact Hreg.
  - apply (frames_bind _ (keeps_trans (registered_after a b)));
      [|intro; apply (frames_ret _ (keeps_refl (registered_after a b)))].
    apply stable_set_option_value; registered_after_side a b.
  - apply (frames_bind _ (keeps_trans (registered_after a b)));
      [|intro; apply (frames_ret _ (keeps_refl (registered_after a b)))].
    apply stable_set_option_value; registered_after_side a b.
Qed.

Lemma registered_after_run_calls : forall a b cs,
  Forall (keeps_registered a b) cs ->
  frames (keeps (registered_after a b)) (run_calls cs).
Proof.
  intros a b cs H. induction H as [|c cs Hc _ IH]; cbn [run_calls].
  - apply (frames_ret _ (keeps_refl (registered_after a b))).
  - apply (frames_bind _ (keeps_trans (registered_after a b)));
      [apply registered_after_run_call; exact Hc|intro; exact IH].
Qed.

(** C7, as the code has it.  [team_change_handler_register] puts the new
    registration at the head of the registry and the walk starts at the
    head: handlers are called in reverse registration order.  If [a] was
    registered when [b] was registered, then after any further calls that
    unregister neither, a walk that calls both calls [b] before [a]. *)
Theorem fire_order_is_reverse_registration : forall th a b cs type,
  registry_ok th ->
  registered a th ->
  ~ registered b th ->
  Forall (keeps_registered (handler_addr a) (handler_addr b)) cs ->
  forall th2,
    th2 = handle_of (run_calls cs
                       (handle_of (team_change_handler_register true b th))) ->
    In (handler_addr a)
       (called (trace_of (check_call_change_handlers type th2))) ->
    In (handler_addr b)
       (called (trace_of (check_call_change_handlers type th2))) ->
    exists u v w,
      called (trace_of (check_call_change_handlers type th2))
      = u ++ handler_addr b :: v ++ handler_addr a :: w.
Proof.
  intros th a b cs type Hok Ha Hb Hcs th2 -> Hina Hinb.
  rewrite run_check_call_change_handlers in *. unfold trace_of in *.
  cbn [snd] in *.
  apply sweep_order; try assumption.
  - intros E. apply Hb. unfold registered. rewrite <- E. exact Ha.
  - apply registered_after_run_calls; [exact Hcs|].
    apply registered_after_register; assumption.
Qed.

Lemma fire_order_is_reverse_registration_witness :
  exists u v w,
    called (trace_of
              (check_call_change_handlers TEAM_ALL_CHANGE
                 (handle_of
                    (run_calls [CallInit init_env_ports_then_error 7]
                       (handle_of
                          (team_change_handler_register true (port_handler 2)
                             fresh_with_handler))))))
    = u ++ 2%nat :: v ++ 1%nat :: w.
Proof.
  apply (fire_order_is_reverse_registration fresh_with_handler
           (port_handler 1) (port_handler 2)
           [CallInit init_env_ports_then_error 7] TEAM_ALL_CHANGE).
  - unfold registry_ok. vm_compute. constructor; [intros []|constructor].
  - vm_compute. left. reflexivity.
  - vm_compute. intros [H|[]]. discriminate.
  - constructor; [exact I|constructor].
  - reflexivity.
  - vm_compute. right. left. reflexivity.
  - vm_compute. left. reflexivity.
Defined.

(** C7 as stated fails.  The PORT handler at address 1 is registered
    before the PORT handler at address 2; the pump that drains two port-list
    messages calls the handler at 2 first and the handler at 1 second. *)
Lemma later_registration_fires_first :
  called (trace_of (run_calls register_two_then_pump sample_handle))
  = [2%nat; 1%nat].
Proof. vm_compute. reflexivity. Qed.

(** C9.  [team_change_handler_register] returns [-EEXIST] and changes
    nothing when the handler is registered already; otherwise it returns
    [-ENOMEM] and changes nothing when the allocation fails, and else adds a
    registration with a clear [call_this] and returns 0.
    [team_change_handler_unregister] of a handler that is not registered
    returns with the handle as it was; of a registered handler it takes out
    that registration and no other, after which the handler is no longer
    registered. *)
Theorem change_handler_registration : forall th h malloc_ok,
  (registered h th ->
   team_change_handler_register malloc_ok h th = (Ret (- EEXIST), th, [])) /\
  (~ registered h th -> malloc_ok = false ->
   team_change_handler_register malloc_ok h th = (Ret (- ENOMEM), th, [])) /\
  (~ registered h th -> malloc_ok = true ->
   team_change_handler_register malloc_ok h th
   = (Ret 0,
      set_change_handler_list
        ({| call_this := false; handler := h |} :: change_handler_list th) th,
      [])) /\
  (~ registered h th ->
   team_change_handler_unregister h th = (Ret tt, th, [])) /\
  (registered h th ->
   exists l1 it l2,
     change_handler_list th = l1 ++ it :: l2 /\
     addr_of it = handler_addr h /\
     ~ In (handler_addr h) (map addr_of l1) /\
     team_change_handler_unregister h th
     = (Ret tt, set_change_handler_list (l1 ++ l2) th, []) /\
     (registry_ok th ->
      ~ registered h (set_change_handler_list (l1 ++ l2) th))).
Proof.
  intros th h malloc_ok. split; [|split; [|split; [|split]]].
  - intros Hr. rewrite run_team_change_handler_register.
    destruct (find_change_handler th h) eqn:Ef; [reflexivity|].
    apply find_change_handler_None in Ef. contradiction.
  - intros Hn ->. rewrite run_team_change_handler_register.
    apply find_change_handler_None in Hn. rewrite Hn. reflexivity.
  - intros Hn ->. rewrite run_team_change_handler_register.
    apply find_change_handler_None in Hn. rewrite Hn. reflexivity.
  - intros Hn. rewrite run_team_change_handler_unregister.
    apply find_change_handler_None in Hn. rewrite Hn. reflexivity.
  - intros Hr. destruct (list_del_split h _ Hr) as [l1 [it [l2 [El [Hit [Hn1 Hd]]]]]].
    exists l1, it, l2. split; [exact El|]. split; [exact Hit|].
    split; [exact Hn1|]. split.
    + rewrite run_team_change_handler_unregister.
      destruct (find_change_handler th h) eqn:Ef.
      * rewrite Hd. reflexivity.
      * apply find_change_handler_None in Ef. contradiction.
    + intros Hok Hin. unfold registry_ok, registered, registry in *.
      simpl in Hin. rewrite El, map_app in Hok. simpl in Hok.
      apply NoDup_remove_2 in Hok. apply Hok. rewrite Hit, <- map_app.
      exact Hin.
Qed.

Lemma change_handler_registration_witness :
  team_change_handler_register true (all_handler 2) sample_with_handlers
  = (Ret (- EEXIST), sample_with_handlers, []) /\
  team_change_handler_register false (port_handler 3) sample_with_handlers
  = (Ret (- ENOMEM), sample_with_handlers, []) /\
  team_change_handler_unregister (port_handler 3) sample_with_handlers
  = (Ret tt, sample_with_handlers, []).
Proof.
  assert (H3 : ~ registered (port_handler 3) sample_with_handlers).
  { vm_compute. intros [H|[H|[]]]; discriminate. }
  split; [|split].
  - apply (proj1 (change_handler_registration sample_with_handlers
                    (all_handler 2) true)).
    vm_compute. left. reflexivity.
  - destruct (change_handler_registration sample_with_handlers
                (port_handler 3) false) as [_ [H _]].
    apply H; [exact H3|reflexivity].
  - destruct (change_handler_registration sample_with_handlers
                (port_handler 3) true) as [_ [_ [_ [H _]]]].
    apply H. exact H3.
Defined.

(** ** Setting an option *)





(** * Further properties of the code *)

(** ** State and trace together *)

Lemma run_bind : forall A B (m : M A) (k : A -> M B) th,
  bind m k th =
  match m th with
  | (Ret a, th1, t1) =>
      (result_of (k a th1), handle_of (k a th1), t1 ++ trace_of (k a th1))
  | (Blocked, th1, t1) => (Blocked, th1, t1)
  | (Fault, th1, t1) => (Fault, th1, t1)
  end.
Proof.
  intros A B m k th. unfold bind.
  destruct (m th) as [[[a| |] th1] t1]; [|reflexivity|reflexivity].
  destruct (k a th1) as [[o th2] t2]. reflexivity.
Qed.

Section Triples.
Variable I : team_handle -> Prop.
Variable P : list event -> Prop.
Variable allowed : team_change_type -> Prop.
Hypothesis P_nil : P [].
Hypothesis P_app : forall t1 t2, P t1 -> P t2 -> P (t1 ++ t2).
Hypothesis P_printf : forall m, P [Printf m].
Hypothesis P_send : forall r, P [Send r].
Hypothesis I_valid_cb : forall cb th,
  I th -> I (set_nl_sock (set_cb_valid cb (th_nl_sock th)) th).
Hypothesis I_reply_cbs : forall th,
  I th -> I (set_nl_sock (install_reply_callbacks (th_nl_sock th)) th).
Hypothesis I_nl_sock_err : forall e th, I th -> I (set_nl_sock_err e th).
Hypothesis I_seq_check : forall th,
  I th -> I (set_nl_sock_event (disable_seq_check (th_nl_sock_event th)) th).
Hypothesis I_event_cb : forall th,
  I th ->
  I (set_nl_sock_event (set_cb_valid ValidEvent (th_nl_sock_event th)) th).
Hypothesis I_family : forall f th, I th -> I (set_family f th).
Hypothesis I_ifindex : forall i th, I th -> I (set_ifindex i th).
Hypothesis I_ports : forall ports th, I th -> I (port_refreshed ports th).
Hypothesis I_options : forall th heap nested t opts,
  options_loop heap nested [] = (t, Completed opts) ->
  I th -> I (options_refreshed opts th).
Hypothesis I_sweep : forall type th,
  allowed type -> I th -> I (swept type th) /\ P (sweep_calls type th).

Lemma holds_ret : forall A (a : A), holds I P (ret a).
Proof. intros A a th H. split; [exact H|exact P_nil]. Qed.

Lemma holds_get : holds I P get.
Proof. intros th H. split; [exact H|exact P_nil]. Qed.

Lemma holds_block : forall A, holds I P (@block A).
Proof. intros A th H. split; [exact H|exact P_nil]. Qed.

Lemma holds_fault : forall A, holds I P (@fault A).
Proof. intros A th H. split; [exact H|exact P_nil]. Qed.

Lemma holds_emit : forall t, P t -> holds I P (emit t).
Proof. intros t Ht th H. split; [exact H|exact Ht]. Qed.

Lemma holds_modify : forall f,
  (forall th, I th -> I (f th)) -> holds I P (modify f).
Proof. intros f Hf th H. split; [apply Hf; exact H|exact P_nil]. Qed.

Lemma holds_bind : forall A B (m : M A) (k : A -> M B),
  holds I P m -> (forall a, holds I P (k a)) -> holds I P (bind m k).
Proof.
  intros A B m k Hm Hk th H. rewrite run_bind.
  destruct (Hm th H) as [H1 P1].
  destruct (m th) as [[[a| |] th1] t1]; unfold handle_of, trace_of in *;
    cbn [fst snd] in *; auto.
  destruct (Hk a th1 H1) as [H2 P2]. split; [exact H2|].
  apply P_app; assumption.
Qed.

Lemma holds_if : forall A (b : bool) (m1 m2 : M A),
  holds I P m1 -> holds I P m2 -> holds I P (if b then m1 else m2).
Proof. intros A [] m1 m2 H1 H2; assumption. Qed.

Lemma P_prints : forall t, Forall is_printf t -> P t.
Proof.
  intros t H. induction H as [|e t [m ->] _ IH]; [exact P_nil|].
  apply (P_app [Printf m] t); [apply P_printf|exact IH].
Qed.

Ltac holding :=
  repeat lazymatch goal with
    | |- holds _ _ (ret _) => apply holds_ret
    | |- holds _ _ get => apply holds_get
    | |- holds _ _ (printf _) => apply holds_emit; apply P_printf
    | |- holds _ _ (emit [Send _]) => apply holds_emit; apply P_send
    | |- holds _ _ block => apply holds_block
    | |- holds _ _ fault => apply holds_fault
    | |- holds _ _ (modify _) =>
        apply holds_modify; intro;
        first [ apply I_valid_cb | apply I_reply_cbs | apply I_nl_sock_err
              | apply I_seq_check | apply I_event_cb
              | apply I_family | apply I_ifindex ]
    | |- holds _ _ (bind _ _) => apply holds_bind; [ | intro ]
    | |- holds _ _ (if _ then _ else _) => apply holds_if
    | |- holds _ _ (let _ := _ in _) => cbv zeta
    end.

Lemma holds_get_port_list_handler : forall uninit heap msg,
  holds I P (get_port_list_handler uninit heap msg).
Proof.
  intros uninit heap msg th H.
  pose proof (get_port_list_handler_prints uninit heap msg th) as Hp.
  destruct (get_port_list_handler_cases th uninit heap msg)
    as [[ports [_ E]]|[_ [t [E _]]]]; rewrite E in *;
    unfold handle_of, trace_of in *; cbn [fst snd] in *;
    (split; [|apply P_prints; exact Hp]).
  - apply I_ports. exact H.
  - exact H.
Qed.

Lemma holds_get_options_handler : forall uninit heap msg,
  holds I P (get_options_handler uninit heap msg).
Proof.
  intros uninit heap msg th H.
  pose proof (get_options_handler_prints uninit heap msg th) as Hp.
  destruct (get_options_handler_cases th uninit heap msg)
    as [[t [opts [[_ [nested [_ Hl]]] E]]]|[_ [o [t [E _]]]]]; rewrite E in *;
    unfold handle_of, trace_of in *; cbn [fst snd] in *;
    (split; [|apply P_prints; exact Hp]).
  - eapply I_options; [exact Hl|exact H].
  - exact H.
Qed.

Lemma holds_event_handler : forall uninit heap msg,
  holds I P (event_handler uninit heap msg).
Proof.
  intros uninit heap msg. unfold event_handler.
  destruct (genl_cmd msg);
    first [ apply holds_get_port_list_handler
          | apply holds_get_options_handler
          | apply holds_ret ].
Qed.

Lemma holds_nl_cb_call : forall s d, holds I P (nl_cb_call s d).
Proof.
  intros s d. unfold nl_cb_call. apply holds_bind; [apply holds_get|].
  intros th0. destruct (item d) as [msg| | |e].
  - destruct (cb_valid (sock_of s th0));
      first [ apply holds_get_port_list_handler
            | apply holds_get_options_handler
            | apply holds_event_handler
            | apply holds_ret ].
  - destruct (cb_ack (sock_of s th0)); unfold ack_handler; holding.
  - destruct (cb_finish (sock_of s th0)); unfold finish_handler; holding.
  - destruct (cb_err (sock_of s th0)); unfold error_handler; holding.
Qed.

Lemma holds_nl_recvmsgs_default : forall s arrived,
  holds I P (nl_recvmsgs_default s arrived).
Proof.
  intros s arrived. induction arrived as [|d rest IH]; cbn [nl_recvmsgs_default].
  - apply holds_ret.
  - apply holds_bind; [apply holds_nl_cb_call|].
    intros verdict. apply holds_if; [apply holds_ret|exact IH].
Qed.

Lemma holds_recv_while_in_flight : forall passes,
  holds I P (recv_while_in_flight passes).
Proof.
  induction passes as [|arrived rest IH]; intros th H;
    cbn [recv_while_in_flight].
  - destruct (nl_sock_err th >? 0); split; auto.
  - destruct (nl_sock_err th >? 0); [|split; auto].
    revert th H. apply holds_bind; [apply holds_nl_recvmsgs_default|].
    intros _. exact IH.
Qed.

Lemma holds_send_and_recv : forall x msg valid_handler,
  holds I P (send_and_recv x msg valid_handler).
Proof.
  intros x msg valid_handler. unfold send_and_recv. holding.
  - destruct valid_handler; holding.
  - apply holds_recv_while_in_flight.
Qed.

Lemma holds_check_call_change_handlers : forall type,
  allowed type -> holds I P (check_call_change_handlers type).
Proof.
  intros type Ha th H. rewrite run_check_call_change_handlers.
  unfold handle_of, trace_of. cbn [fst snd]. apply I_sweep; assumption.
Qed.

Lemma holds_get_port_list : forall x,
  allowed TEAM_PORT_CHANGE -> holds I P (get_port_list x).
Proof.
  intros x Ha. unfold get_port_list. holding.
  - apply holds_send_and_recv.
  - apply holds_check_call_change_handlers. exact Ha.
Qed.

Lemma holds_get_options : forall x,
  allowed TEAM_OPTION_CHANGE -> holds I P (get_options x).
Proof.
  intros x Ha. unfold get_options. holding.
  - apply holds_send_and_recv.
  - apply holds_check_call_change_handlers. exact Ha.
Qed.

Lemma holds_set_option_value : forall x opt_name data opt_type,
  holds I P (set_option_value x opt_name data opt_type).
Proof.
  intros x opt_name data opt_type. unfold set_option_value.
  destruct (opt_type =? TEAM_OPTION_TYPE_U32);
    [|destruct (opt_type =? TEAM_OPTION_TYPE_STRING)];
    holding; apply holds_send_and_recv.
Qed.

Lemma holds_team_init : forall w i,
  allowed TEAM_PORT_CHANGE -> allowed TEAM_OPTION_CHANGE ->
  holds I P (team_init w i).
Proof.
  intros w i Hp Ho. unfold team_init. holding;
    auto using holds_get_port_list, holds_get_options.
Qed.

Lemma holds_team_process_event : forall arrived,
  allowed TEAM_ALL_CHANGE -> holds I P (team_process_event arrived).
Proof.
  intros arrived Ha. unfold team_process_event. holding.
  - apply holds_nl_recvmsgs_default.
  - apply holds_check_call_change_handlers. exact Ha.
Qed.

Lemma holds_team_check_events : forall readable,
  allowed TEAM_ALL_CHANGE -> holds I P (team_check_events readable).
Proof.
  intros readable Ha. induction readable as [|arrived rest IH];
    cbn [team_check_events].
  - apply holds_ret.
  - apply holds_bind; [apply holds_team_process_event; exact Ha|].
    intros _. exact IH.
Qed.
End Triples.

(** ** Iterating over the cache *)

Lemma firstn_skipn_step : forall (T : Type) (l : list T) n fuel,
  match nth_error l n with
  | None => []
  | Some x => x :: firstn fuel (skipn (S n) l)
  end = firstn (S fuel) (skipn n l).
Proof.
  intros T l. induction l as [|x l IHl]; intros [|n] fuel; simpl;
    try reflexivity.
  apply IHl.
Qed.

Lemma walk_from : forall (T : Type) (l : list T) (next : option nat -> option T)
    (walk : nat -> option nat -> list T),
  (forall c, next c = list_get_next_entry c l) ->
  (forall fuel c,
     walk (S fuel) c = match next c with
                       | None => []
                       | Some x => x :: walk fuel (cursor_after c)
                       end) ->
  (forall c, walk O c = []) ->
  forall fuel c,
    walk fuel c
    = firstn fuel (skipn (match c with None => O | Some i => S i end) l).
Proof.
  intros T l next walk Hnext Hstep Hzero fuel.
  induction fuel as [|fuel IH]; intros c; [rewrite Hzero; reflexivity|].
  rewrite Hstep, Hnext. unfold list_get_next_entry.
  destruct c as [i|]; cbn [cursor_after]; rewrite IH;
    apply firstn_skipn_step.
Qed.

(** X1.  The cursor loop over [team_get_next_port] started at the sentinel
    returns the cached ports one by one in list order and then nothing, and
    so does the loop over [team_get_next_option]; past the last entry the
    next entry is always absent.  After a message that refreshes the port
    list, the loop returns the ports of the message in message order. *)
Theorem cursor_walk_visits_list_in_order : forall th fuel,
  (List.length (port_list th) <= fuel)%nat ->
  (List.length (option_list th) <= fuel)%nat ->
  walk_ports th fuel None = port_list th /\
  walk_options th fuel None = option_list th /\
  (forall i, (List.length (port_list th) <= S i)%nat ->
             team_get_next_port th (Some i) = None) /\
  (forall i, (List.length (option_list th) <= S i)%nat ->
             team_get_next_option th (Some i) = None) /\
  (forall uninit heap msg ports,
     port_refresh th uninit heap msg ports ->
     walk_ports (handle_of (get_port_list_handler uninit heap msg th))
       (List.length ports) None = ports).
Proof.
  intros th fuel Hp Ho.
  assert (Hwp : forall th' fuel' c,
            walk_ports th' fuel' c
            = firstn fuel' (skipn (match c with None => O | Some i => S i end)
                              (port_list th'))).
  { intros th' fuel' c.
    apply (walk_from team_port (port_list th') (team_get_next_port th')
             (walk_ports th')); reflexivity. }
  assert (Hwo : forall fuel' c,
            walk_options th fuel' c
            = firstn fuel' (skipn (match c with None => O | Some i => S i end)
                              (option_list th))).
  { intros fuel' c.
    apply (walk_from team_option (option_list th) (team_get_next_option th)
             (walk_options th)); reflexivity. }
  split; [rewrite Hwp; apply firstn_all2; exact Hp|].
  split; [rewrite Hwo; apply firstn_all2; exact Ho|].
  split; [|split].
  - intros i Hi. apply nth_error_None. exact Hi.
  - intros i Hi. apply nth_error_None. exact Hi.
  - intros uninit heap msg ports Hr.
    rewrite (get_port_list_handler_refresh _ _ _ _ _ Hr), Hwp.
    apply firstn_all2. apply Nat.le_refl.
Qed.

Lemma cursor_walk_visits_list_in_order_witness :
  walk_ports sample_handle 5 None = [sample_port_11; sample_port_12].
Proof.
  apply (proj1 (cursor_walk_visits_list_in_order sample_handle 5
                  ltac:(vm_compute; lia) ltac:(vm_compute; lia))).
Defined.

(** ** Looking options up *)

Lemma find_option_Some : forall l name o,
  __find_option l name = Some o -> In o l /\ option_name o = name.
Proof.
  intros l name o H. unfold __find_option in H. apply find_some in H.
  destruct H as [Hin He]. apply String.eqb_eq in He. auto.
Qed.

Lemma find_option_None : forall l name,
  __find_option l name = None <-> ~ In name (option_names l).
Proof.
  intros l name. rewrite <- has_name_In. unfold has_name.
  destruct (__find_option l name); simpl; split; intros H;
    try discriminate; try reflexivity.
  exfalso. apply H. reflexivity.
Qed.

Lemma find_option_unique : forall l o,
  NoDup (option_names l) -> In o l -> __find_option l (option_name o) = Some o.
Proof.
  intros l o Hnd Hin. unfold __find_option.
  induction l as [|x l IH]; [contradiction|]. simpl in Hnd.
  inversion Hnd as [|y ys Hx Hnd']; subst. simpl.
  destruct (String.eqb_spec (option_name x) (option_name o)) as [E|E].
  - destruct Hin as [->|Hin]; [reflexivity|]. exfalso. apply Hx. rewrite E.
    apply in_map. exact Hin.
  - destruct Hin as [->|Hin]; [contradiction|]. apply IH; assumption.
Qed.

(** X2.  [team_get_option_by_name] finds nothing exactly when no cached
    option carries the name, and what it finds is a cached option of that
    name; when the cached names are pairwise different every cached option
    is the one found under its name.  The typed getters by name return
    [-ENOENT] and store nothing exactly when no cached option carries the
    name, and otherwise return 0 and store through the pointer. *)
Theorem option_lookup_by_name : forall v th name,
  (team_get_option_by_name th name = None
   <-> ~ In name (option_names (option_list th))) /\
  (forall o, team_get_option_by_name th name = Some o ->
             In o (option_list th) /\ option_name o = name) /\
  (names_unique th ->
   forall o, In o (option_list th) ->
             team_get_option_by_name th (option_name o) = Some o) /\
  (~ In name (option_names (option_list th)) ->
   team_get_option_value_by_name_u32 v th name = (- ENOENT, None) /\
   team_get_option_value_by_name_string v th name = (- ENOENT, None)) /\
  (In name (option_names (option_list th)) ->
   exists o,
     In o (option_list th) /\ option_name o = name /\
     team_get_option_value_by_name_u32 v th name
     = (0, Some (team_get_option_value_u32 v o)) /\
     team_get_option_value_by_name_string v th name
     = (0, Some (team_get_option_value_string v o))).
Proof.
  intros v th name. unfold team_get_option_by_name,
    team_get_option_value_by_name_u32, team_get_option_value_by_name_string,
    team_get_option_by_name.
  split; [apply find_option_None|].
  split; [intros o; apply find_option_Some|].
  split; [intros Hu o; apply find_option_unique; exact Hu|].
  split.
  - intros Hn. apply find_option_None in Hn. rewrite Hn. split; reflexivity.
  - intros Hin.
    destruct (__find_option (option_list th) name) as [o|] eqn:Ef.
    + destruct (find_option_Some _ _ _ Ef) as [Ho Hname].
      exists o. repeat split; assumption.
    + apply find_option_None in Ef. contradiction.
Qed.

Lemma option_lookup_by_name_witness :
  team_get_option_value_by_name_u32 sample_views sample_handle "priority"
  = (- ENOENT, None).
Proof.
  destruct (option_lookup_by_name sample_views sample_handle "priority")
    as [_ [_ [_ [H _]]]].
  apply H. vm_compute. intros [H0|[H0|[]]]; discriminate.
Defined.

(** ** Registering and unregistering *)

Lemma set_change_handler_list_twice : forall l l' th,
  set_change_handler_list l (set_change_handler_list l' th)
  = set_change_handler_list l th.
Proof. reflexivity. Qed.

Lemma list_del_absent : forall h l,
  ~ In (handler_addr h) (map addr_of l) -> list_del (is_handler h) l = l.
Proof.
  intros h l. induction l as [|x l IH]; simpl; intros Hn; [reflexivity|].
  unfold is_handler at 1. fold (addr_of x).
  destruct (Nat.eqb_spec (addr_of x) (handler_addr h)) as [E|E].
  - exfalso. apply Hn. left. exact E.
  - f_equal. apply IH. intros C. apply Hn. right. exact C.
Qed.

Lemma registry_after_unregister : forall h th,
  registry_ok th ->
  ~ registered h (handle_of (team_change_handler_unregister h th)).
Proof.
  intros h th Hok. rewrite run_team_change_handler_unregister.
  unfold handle_of. cbn [fst snd].
  destruct (find_change_handler th h) as [it|] eqn:Ef.
  - assert (Hin : registered h th).
    { destruct (in_dec Nat.eq_dec (handler_addr h) (registry th)) as [Hin|Hn];
        [exact Hin|]. apply find_change_handler_None in Hn. congruence. }
    destruct (list_del_split h _ Hin) as [l1 [x [l2 [El [Hx [_ Hd]]]]]].
    unfold registry_ok, registered, registry in *. simpl. rewrite Hd.
    rewrite El, map_app in Hok. simpl in Hok. apply NoDup_remove_2 in Hok.
    rewrite map_app, <- Hx. exact Hok.
  - apply find_change_handler_None. exact Ef.
Qed.

(** X8.  Unregistering a handler right after it was registered gives back
    the handle as it was before the registration, whole; and on a registry
    with pairwise different addresses a second unregistration of the same
    handler changes nothing. *)
Theorem register_unregister_round_trip : forall h th,
  (~ registered h th ->
   handle_of (team_change_handler_unregister h
                (handle_of (team_change_handler_register true h th)))
   = th) /\
  (registry_ok th ->
   handle_of (team_change_handler_unregister h
                (handle_of (team_change_handler_unregister h th)))
   = handle_of (team_change_handler_unregister h th)).
Proof.
  intros h th. split.
  - intros Hn. rewrite run_team_change_handler_register.
    apply find_change_handler_None in Hn. rewrite Hn. cbn [present negb].
    unfold handle_of at 2. cbn [fst snd].
    rewrite run_team_change_handler_unregister. unfold handle_of. cbn [fst snd].
    unfold find_change_handler, list_add.
    cbn [set_change_handler_list change_handler_list find list_del].
    assert (Hi : is_handler h {| call_this := false; handler := h |} = true)
      by (unfold is_handler; cbn [handler]; apply Nat.eqb_refl).
    rewrite ?Hi. rewrite set_change_handler_list_twice.
    apply set_change_handler_list_same.
  - intros Hok.
    pose proof (registry_after_unregister h th Hok) as Hn.
    apply find_change_handler_None in Hn.
    rewrite (run_team_change_handler_unregister h
               (handle_of (team_change_handler_unregister h th))).
    rewrite Hn. reflexivity.
Qed.

Lemma register_unregister_round_trip_witness :
  handle_of (team_change_handler_unregister (port_handler 3)
               (handle_of (team_change_handler_register true (port_handler 3)
                             sample_with_handlers)))
  = sample_with_handlers.
Proof.
  apply (proj1 (register_unregister_round_trip (port_handler 3)
                  sample_with_handlers)).
  vm_compute. intros [H|[H|[]]]; discriminate.
Defined.

(** ** The type tag and the data of a cached option *)

Lemma option_of_entry_well_typed : forall a o,
  option_of_entry a = Some o -> well_typed o = true.
Proof.
  intros a o. unfold option_of_entry.
  destruct (TEAM_ATTR_OPTION_NAME a) as [n|]; [|discriminate].
  destruct (TEAM_ATTR_OPTION_TYPE a) as [t|]; [|discriminate].
  destruct (TEAM_ATTR_OPTION_DATA a) as [d|]; [|discriminate].
  cbv zeta.
  destruct (to_int (nla_get_u32 t) =? NLA_U32);
    [|destruct (to_int (nla_get_u32 t) =? NLA_STRING)];
    intros H; inversion H; reflexivity.
Qed.

Lemma candidates_well_typed : forall nested o,
  In o (candidates nested) -> well_typed o = true.
Proof.
  intros nested o H. unfold candidates in H. apply in_flat_map in H.
  destruct H as [e [_ H]]. destruct e as [a|]; [|contradiction].
  destruct (option_of_entry a) as [o'|] eqn:E; [|contradiction].
  destruct H as [<-|[]]. eapply option_of_entry_well_typed. exact E.
Qed.

Lemma first_of_each_name_incl : forall l o,
  In o (first_of_each_name l) -> In o l.
Proof.
  induction l as [|x l IH]; intros o H; [contradiction|].
  cbn [first_of_each_name] in H. destruct H as [->|H]; [left; reflexivity|].
  right. apply IH. apply filter_In in H. tauto.
Qed.

(** A property of the option list that every completed loop establishes is
    kept by every call of the public interface. *)
Lemma option_list_invariant_run_call : forall (Q : list team_option -> Prop),
  (forall heap nested t opts,
     options_loop heap nested [] = (t, Completed opts) -> Q opts) ->
  forall c, frames (keeps (fun th => Q (option_list th))) (run_call c).
Proof.
  intros Q HQ c.
  set (Inv := fun th => Q (option_list th)).
  assert (Hopt : forall th heap nested t opts,
             options_loop heap nested [] = (t, Completed opts) ->
             keeps Inv th (options_refreshed opts th)).
  { intros th heap nested t opts H _. eapply HQ. exact H. }
  assert (Hside : forall f : team_handle -> team_handle,
             (forall th, option_list (f th) = option_list th) ->
             forall th, keeps Inv th (f th)).
  { intros f Hf th H. unfold Inv. rewrite Hf. exact H. }
  destruct c as [w i|arrived|readable|ok h|h|x n v|x n s]; cbn [run_call].
  - apply (frames_bind _ (keeps_trans Inv));
      [|intro; apply (frames_ret _ (keeps_refl Inv))].
    apply stable_team_init;
      first [ exact (keeps_refl Inv) | exact (keeps_trans Inv) | exact Hopt
            | intros; intro; assumption ].
  - apply stable_team_process_event;
      first [ exact (keeps_refl Inv) | exact (keeps_trans Inv) | exact Hopt
            | intros; intro; assumption ].
  - apply stable_team_check_events;
      first [ exact (keeps_refl Inv) | exact (keeps_trans Inv) | exact Hopt
            | intros; intro; assumption ].
  - intros th. unfold handle_of, bind.
    rewrite run_team_change_handler_register.
    destruct (present (find_change_handler th h)); [intro; assumption|].
    destruct ok; intro; assumption.
  - intros th. rewrite run_team_change_handler_unregister.
    destruct (find_change_handler th h); intro; assumption.
  - apply (frames_bind _ (keeps_trans Inv));
      [|intro; apply (frames_ret _ (keeps_refl Inv))].
    apply stable_set_option_value;
      first [ exact (keeps_refl Inv) | exact (keeps_trans Inv) | exact Hopt
            | intros; intro; assumption ].
  - apply (frames_bind _ (keeps_trans Inv));
      [|intro; apply (frames_ret _ (keeps_refl Inv))].
    apply stable_set_option_value;
      first [ exact (keeps_refl Inv) | exact (keeps_trans Inv) | exact Hopt
            | intros; intro; assumption ].
Qed.

Lemma reachable_cache_well_typed : forall th,
  reachable th -> cache_well_typed th.
Proof.
  intros th H. induction H as [e th Ha|c th Hr IH Hret].
  - apply team_alloc_lists in Ha. destruct Ha as [_ [Ho _]].
    unfold cache_well_typed. rewrite Ho. constructor.
  - apply (option_list_invariant_run_call
             (Forall (fun o => well_typed o = true))); [|exact IH].
    intros heap nested t opts H. apply options_loop_completed in H.
    destruct H as [_ [-> _]]. rewrite accept_from_nil. apply Forall_forall.
    intros o Ho. eapply candidates_well_typed.
    apply first_of_each_name_incl. exact Ho.
Qed.

(** X3.  On every handle built through [team_alloc] and the public calls,
    the type tag of a cached option tells what its data buffer holds: an
    option tagged U32 holds a [__u32], which is what
    [team_get_option_value_u32] returns, and an option tagged STRING holds a
    string, which is what [team_get_option_value_string] returns. *)
Theorem cached_option_type_matches_data : forall th o,
  reachable th ->
  In o (option_list th) ->
  (option_type o = TEAM_OPTION_TYPE_U32 /\
   exists val, option_data_of o = DataU32 val /\
               forall v, team_get_option_value_u32 v o = val) \/
  (option_type o = TEAM_OPTION_TYPE_STRING /\
   exists s, option_data_of o = DataString s /\
             forall v, team_get_option_value_string v o = s).
Proof.
  intros th o Hr Hin.
  pose proof (reachable_cache_well_typed th Hr) as Hw.
  unfold cache_well_typed in Hw. rewrite Forall_forall in Hw.
  specialize (Hw o Hin). unfold well_typed in Hw.
  unfold team_get_option_value_u32, team_get_option_value_string.
  destruct (option_data_of o) as [val|s].
  - left. apply Z.eqb_eq in Hw. split; [exact Hw|]. exists val. auto.
  - right. apply Z.eqb_eq in Hw. split; [exact Hw|]. exists s. auto.
Qed.

Lemma cached_option_type_matches_data_witness :
  (TEAM_OPTION_TYPE_U32 = TEAM_OPTION_TYPE_U32 /\
   exists val, DataU32 11 = DataU32 val /\
     forall v, team_get_option_value_u32 v
                 {| option_type := TEAM_OPTION_TYPE_U32; option_changed := false;
                    option_name := "activeport";
                    option_data_of := DataU32 11 |} = val) \/
  (TEAM_OPTION_TYPE_U32 = TEAM_OPTION_TYPE_STRING /\
   exists s, DataU32 11 = DataString s /\
     forall v, team_get_option_value_string v
                 {| option_type := TEAM_OPTION_TYPE_U32; option_changed := false;
                    option_name := "activeport";
                    option_data_of := DataU32 11 |} = s).
Proof.
  apply (cached_option_type_matches_data sample_handle
           {| option_type := TEAM_OPTION_TYPE_U32; option_changed := false;
              option_name := "activeport"; option_data_of := DataU32 11 |}).
  - assert (E : handle_of (run_call (CallInit sample_init_env 7) fresh_handle)
                = sample_handle) by (vm_compute; reflexivity).
    rewrite <- E. apply reachable_call.
    + apply (reachable_alloc sample_alloc_env). vm_compute. reflexivity.
    + vm_compute. reflexivity.
  - vm_compute. right. left. reflexivity.
Defined.

(** ** Handlers that are not registered *)

Ltac absent_side a :=
  first [ reflexivity
        | exact Logic.I
        | intros; reflexivity
        | intros t1 t2 H1 H2; rewrite calls_app, H1, H2; reflexivity
        | intros; assumption
        | intros ports th H; rewrite (same_registry_port_refreshed ports th);
          exact H
        | intros th heap nested t opts _ H;
          rewrite (same_registry_options_refreshed opts th); exact H
        | intros type th _ H; split;
          [ rewrite (same_registry_swept type th); exact H
          | apply calls_absent; exact H ] ].

Lemma absent_run_call : forall a c,
  not_registering a c ->
  holds (fun th => ~ In a (registry th)) (fun t => calls a t = 0%nat)
        (run_call c).
Proof.
  intros a c Hc.
  destruct c as [w i|arrived|readable|ok h|h|x n v|x n s]; cbn [run_call].
  - apply holds_bind; [absent_side a| |intro; apply holds_ret; absent_side a].
    apply (holds_team_init _ _ (fun _ => True)); absent_side a.
  - apply (holds_team_process_event _ _ (fun _ => True)); absent_side a.
  - apply (holds_team_check_events _ _ (fun _ => True)); absent_side a.
  - intros th H. unfold handle_of, trace_of. rewrite run_bind.
    rewrite run_team_change_handler_register.
    destruct (present (find_change_handler th h)); [split; auto|].
    destruct ok; cbn [negb fst snd]; [|split; auto].
    split; [|reflexivity]. unfold registry. simpl.
    intros [E|Hin]; [exact (Hc E)|exact (H Hin)].
  - intros th H. rewrite run_team_change_handler_unregister.
    unfold handle_of, trace_of. cbn [fst snd]. split; [|reflexivity].
    destruct (find_change_handler th h) as [it|] eqn:Ef; [|exact H].
    assert (Hin : registered h th).
    { destruct (in_dec Nat.eq_dec (handler_addr h) (registry th)) as [Hin|Hn];
        [exact Hin|]. apply find_change_handler_None in Hn. congruence. }
    destruct (list_del_split h _ Hin) as [l1 [it' [l2 [El [_ [_ Hd]]]]]].
    unfold registry in *. simpl. rewrite Hd. rewrite El in H.
    rewrite map_app in *. intros Hi. apply H. apply in_app_or in Hi.
    apply in_or_app. destruct Hi as [Hi|Hi]; [left; exact Hi|].
    right. right. exact Hi.
  - apply holds_bind; [absent_side a| |intro; apply holds_ret; absent_side a].
    apply holds_set_option_value; absent_side a.
  - apply holds_bind; [absent_side a| |intro; apply holds_ret; absent_side a].
    apply holds_set_option_value; absent_side a.
Qed.

Lemma absent_run_calls : forall a cs,
  Forall (not_registering a) cs ->
  holds (fun th => ~ In a (registry th)) (fun t => calls a t = 0%nat)
        (run_calls cs).
Proof.
  intros a cs H. induction H as [|c cs Hc _ IH]; cbn [run_calls].
  - apply holds_ret. reflexivity.
  - apply holds_bind; [absent_side a| |intro; exact IH].
    apply absent_run_call. exact Hc.
Qed.

(** X9.  A handler that is not registered is never called: whatever public
    calls follow, events and refreshes included, as long as none of them
    registers it again, no call of it appears.  In particular, on a handle
    whose registrations have distinct addresses, a handler is not called
    any more once [team_change_handler_unregister] has run for it. *)
Theorem unregistered_handler_never_called : forall a cs th,
  Forall (not_registering a) cs ->
  (~ In a (registry th) -> calls a (trace_of (run_calls cs th)) = 0%nat) /\
  (registry_ok th ->
   forall h, handler_addr h = a ->
     calls a (trace_of (run_calls (CallUnregister h :: cs) th)) = 0%nat).
Proof.
  intros a cs th Hcs. split.
  - intros Hn. apply (absent_run_calls a cs Hcs th Hn).
  - intros Hok h <-. cbn [run_calls run_call]. unfold trace_of.
    rewrite run_bind.
    rewrite run_team_change_handler_unregister. cbn [fst snd app].
    pose proof (registry_after_unregister h th Hok) as Hn.
    rewrite run_team_change_handler_unregister in Hn.
    unfold handle_of in Hn. cbn [fst snd] in Hn.
    apply (absent_run_calls _ cs Hcs _ Hn).
Qed.

Lemma unregistered_handler_never_called_witness :
  calls 1 (trace_of (run_calls
     [CallUnregister (port_handler 1);
      CallProcessEvent two_port_messages;
      CallRegister true (port_handler 4);
      CallProcessEvent two_port_messages] sample_with_handlers)) = 0%nat.
Proof.
  refine (proj2 (unregistered_handler_never_called 1
            [CallProcessEvent two_port_messages;
             CallRegister true (port_handler 4);
             CallProcessEvent two_port_messages] sample_with_handlers _)
            _ (port_handler 1) _).
  - repeat constructor. vm_compute. discriminate.
  - vm_compute. repeat constructor; simpl; intuition discriminate.
  - reflexivity.
Defined.

(** ** What a synchronous refresh calls *)

Lemma handlers_mark : forall type l,
  map handler (map (mark_item type) l) = map handler l.
Proof.
  intros type l. rewrite map_map. apply map_ext. intros it.
  apply handler_mark_item.
Qed.

Lemma handlers_fire : forall type l,
  map handler (map (fun it => if fires type it then clear_item it else it) l)
  = map handler l.
Proof.
  intros type l. rewrite map_map. apply map_ext. intros it.
  destruct (fires type it); reflexivity.
Qed.

Lemma sweep_calls_declared : forall C th,
  C <> TEAM_ALL_CHANGE ->
  Forall (declared_for C th) (called (sweep_calls C th)).
Proof.
  intros C th HC. unfold sweep_calls. rewrite called_map_call_of.
  apply Forall_forall. intros a Ha. apply in_map_iff in Ha.
  destruct Ha as [it [<- Hit]]. apply filter_In in Hit.
  destruct Hit as [Hin Hf]. exists (handler it). split.
  - unfold handlers. apply in_map. exact Hin.
  - split; [reflexivity|]. unfold fires in Hf. apply andb_prop in Hf.
    destruct Hf as [Hm _]. unfold type_matches in Hm.
    destruct C, (handler_type (handler it)); try reflexivity;
      try discriminate; exfalso; apply HC; reflexivity.
Qed.

Ltac declared_side :=
  first [ reflexivity
        | solve [intros; simpl; constructor]
        | intros t1 t2 H1 H2; rewrite called_app; apply Forall_app; split;
          assumption
        | intros; assumption
        | let H := fresh in
          intros ? ? H; unfold handlers, port_refreshed; simpl;
          rewrite handlers_mark; exact H
        | let H := fresh in
          intros ? ? ? ? ? _ H; unfold handlers, options_refreshed;
          simpl; rewrite handlers_mark; exact H ].

Lemma declared_sweep : forall C th0 type th,
  C <> TEAM_ALL_CHANGE ->
  type = C ->
  handlers th = handlers th0 ->
  handlers (swept type th) = handlers th0 /\
  Forall (declared_for C th0) (called (sweep_calls type th)).
Proof.
  intros C th0 type th HC -> H. split.
  - unfold handlers, swept. simpl. rewrite handlers_fire. exact H.
  - pose proof (sweep_calls_declared C th HC) as Hd.
    unfold declared_for in *. rewrite H in Hd. exact Hd.
Qed.

Ltac quiet_side :=
  first [ reflexivity
        | exact Logic.I
        | intros; reflexivity
        | intros t1 t2 H1 H2; rewrite called_app, H1, H2; reflexivity
        | intros; exact Logic.I
        | intros type th []  ].

Lemma send_and_recv_calls_nothing : forall x msg valid_handler th,
  called (trace_of (send_and_recv x msg valid_handler th)) = [].
Proof.
  intros x msg valid_handler th.
  assert (Hh : holds (fun _ => True) (fun t => called t = [])
                     (send_and_recv x msg valid_handler)).
  { apply holds_send_and_recv; quiet_side. }
  exact (proj2 (Hh th Logic.I)).
Qed.

Lemma refresh_tail_quiet : forall C (m : M Z) th,
  called (trace_of (m th)) = [] ->
  result_of ((err <- m ;;
              if negb (err =? 0) then ret err
              else check_call_change_handlers C ;; ret 0) th) <> Ret 0 ->
  called (trace_of ((err <- m ;;
                     if negb (err =? 0) then ret err
                     else check_call_change_handlers C ;; ret 0) th)) = [].
Proof.
  intros C m th Hq. unfold result_of, trace_of in *. rewrite run_bind.
  destruct (m th) as [[[err| |] th1] t1]; cbn [fst snd] in *;
    [|intros _; exact Hq|intros _; exact Hq].
  destruct (Z.eqb_spec err 0) as [->|Hne]; cbn [negb].
  - rewrite run_bind, run_check_call_change_handlers. cbn [fst snd].
    intros H. exfalso. apply H. reflexivity.
  - rewrite run_ret. cbn [fst snd]. rewrite app_nil_r. intros _. exact Hq.
Qed.

(** X6.  A synchronous refresh calls only handlers of its own class, and
    only when it succeeds: every handler called during [get_port_list] is a
    registered handler that declares [TEAM_PORT_CHANGE], every handler
    called during [get_options] one that declares [TEAM_OPTION_CHANGE], and
    neither calls any handler unless it returns 0. *)
Theorem refresh_calls_handlers_of_its_class : forall x th,
  (Forall (declared_for TEAM_PORT_CHANGE th)
          (called (trace_of (get_port_list x th))) /\
   (result_of (get_port_list x th) <> Ret 0 ->
    called (trace_of (get_port_list x th)) = [])) /\
  (Forall (declared_for TEAM_OPTION_CHANGE th)
          (called (trace_of (get_options x th))) /\
   (result_of (get_options x th) <> Ret 0 ->
    called (trace_of (get_options x th)) = [])).
Proof.
  intros x th. split; split.
  - assert (Hh : holds (fun th' => handlers th' = handlers th)
                        (fun t => Forall (declared_for TEAM_PORT_CHANGE th) (called t))
                        (get_port_list x)).
    { apply (holds_get_port_list _ _ (fun type => type = TEAM_PORT_CHANGE));
        first [ declared_side
              | intros type th' Ht H;
                apply (declared_sweep TEAM_PORT_CHANGE th type th');
                [discriminate|exact Ht|exact H] ]. }
    exact (proj2 (Hh th eq_refl)).
  - unfold get_port_list.
    destruct (nlmsg_alloc_ok x); cbn [negb]; [|reflexivity].
    destruct (nla_put_ok x); cbn [negb]; [|reflexivity].
    unfold result_of, trace_of. rewrite run_bind_get.
    apply refresh_tail_quiet. apply send_and_recv_calls_nothing.
  - assert (Hh : holds (fun th' => handlers th' = handlers th)
                        (fun t => Forall (declared_for TEAM_OPTION_CHANGE th) (called t))
                        (get_options x)).
    { apply (holds_get_options _ _ (fun type => type = TEAM_OPTION_CHANGE));
        first [ declared_side
              | intros type th' Ht H;
                apply (declared_sweep TEAM_OPTION_CHANGE th type th');
                [discriminate|exact Ht|exact H] ]. }
    exact (proj2 (Hh th eq_refl)).
  - unfold get_options.
    destruct (nlmsg_alloc_ok x); cbn [negb]; [|reflexivity].
    destruct (nla_put_ok x); cbn [negb]; [|reflexivity].
    unfold result_of, trace_of. rewrite run_bind_get.
    apply refresh_tail_quiet. apply send_and_recv_calls_nothing.
Qed.

Lemma refresh_calls_handlers_of_its_class_witness :
  called (trace_of (get_port_list exchange_ports_then_error
                      sample_with_handlers)) = [].
Proof.
  apply (proj2 (proj1 (refresh_calls_handlers_of_its_class
                         exchange_ports_then_error sample_with_handlers))).
  vm_compute. discriminate.
Defined.

(** ** Return values *)

Lemma returns_ret : forall A (Q : A -> Prop) (a : A), Q a -> returns Q (ret a).
Proof. intros A Q a H th r E. inversion E. subst. exact H. Qed.

Lemma returns_bind : forall A B (Q1 : A -> Prop) (Q : B -> Prop)
    (m : M A) (k : A -> M B),
  returns Q1 m -> (forall a, Q1 a -> returns Q (k a)) ->
  returns Q (bind m k).
Proof.
  intros A B Q1 Q m k Hm Hk th r. unfold result_of. rewrite run_bind.
  pose proof (Hm th) as Hm'. unfold result_of in Hm'.
  destruct (m th) as [[[a| |] th1] t1]; cbn [fst snd] in *;
    [|discriminate|discriminate].
  intros E. apply (Hk a (Hm' a eq_refl) th1 r). exact E.
Qed.

Lemma returns_any : forall A (m : M A), returns (fun _ => True) m.
Proof. intros A m th r _. exact Logic.I. Qed.

Lemma returns_if : forall A (Q : A -> Prop) (b : bool) (m1 m2 : M A),
  returns Q m1 -> returns Q m2 -> returns Q (if b then m1 else m2).
Proof. intros A Q [] m1 m2 H1 H2; assumption. Qed.

(** The receive loop returns only once [nl_sock_err] is no longer
    positive. *)
Lemma recv_while_in_flight_returns : forall passes th,
  result_of (recv_while_in_flight passes th) = Ret tt ->
  nl_sock_err (handle_of (recv_while_in_flight passes th)) <= 0.
Proof.
  induction passes as [|arrived rest IH]; intros th;
    cbn [recv_while_in_flight]; destruct (Z.gtb_spec (nl_sock_err th) 0) as [Hp|Hp];
    try (intros _; unfold handle_of; rewrite run_ret; cbn [fst snd]; lia).
  - unfold block, result_of. cbn [fst]. discriminate.
  - unfold result_of, handle_of. rewrite run_bind.
    destruct (nl_recvmsgs_default CmdSock arrived th) as [[[[]| |] th1] t1];
      cbn [fst snd]; [|discriminate|discriminate].
    apply IH.
Qed.

Lemma send_and_recv_returns : forall x msg valid_handler,
  returns (fun r => r <= 0) (send_and_recv x msg valid_handler).
Proof.
  intros x msg valid_handler th r. unfold send_and_recv. cbv zeta.
  destruct (Z.ltb_spec (nl_send_result x) 0) as [Hn|Hn].
  - unfold result_of. rewrite run_ret. cbn [fst]. intros E. inversion E. lia.
  - unfold result_of. rewrite !run_bind. unfold emit at 1. cbn [fst snd].
    rewrite !run_bind. unfold modify at 1. cbn [fst snd].
    rewrite !run_bind.
    set (th1 := handle_of ((match valid_handler with
                            | Some cb =>
                                modify (fun th => set_nl_sock
                                          (set_cb_valid cb (th_nl_sock th)) th)
                            | None => ret tt
                            end) (set_nl_sock_err 1 th))).
    assert (E1 : (match valid_handler with
                  | Some cb =>
                      modify (fun th => set_nl_sock
                                (set_cb_valid cb (th_nl_sock th)) th)
                  | None => ret tt
                  end) (set_nl_sock_err 1 th) = (Ret tt, th1, [])).
    { unfold th1. destruct valid_handler; reflexivity. }
    rewrite E1. cbn [fst snd]. rewrite !run_bind.
    pose proof (recv_while_in_flight_returns (replies x) th1) as Hr.
    unfold result_of, handle_of in Hr.
    destruct (recv_while_in_flight (replies x) th1) as [[[[]| |] th2] t2];
      cbn [fst snd] in *; try discriminate.
    rewrite run_bind_get, run_ret. cbn [fst snd].
    intros E. inversion E. subst. apply Hr. reflexivity.
Qed.

Ltac returning :=
  repeat lazymatch goal with
    | |- returns _ (ret _) => apply returns_ret
    | |- returns _ (bind (send_and_recv _ _ _) _) =>
        apply (returns_bind _ _ (fun r => r <= 0));
        [ apply send_and_recv_returns | intros ? ? ]
    | |- returns _ (bind _ _) =>
        apply (returns_bind _ _ (fun _ => True));
        [ apply returns_any | intros ? _ ]
    | |- returns _ (if _ then _ else _) => apply returns_if
    | |- returns _ (let _ := _ in _) => cbv zeta
    end.

(** X4.  The status an operation returns is never positive: [get_port_list],
    [get_options], [set_option_value], [team_init] and
    [team_change_handler_register] return 0 or a negative error code
    whenever they return.  In particular the value 1 that [send_and_recv]
    stores in [nl_sock_err] while a request is in flight is never handed to
    the caller. *)
Theorem status_is_never_positive : forall th r,
  (forall x, result_of (get_port_list x th) = Ret r -> r <= 0) /\
  (forall x, result_of (get_options x th) = Ret r -> r <= 0) /\
  (forall x opt_name data opt_type,
     result_of (set_option_value x opt_name data opt_type th) = Ret r ->
     r <= 0) /\
  (forall w i, result_of (team_init w i th) = Ret r -> r <= 0) /\
  (forall malloc_ok h,
     result_of (team_change_handler_register malloc_ok h th) = Ret r ->
     r <= 0).
Proof.
  intros th r. repeat split.
  - intros x. revert th r. change (returns (fun r => r <= 0) (get_port_list x)).
    unfold get_port_list. returning; first [assumption | vm_compute; discriminate].
  - intros x. revert th r. change (returns (fun r => r <= 0) (get_options x)).
    unfold get_options. returning; first [assumption | vm_compute; discriminate].
  - intros x opt_name data opt_type. revert th r.
    change (returns (fun r => r <= 0)
              (set_option_value x opt_name data opt_type)).
    unfold set_option_value.
    destruct (opt_type =? TEAM_OPTION_TYPE_U32);
      [|destruct (opt_type =? TEAM_OPTION_TYPE_STRING)];
      returning; first [ apply send_and_recv_returns
                       | vm_compute; discriminate ].
  - intros w i. revert th r. change (returns (fun r => r <= 0) (team_init w i)).
    unfold team_init. returning; vm_compute; discriminate.
  - intros malloc_ok h. revert th r.
    change (returns (fun r => r <= 0) (team_change_handler_register malloc_ok h)).
    unfold team_change_handler_register. returning; vm_compute; discriminate.
Qed.

Lemma status_is_never_positive_witness :
  result_of (get_port_list exchange_ports_then_error sample_with_handlers)
  = Ret (-19) /\
  -19 <= 0.
Proof.
  assert (E : result_of (get_port_list exchange_ports_then_error
                           sample_with_handlers) = Ret (-19))
    by (vm_compute; reflexivity).
  split; [exact E|].
  exact (proj1 (status_is_never_positive sample_with_handlers (-19))
           exchange_ports_then_error E).
Defined.

(** ** What a setter returns *)

Lemma recv_while_in_flight_done : forall passes th,
  nl_sock_err th <= 0 -> recv_while_in_flight passes th = (Ret tt, th, []).
Proof.
  intros passes th H.
  destruct passes; cbn [recv_while_in_flight];
    destruct (Z.gtb_spec (nl_sock_err th) 0); first [lia|reflexivity].
Qed.

Lemma ack_ends_pass : forall d more th,
  cb_ack (th_nl_sock th) = true ->
  item d = ItemAck ->
  nl_recvmsgs_default CmdSock (d :: more) th
  = (Ret tt, set_nl_sock_err 0 th, []).
Proof.
  intros d more th Hcb Hd. cbn [nl_recvmsgs_default]. unfold nl_cb_call.
  rewrite run_bind, run_bind_get. rewrite Hd. cbn [sock_of]. rewrite Hcb.
  reflexivity.
Qed.

Lemma error_alone_in_pass : forall d e th,
  cb_err (th_nl_sock th) = true ->
  item d = ItemError e ->
  nl_recvmsgs_default CmdSock [d] th = (Ret tt, set_nl_sock_err e th, []).
Proof.
  intros d e th Hcb Hd. cbn [nl_recvmsgs_default]. unfold nl_cb_call.
  rewrite run_bind, run_bind_get. rewrite Hd. cbn [sock_of]. rewrite Hcb.
  reflexivity.
Qed.

Lemma send_and_recv_answer : forall x msg th arrived rest e,
  0 <= nl_send_result x ->
  replies x = arrived :: rest ->
  nl_recvmsgs_default CmdSock arrived (set_nl_sock_err 1 th)
  = (Ret tt, set_nl_sock_err e th, []) ->
  e <= 0 ->
  send_and_recv x msg None th = (Ret e, set_nl_sock_err e th, [Send msg]).
Proof.
  intros x msg th arrived rest e Hs Hr Hp He. unfold send_and_recv. cbv zeta.
  destruct (Z.ltb_spec (nl_send_result x) 0) as [Hn|_]; [lia|].
  rewrite Hr. unfold bind at 1. unfold emit at 1.
  unfold bind at 1. unfold modify at 1.
  unfold bind at 1. rewrite run_ret.
  unfold bind at 1. cbn [recv_while_in_flight].
  change (nl_sock_err (set_nl_sock_err 1 th) >? 0) with true. cbv iota.
  unfold bind at 1. rewrite Hp.
  rewrite (recv_while_in_flight_done rest (set_nl_sock_err e th))
    by (destruct th; exact He).
  rewrite run_bind_get, run_ret. destruct th. reflexivity.
Qed.

Lemma set_option_value_sends : forall x opt_name data opt_type nla_type th,
  (opt_type = TEAM_OPTION_TYPE_U32 /\ nla_type = NLA_U32 \/
   opt_type = TEAM_OPTION_TYPE_STRING /\ nla_type = NLA_STRING) ->
  nlmsg_alloc_ok x = true ->
  nla_put_ok x = true ->
  set_option_value x opt_name data opt_type th
  = send_and_recv x (option_set_request th opt_name nla_type data) None th.
Proof.
  intros x opt_name data opt_type nla_type th Hty Ha Hp.
  unfold set_option_value. rewrite Ha, Hp.
  destruct Hty as [[-> ->]|[-> ->]];
    [ change (TEAM_OPTION_TYPE_U32 =? TEAM_OPTION_TYPE_U32) with true
    | change (TEAM_OPTION_TYPE_STRING =? TEAM_OPTION_TYPE_U32) with false;
      change (TEAM_OPTION_TYPE_STRING =? TEAM_OPTION_TYPE_STRING) with true ];
    cbv iota; cbn [negb]; rewrite run_bind_get; reflexivity.
Qed.

(** X5.  With the reply callbacks of [team_init] installed, an option-set
    request that is built and sent returns what the kernel answers: 0 when
    the first item of the reply is an acknowledgement, and the error code
    itself when the reply is an error that comes alone in its pass.  One
    request is sent and only [nl_sock_err] changes, to the value returned. *)
Theorem setter_returns_kernel_answer :
  forall x th opt_name data opt_type nla_type d more rest,
  (opt_type = TEAM_OPTION_TYPE_U32 /\ nla_type = NLA_U32 \/
   opt_type = TEAM_OPTION_TYPE_STRING /\ nla_type = NLA_STRING) ->
  nlmsg_alloc_ok x = true ->
  nla_put_ok x = true ->
  0 <= nl_send_result x ->
  cb_ack (th_nl_sock th) = true ->
  cb_err (th_nl_sock th) = true ->
  (item d = ItemAck ->
   replies x = (d :: more) :: rest ->
   set_option_value x opt_name data opt_type th
   = (Ret 0, set_nl_sock_err 0 th,
      [Send (option_set_request th opt_name nla_type data)])) /\
  (forall e,
     e <= 0 ->
     item d = ItemError e ->
     replies x = [d] :: rest ->
     set_option_value x opt_name data opt_type th
     = (Ret e, set_nl_sock_err e th,
        [Send (option_set_request th opt_name nla_type data)])).
Proof.
  intros x th opt_name data opt_type nla_type d more rest Hty Ha Hp Hs Hack Herr.
  rewrite (set_option_value_sends x opt_name data opt_type nla_type th Hty Ha Hp).
  split.
  - intros Hd Hr.
    apply (send_and_recv_answer x _ th (d :: more) rest 0 Hs Hr); [|lia].
    rewrite ack_ends_pass by (destruct th; assumption).
    destruct th. reflexivity.
  - intros e He Hd Hr.
    apply (send_and_recv_answer x _ th [d] rest e Hs Hr); [|exact He].
    rewrite (error_alone_in_pass d e) by (destruct th; assumption).
    destruct th. reflexivity.
Qed.

Lemma setter_returns_kernel_answer_witness :
  set_option_value exchange_acked "activeport" (DataU32 12)
    TEAM_OPTION_TYPE_U32 sample_handle
  = (Ret 0, set_nl_sock_err 0 sample_handle,
     [Send (option_set_request sample_handle "activeport" NLA_U32 (DataU32 12))])
  /\
  set_option_value exchange_refused "activeport" (DataU32 12)
    TEAM_OPTION_TYPE_U32 sample_handle
  = (Ret (-19), set_nl_sock_err (-19) sample_handle,
     [Send (option_set_request sample_handle "activeport" NLA_U32 (DataU32 12))]).
Proof.
  split.
  - refine (proj1 (setter_returns_kernel_answer exchange_acked sample_handle
              "activeport" (DataU32 12) TEAM_OPTION_TYPE_U32 NLA_U32
              (deliver ItemAck) [] [] _ _ _ _ _ _) _ _);
      first [ left; split; reflexivity | reflexivity
            | vm_compute; discriminate ].
  - refine (proj2 (setter_returns_kernel_answer exchange_refused sample_handle
              "activeport" (DataU32 12) TEAM_OPTION_TYPE_U32 NLA_U32
              (deliver (ItemError (-19))) [] [] _ _ _ _ _ _) (-19) _ _ _);
      first [ left; split; reflexivity | reflexivity
            | vm_compute; discriminate ].
Defined.

(** ** The select loop *)

Lemma team_process_event_calls_le_1 : forall arrived th addr,
  registry_ok th ->
  (calls addr (trace_of (team_process_event arrived th)) <= 1)%nat.
Proof.
  intros arrived th addr Hok. rewrite run_team_process_event.
  pose proof (nl_recvmsgs_default_prints EventSock arrived th) as Hp.
  pose proof (same_registry_nl_recvmsgs_default EventSock arrived th) as Hs.
  destruct (nl_recvmsgs_default EventSock arrived th) as [[o th1] t1].
  unfold trace_of, handle_of in *. cbn [fst snd] in *.
  assert (H0 : calls addr t1 = 0%nat) by (apply prints_no_calls; exact Hp).
  destruct o as [u| |]; cbn [snd]; try lia.
  rewrite calls_app, H0. unfold sweep_calls. simpl.
  apply calls_fire_le_1. unfold same_registry, registry in Hs.
  rewrite Hs. exact Hok.
Qed.

(** X10.  [team_check_events] calls a handler at most once for every round
    in which the event socket was readable: with distinct addresses in the
    registry, the calls of one handler during the whole loop number at most
    the rounds, however many messages each round drained. *)
Theorem check_events_calls_once_per_round : forall readable th addr,
  registry_ok th ->
  (calls addr (trace_of (team_check_events readable th))
   <= List.length readable)%nat.
Proof.
  induction readable as [|arrived rest IH]; intros th addr Hok;
    cbn [team_check_events List.length].
  - unfold trace_of. rewrite run_ret. cbn [snd calls]. lia.
  - unfold trace_of. rewrite run_bind.
    pose proof (team_process_event_calls_le_1 arrived th addr Hok) as H1.
    pose proof (same_registry_team_process_event arrived th) as Hs.
    unfold trace_of, handle_of in *.
    destruct (team_process_event arrived th) as [[[[]| |] th1] t1];
      cbn [fst snd] in *; try lia.
    rewrite calls_app.
    assert (Hok1 : registry_ok th1).
    { unfold registry_ok. unfold same_registry in Hs. rewrite Hs. exact Hok. }
    specialize (IH th1 addr Hok1). lia.
Qed.

Lemma check_events_calls_once_per_round_witness :
  (calls 1 (trace_of (team_check_events [two_port_messages; two_port_messages]
                        sample_with_handlers)) <= 2)%nat.
Proof.
  apply (check_events_calls_once_per_round
           [two_port_messages; two_port_messages] sample_with_handlers 1).
  vm_compute. repeat constructor; simpl; intuition discriminate.
Defined.

(** ** What [team_init] binds *)

Lemma same_binding_refl : forall th, same_binding th th.
Proof. intros th. unfold same_binding. repeat split. Qed.

Lemma same_binding_trans : forall a b c,
  same_binding a b -> same_binding b c -> same_binding a c.
Proof.
  unfold same_binding. intros a b c H1 H2.
  destruct H1 as [? [? [? [? [? ?]]]]]. destruct H2 as [? [? [? [? [? ?]]]]].
  repeat split; congruence.
Qed.

Ltac same_binding_side :=
  first [ exact same_binding_refl
        | exact same_binding_trans
        | intros; unfold same_binding; simpl; repeat split; reflexivity ].

Lemma same_binding_get_port_list : forall x, frames same_binding (get_port_list x).
Proof. intros x. apply stable_get_port_list; same_binding_side. Qed.

Lemma same_binding_get_options : forall x, frames same_binding (get_options x).
Proof. intros x. apply stable_get_options; same_binding_side. Qed.

Lemma same_binding_run_call : forall c,
  not_init c -> frames same_binding (run_call c).
Proof.
  intros [w i|arrived|readable|ok h|h|x n v|x n s] Hc; cbn [run_call].
  - destruct Hc.
  - apply stable_team_process_event; same_binding_side.
  - apply stable_team_check_events; same_binding_side.
  - intros th. unfold handle_of. rewrite run_bind.
    rewrite run_team_change_handler_register.
    destruct (present (find_change_handler th h));
      [apply same_binding_refl|].
    destruct ok; cbn [negb fst snd]; [|apply same_binding_refl].
    unfold same_binding. simpl. repeat split; reflexivity.
  - intros th. rewrite run_team_change_handler_unregister.
    unfold handle_of. cbn [fst snd].
    destruct (find_change_handler th h); [|apply same_binding_refl].
    unfold same_binding. simpl. repeat split; reflexivity.
  - apply (frames_bind _ same_binding_trans);
      [|intro; apply (frames_ret _ same_binding_refl)].
    apply stable_set_option_value; same_binding_side.
  - apply (frames_bind _ same_binding_trans);
      [|intro; apply (frames_ret _ same_binding_refl)].
    apply stable_set_option_value; same_binding_side.
Qed.

(** The steps of [team_init] that a return of 0 shows to have succeeded. *)
Lemma team_init_zero_steps : forall w i th,
  result_of (team_init w i th) = Ret 0 ->
  i <> 0 /\ connected w /\ resolved w /\ subscribed w.
Proof.
  intros w i th H. unfold team_init in H.
  destruct (Z.eqb_spec i 0) as [Hi|Hi];
    [exfalso; vm_compute in H; discriminate H|].
  split; [exact Hi|].
  unfold result_of in H. rewrite !run_bind_modify in H.
  destruct (Z.eqb_spec (genl_connect_result w) 0) as [Hc1|Hc1]; cbn [negb] in H;
    [|exfalso; vm_compute in H; discriminate H].
  destruct (Z.eqb_spec (genl_connect_event_result w) 0) as [Hc2|Hc2];
    cbn [negb] in H; [|exfalso; vm_compute in H; discriminate H].
  rewrite run_bind_modify in H.
  destruct (Z.ltb_spec (genl_ctrl_resolve_result w) 0) as [Hr1|Hr1];
    [exfalso; vm_compute in H; discriminate H|].
  cbv zeta in H.
  destruct (Z.ltb_spec (genl_ctrl_resolve_grp_result w) 0) as [Hr2|Hr2];
    [exfalso; vm_compute in H; discriminate H|].
  destruct (Z.ltb_spec (nl_socket_add_membership_result w) 0) as [Hs|Hs];
    [exfalso; vm_compute in H; discriminate H|].
  unfold connected, resolved, subscribed. auto.
Qed.

(** X11.  [team_init] returns 0 only when every step succeeded: the ifindex
    is not 0, both sockets connected, the family and the multicast group
    resolved, the membership was added and both refreshes returned 0.  The
    handle it leaves is then bound: it carries the ifindex passed and the
    family resolved, the event socket has the event callback with sequence
    checking off, and the command socket has the error, finish and
    acknowledgement callbacks. *)
Theorem team_init_success_binds_handle : forall w i th,
  result_of (team_init w i th) = Ret 0 ->
  (i <> 0 /\ connected w /\ resolved w /\ subscribed w /\
   result_of (init_ports_done w i th) = Ret 0 /\
   result_of (init_options_done w i th) = Ret 0) /\
  ifindex (handle_of (team_init w i th)) = i /\
  family (handle_of (team_init w i th)) = genl_ctrl_resolve_result w /\
  cb_valid (th_nl_sock_event (handle_of (team_init w i th))) = ValidEvent /\
  seq_check (th_nl_sock_event (handle_of (team_init w i th))) = false /\
  cb_err (th_nl_sock (handle_of (team_init w i th))) = true /\
  cb_finish (th_nl_sock (handle_of (team_init w i th))) = true /\
  cb_ack (th_nl_sock (handle_of (team_init w i th))) = true.
Proof.
  intros w i th H.
  destruct (team_init_zero_steps w i th H) as [Hi [Hc [Hr Hs]]].
  rewrite (run_team_init_refreshes w i th Hi Hc Hr Hs) in *.
  unfold init_options_done, init_ports_done.
  pose proof (same_binding_get_port_list (port_list_exchange w)
                (init_setup w i th)) as B1.
  unfold result_of, handle_of in *. rewrite run_bind in *.
  destruct (get_port_list (port_list_exchange w) (init_setup w i th))
    as [[[err1| |] th1] t1]; cbn [fst snd] in *; try discriminate H.
  destruct (Z.eqb_spec err1 0) as [->|Hne]; cbn [negb] in *;
    [|exfalso; vm_compute in H; discriminate H].
  pose proof (same_binding_get_options (options_exchange w) th1) as B2.
  unfold handle_of in B2. rewrite run_bind in *.
  destruct (get_options (options_exchange w) th1)
    as [[[err2| |] th2] t2]; cbn [fst snd] in *; try discriminate H.
  destruct (Z.eqb_spec err2 0) as [->|Hne]; cbn [negb] in *;
    [|exfalso; vm_compute in H; discriminate H].
  rewrite run_ret. unfold result_of, handle_of, trace_of. cbn [fst snd].
  split; [repeat split; solve [assumption | apply Hc | apply Hr]|].
  pose proof (same_binding_trans _ _ _ B1 B2) as B.
  destruct B as [E1 [E2 [E3 [E4 [E5 E6]]]]].
  rewrite E1, E2, E3, E4, E5, E6. repeat split; reflexivity.
Qed.

Lemma team_init_success_binds_handle_witness :
  ifindex (handle_of (team_init sample_init_env 7 fresh_handle)) = 7 /\
  cb_valid (th_nl_sock_event
              (handle_of (team_init sample_init_env 7 fresh_handle)))
  = ValidEvent.
Proof.
  destruct (team_init_success_binds_handle sample_init_env 7 fresh_handle)
    as [_ [H1 [_ [H2 _]]]].
  - vm_compute. reflexivity.
  - split; [exact H1|exact H2].
Defined.

(** X12.  No call other than [team_init] rebinds the handle: event pumps,
    registrations and setters, whatever the kernel sends, leave the
    ifindex, the family, the event socket with its callback and the three
    reply callbacks of the command socket as they were. *)
Theorem binding_survives_calls : forall cs th,
  Forall not_init cs ->
  same_binding th (handle_of (run_calls cs th)).
Proof.
  intros cs th H. revert th. induction H as [|c cs Hc _ IH]; intros th;
    cbn [run_calls].
  - apply same_binding_refl.
  - revert th. apply (frames_bind _ same_binding_trans).
    + apply same_binding_run_call. exact Hc.
    + intros _. exact IH.
Qed.

Lemma binding_survives_calls_witness :
  same_binding sample_with_handlers
    (handle_of (run_calls [CallProcessEvent two_port_messages;
                           CallSetU32 exchange_acked "activeport" 12]
                  sample_with_handlers)).
Proof.
  apply (binding_survives_calls
           [CallProcessEvent two_port_messages;
            CallSetU32 exchange_acked "activeport" 12] sample_with_handlers).
  repeat constructor.
Defined.

(** ** A synchronous refresh of the port list, end to end *)

Lemma run_get_port_list_refresh : forall x th d ack msg ports rest,
  cb_ack (th_nl_sock th) = true ->
  nlmsg_alloc_ok x = true ->
  nla_put_ok x = true ->
  0 <= nl_send_result x ->
  replies x = [d; ack] :: rest ->
  item d = ItemValid msg ->
  port_refresh th (uninit_u32 d) (heap d) msg ports ->
  item ack = ItemAck ->
  exists th3,
    port_list th3 = ports /\
    option_list th3 = option_list th /\
    change_handler_list th3
    = map (mark_item TEAM_PORT_CHANGE) (change_handler_list th) /\
    exists req,
      get_port_list x th
      = (Ret 0, swept TEAM_PORT_CHANGE th3,
         Send req :: sweep_calls TEAM_PORT_CHANGE th3).
Proof.
  intros x th d ack msg ports rest Hack Ha Hp Hs Hr Hd Hpr Hk.
  set (th0 := set_nl_sock (set_cb_valid ValidGetPortList (th_nl_sock th))
                (set_nl_sock_err 1 th)).
  set (th3 := set_nl_sock_err 0 (port_refreshed ports th0)).
  exists th3. split; [reflexivity|]. split; [reflexivity|].
  split; [reflexivity|].
  exists {| req_family := family th; req_cmd := TEAM_CMD_PORT_LIST_GET;
            req_team_ifindex := ifindex th; req_options := [] |}.
  assert (Hpass : nl_recvmsgs_default CmdSock [d; ack] th0 = (Ret tt, th3, [])).
  { cbn [nl_recvmsgs_default]. unfold nl_cb_call at 1.
    rewrite run_bind, run_bind_get. rewrite Hd.
    change (cb_valid (sock_of CmdSock th0)) with ValidGetPortList. cbv iota.
    rewrite (get_port_list_handler_refresh th0 (uninit_u32 d) (heap d) msg ports)
      by (apply (port_refresh_same_ifindex th); [reflexivity|exact Hpr]).
    cbn [fst snd]. change (NL_SKIP =? NL_STOP) with false. cbv iota.
    unfold result_of, handle_of, trace_of. rewrite run_bind.
    unfold nl_cb_call. rewrite run_bind_get. rewrite Hk.
    change (cb_ack (sock_of CmdSock (port_refreshed ports th0)))
      with (cb_ack (th_nl_sock th)).
    rewrite Hack. reflexivity. }
  assert (Hsr : send_and_recv x
                  {| req_family := family th; req_cmd := TEAM_CMD_PORT_LIST_GET;
                     req_team_ifindex := ifindex th; req_options := [] |}
                  (Some ValidGetPortList) th
                = (Ret 0, th3,
                   [Send {| req_family := family th;
                            req_cmd := TEAM_CMD_PORT_LIST_GET;
                            req_team_ifindex := ifindex th;
                            req_options := [] |}])).
  { unfold send_and_recv. cbv zeta.
    destruct (Z.ltb_spec (nl_send_result x) 0) as [Hn|_]; [lia|].
    rewrite Hr. unfold bind at 1. unfold emit at 1.
    unfold bind at 1. unfold modify at 1.
    unfold bind at 1. unfold modify at 1.
    change (set_nl_sock
              (set_cb_valid ValidGetPortList
                 (th_nl_sock (set_nl_sock_err 1 th)))
              (set_nl_sock_err 1 th)) with th0.
    unfold bind at 1. cbn [recv_while_in_flight].
    change (nl_sock_err th0 >? 0) with true. cbv iota.
    unfold bind at 1. rewrite Hpass.
    rewrite (recv_while_in_flight_done rest th3) by (simpl; lia).
    rewrite run_bind_get, run_ret. reflexivity. }
  unfold get_port_list. rewrite Ha, Hp. cbn [negb].
  rewrite run_bind_get, run_bind, Hsr. cbn [fst snd].
  change (negb (0 =? 0)) with false. cbv iota.
  unfold result_of, handle_of, trace_of.
  rewrite run_bind, run_check_call_change_handlers, run_ret.
  unfold result_of, handle_of, trace_of. cbn [fst snd app].
  rewrite app_nil_r. reflexivity.
Qed.

Lemma type_matches_class : forall C h,
  C <> TEAM_ALL_CHANGE ->
  type_matches C h = team_change_type_eqb (handler_type h) C.
Proof.
  intros C h HC. unfold type_matches.
  destruct C; try contradiction; reflexivity.
Qed.

(** X13.  A synchronous refresh of the port list, end to end: when the
    request is built and sent and the kernel answers with a port-list
    message for this team that decodes, followed by an acknowledgement,
    [get_port_list] returns 0, the cache holds the ports of the message and
    the option list is untouched, and during the call every registered
    handler that declares [TEAM_PORT_CHANGE] is called exactly once and no
    other registered handler is called. *)
Theorem port_list_sync_round_trip : forall x th d ack msg ports rest,
  registry_ok th ->
  cb_ack (th_nl_sock th) = true ->
  nlmsg_alloc_ok x = true ->
  nla_put_ok x = true ->
  0 <= nl_send_result x ->
  replies x = [d; ack] :: rest ->
  item d = ItemValid msg ->
  port_refresh th (uninit_u32 d) (heap d) msg ports ->
  item ack = ItemAck ->
  result_of (get_port_list x th) = Ret 0 /\
  port_list (handle_of (get_port_list x th)) = ports /\
  option_list (handle_of (get_port_list x th)) = option_list th /\
  forall it,
    In it (change_handler_list th) ->
    calls (addr_of it) (trace_of (get_port_list x th))
    = if team_change_type_eqb (handler_type (handler it)) TEAM_PORT_CHANGE
      then 1%nat else 0%nat.
Proof.
  intros x th d ack msg ports rest Hok Hack Ha Hp Hs Hr Hd Hpr Hk.
  destruct (run_get_port_list_refresh x th d ack msg ports rest
              Hack Ha Hp Hs Hr Hd Hpr Hk)
    as [th3 [Hports [Hopts [Hreg [req Hrun]]]]].
  rewrite Hrun. unfold result_of, handle_of, trace_of. cbn [fst snd].
  split; [reflexivity|]. split; [exact Hports|]. split; [exact Hopts|].
  intros it Hin. cbn [calls].
  assert (Hok3 : registry_ok th3).
  { unfold registry_ok, registry. rewrite Hreg, map_addr_of_mark. exact Hok. }
  assert (Hin3 : In (mark_item TEAM_PORT_CHANGE it) (change_handler_list th3)).
  { rewrite Hreg. apply in_map. exact Hin. }
  pose proof (sweep_calls_count TEAM_PORT_CHANGE th3 _ Hok3 Hin3) as Hc.
  rewrite addr_of_mark_item in Hc. rewrite Hc.
  unfold fires. rewrite handler_mark_item.
  rewrite (type_matches_class TEAM_PORT_CHANGE) by discriminate.
  unfold mark_item.
  rewrite (type_matches_class TEAM_PORT_CHANGE) by discriminate.
  destruct (team_change_type_eqb (handler_type (handler it)) TEAM_PORT_CHANGE);
    reflexivity.
Qed.

Lemma port_list_sync_round_trip_witness :
  result_of (get_port_list exchange_sample_ports sample_with_handlers) = Ret 0 /\
  port_list (handle_of (get_port_list exchange_sample_ports sample_with_handlers))
  = [sample_port_11; sample_port_12].
Proof.
  destruct (port_list_sync_round_trip exchange_sample_ports sample_with_handlers
              (deliver (ItemValid sample_ports_msg)) (deliver ItemAck)
              sample_ports_msg [sample_port_11; sample_port_12] [])
    as [H1 [H2 _]];
    try solve [vm_compute; reflexivity | vm_compute; discriminate].
  - vm_compute. repeat constructor; simpl; intuition discriminate.
  - split; [reflexivity|]. eexists. split; [reflexivity|].
    split; [reflexivity|]. intros k Hk. vm_compute. destruct k; reflexivity.
  - split; [exact H1|exact H2].
Defined.

(** ** Calls need a mark *)

Lemma calls_none_fire : forall a (f : change_handler_item -> bool) l,
  (forall it, In it l -> addr_of it = a -> f it = false) ->
  calls a (map call_of (filter f l)) = 0%nat.
Proof.
  intros a f l. induction l as [|it l IH]; intros H; [reflexivity|].
  cbn [filter]. destruct (f it) eqn:Ef.
  - cbn [map calls call_of]. destruct (Nat.eqb_spec (addr_of it) a) as [E|E].
    + rewrite (H it (or_introl eq_refl) E) in Ef. discriminate.
    + apply IH. intros it' Hin. apply H. right. exact Hin.
  - apply IH. intros it' Hin. apply H. right. exact Hin.
Qed.

Lemma unmarked_sweep : forall C a type th,
  unmarked C a th ->
  unmarked C a (swept type th) /\ calls a (sweep_calls type th) = 0%nat.
Proof.
  intros C a type th H. split.
  - intros it' Hin Ha. unfold swept in Hin. simpl in Hin.
    apply in_map_iff in Hin. destruct Hin as [it [<- Hin]].
    destruct (fires type it); [|apply (H it Hin Ha)].
    destruct (H it Hin Ha) as [Ht _]. split; [exact Ht|reflexivity].
  - apply calls_none_fire. intros it Hin Ha. unfold fires.
    destruct (H it Hin Ha) as [_ ->]. apply andb_false_r.
Qed.

Lemma unmarked_mark : forall C C' a l th,
  C' <> TEAM_ALL_CHANGE ->
  C <> C' ->
  unmarked C a th ->
  unmarked C a (set_change_handler_list
                  (map (mark_item C') (change_handler_list th)) l).
Proof.
  intros C C' a l th HC' Hne H it' Hin Ha. destruct l. simpl in Hin.
  apply in_map_iff in Hin. destruct Hin as [it [<- Hin]].
  rewrite addr_of_mark_item in Ha. destruct (H it Hin Ha) as [Ht Hc].
  unfold mark_item. rewrite (type_matches_class C') by exact HC'.
  rewrite Ht.
  destruct C, C'; try contradiction; simpl; try (split; assumption);
    exfalso; apply Hne; reflexivity.
Qed.

Lemma unmarked_nl_cb_call : forall C a d th,
  cb_valid (th_nl_sock_event th) = ValidEvent ->
  unmarked C a th ->
  (forall msg, item d = ItemValid msg -> class_of_cmd (genl_cmd msg) <> Some C) ->
  unmarked C a (handle_of (nl_cb_call EventSock d th)) /\
  th_nl_sock_event (handle_of (nl_cb_call EventSock d th)) = th_nl_sock_event th.
Proof.
  intros C a d th Hcb H Hd. unfold nl_cb_call. rewrite run_bind_get.
  cbn [sock_of].
  destruct (item d) as [msg| | |e].
  - rewrite Hcb. specialize (Hd msg eq_refl). unfold event_handler.
    destruct (genl_cmd msg); cbn [class_of_cmd] in Hd;
      try (split; [exact H|reflexivity]).
    + destruct (get_options_handler_cases th (uninit_u32 d) (heap d) msg)
        as [[t [opts [_ E]]]|[_ [o [t [E _]]]]]; rewrite E;
        unfold handle_of; cbn [fst snd]; [|split; [exact H|reflexivity]].
      split; [|reflexivity]. unfold options_refreshed.
      apply (unmarked_mark C TEAM_OPTION_CHANGE a
               (set_option_list opts th) th); [discriminate| |exact H].
      intros ->. apply Hd. reflexivity.
    + destruct (get_port_list_handler_cases th (uninit_u32 d) (heap d) msg)
        as [[ports [_ E]]|[_ [t [E _]]]]; rewrite E;
        unfold handle_of; cbn [fst snd]; [|split; [exact H|reflexivity]].
      split; [|reflexivity]. unfold port_refreshed.
      apply (unmarked_mark C TEAM_PORT_CHANGE a
               (set_port_list ports th) th); [discriminate| |exact H].
      intros ->. apply Hd. reflexivity.
  - destruct (cb_ack (th_nl_sock_event th)); split;
      first [exact H|reflexivity].
  - destruct (cb_finish (th_nl_sock_event th)); split;
      first [exact H|reflexivity].
  - destruct (cb_err (th_nl_sock_event th)); split;
      first [exact H|reflexivity].
Qed.

Lemma unmarked_nl_recvmsgs_default : forall C a arrived th,
  cb_valid (th_nl_sock_event th) = ValidEvent ->
  unmarked C a th ->
  no_refresh_of C arrived ->
  unmarked C a (handle_of (nl_recvmsgs_default EventSock arrived th)).
Proof.
  intros C a arrived. induction arrived as [|d rest IH]; intros th Hcb H Hn;
    cbn [nl_recvmsgs_default].
  - exact H.
  - unfold handle_of. rewrite run_bind.
    destruct (unmarked_nl_cb_call C a d th Hcb H) as [H1 E1].
    { intros msg Hd. apply (Hn d msg); [left; reflexivity|exact Hd]. }
    unfold handle_of in *.
    destruct (nl_cb_call EventSock d th) as [[[v| |] th1] t1];
      cbn [fst snd] in *; try exact H1.
    destruct (v =? NL_STOP); [exact H1|].
    apply IH; [rewrite E1; exact Hcb|exact H1|].
    intros d' msg Hin. apply Hn. right. exact Hin.
Qed.

(** X7.  The event pump calls a handler only for a change of the class it
    declares: when no registration at an address is pending, every
    registration there declares class [C], and none of the messages a call
    of [team_process_event] drains carries the command that refreshes
    class [C], the handler at that address is not called. *)
Theorem event_pump_calls_need_a_refresh : forall C a arrived th,
  cb_valid (th_nl_sock_event th) = ValidEvent ->
  unmarked C a th ->
  no_refresh_of C arrived ->
  calls a (trace_of (team_process_event arrived th)) = 0%nat.
Proof.
  intros C a arrived th Hcb H Hn. rewrite run_team_process_event.
  pose proof (nl_recvmsgs_default_prints EventSock arrived th) as Hp.
  pose proof (unmarked_nl_recvmsgs_default C a arrived th Hcb H Hn) as Hu.
  unfold trace_of, handle_of in *.
  destruct (nl_recvmsgs_default EventSock arrived th) as [[[u| |] th1] t1];
    cbn [fst snd] in *; try (apply prints_no_calls; exact Hp).
  rewrite calls_app. rewrite (prints_no_calls t1 a Hp).
  apply (unmarked_sweep C a TEAM_ALL_CHANGE th1 Hu).
Qed.

Lemma event_pump_calls_need_a_refresh_witness :
  calls 3 (trace_of (team_process_event two_port_messages
                       (handle_of (team_change_handler_register true
                                     (option_handler 3) sample_with_handlers))))
  = 0%nat.
Proof.
  apply (event_pump_calls_need_a_refresh TEAM_OPTION_CHANGE 3 two_port_messages).
  - reflexivity.
  - intros it Hin Ha. vm_compute in Hin.
    destruct Hin as [<-|[<-|[<-|[]]]]; try discriminate Ha.
    split; reflexivity.
  - intros d msg Hin Hd. vm_compute in Hin.
    destruct Hin as [<-|[<-|[]]]; vm_compute in Hd; inversion Hd; subst;
      discriminate.
Defined.

Lemma list_del_incl : forall (f : change_handler_item -> bool) l it,
  In it (list_del f l) -> In it l.
Proof.
  intros f l it. induction l as [|x l IH]; simpl; [tauto|].
  destruct (f x); [tauto|]. intros [E|H]; [left; exact E|right; apply IH, H].
Qed.

Ltac unmarked_all_side a :=
  first [ reflexivity
        | exact Logic.I
        | intros; reflexivity
        | intros t1 t2 H1 H2; rewrite calls_app, H1, H2; reflexivity
        | intros; assumption
        | let H := fresh in
          intros ? ? H;
          apply (unmarked_mark TEAM_ALL_CHANGE TEAM_PORT_CHANGE a);
          [discriminate|discriminate|exact H]
        | let H := fresh in
          intros ? ? ? ? ? _ H;
          apply (unmarked_mark TEAM_ALL_CHANGE TEAM_OPTION_CHANGE a);
          [discriminate|discriminate|exact H]
        | let H := fresh in
          intros ? ? _ H; apply unmarked_sweep; exact H ].

Lemma unmarked_all_run_call : forall a c,
  registers_only TEAM_ALL_CHANGE a c ->
  holds (unmarked TEAM_ALL_CHANGE a) (fun t => calls a t = 0%nat) (run_call c).
Proof.
  intros a c Hc.
  destruct c as [w i|arrived|readable|ok h|h|x n v|x n s]; cbn [run_call].
  - apply holds_bind;
      [unmarked_all_side a| |intro; apply holds_ret; unmarked_all_side a].
    apply (holds_team_init _ _ (fun _ => True)); unmarked_all_side a.
  - apply (holds_team_process_event _ _ (fun _ => True)); unmarked_all_side a.
  - apply (holds_team_check_events _ _ (fun _ => True)); unmarked_all_side a.
  - intros th H. unfold handle_of, trace_of. rewrite run_bind.
    rewrite run_team_change_handler_register.
    destruct (present (find_change_handler th h)); [split; auto|].
    destruct ok; cbn [negb fst snd]; [|split; auto].
    split; [|reflexivity]. intros it Hin Ha. simpl in Hin.
    destruct Hin as [<-|Hin]; [|exact (H it Hin Ha)].
    split; [exact (Hc Ha)|reflexivity].
  - intros th H. rewrite run_team_change_handler_unregister.
    unfold handle_of, trace_of. cbn [fst snd]. split; [|reflexivity].
    destruct (find_change_handler th h); [|exact H].
    intros it Hin Ha. simpl in Hin. apply list_del_incl in Hin.
    exact (H it Hin Ha).
  - apply holds_bind;
      [unmarked_all_side a| |intro; apply holds_ret; unmarked_all_side a].
    apply holds_set_option_value; unmarked_all_side a.
  - apply holds_bind;
      [unmarked_all_side a| |intro; apply holds_ret; unmarked_all_side a].
    apply holds_set_option_value; unmarked_all_side a.
Qed.

(** X14.  A handler that declares [TEAM_ALL_CHANGE] is never called.  The
    decoders mark registrations for [TEAM_PORT_CHANGE] and
    [TEAM_OPTION_CHANGE] only, and a mark for one of these reaches the
    registrations that declare that same class; so when the registrations
    at an address declare [TEAM_ALL_CHANGE] and none is pending, no sequence
    of public calls that registers nothing else at that address calls the
    handler there. *)
Theorem all_class_handler_never_called : forall a cs th,
  unmarked TEAM_ALL_CHANGE a th ->
  Forall (registers_only TEAM_ALL_CHANGE a) cs ->
  calls a (trace_of (run_calls cs th)) = 0%nat.
Proof.
  intros a cs th H Hcs.
  assert (Hh : holds (unmarked TEAM_ALL_CHANGE a) (fun t => calls a t = 0%nat)
                     (run_calls cs)).
  { induction Hcs as [|c cs Hc _ IH]; cbn [run_calls].
    - apply holds_ret. reflexivity.
    - apply holds_bind; [unmarked_all_side a| |intro; exact IH].
      apply unmarked_all_run_call. exact Hc. }
  exact (proj2 (Hh th H)).
Qed.

Lemma all_class_handler_never_called_witness :
  calls 2 (trace_of (run_calls
     [CallProcessEvent two_port_messages;
      CallInit sample_init_env 7;
      CallProcessEvent two_port_messages] sample_with_handlers)) = 0%nat.
Proof.
  apply (all_class_handler_never_called 2).
  - intros it Hin Ha. vm_compute in Hin.
    destruct Hin as [<-|[<-|[]]]; try discriminate Ha. split; reflexivity.
  - repeat constructor.
Defined.

(** ** Setting an option and reading it back *)

Ltac prints_side :=
  first [ solve [constructor]
        | exact prints_app
        | solve [intros; repeat constructor; eexists; reflexivity]
        | intros; exact Logic.I ].

Lemma recv_while_in_flight_prints : forall passes th,
  Forall is_printf (trace_of (recv_while_in_flight passes th)).
Proof.
  intros passes th.
  assert (Hh : holds (fun _ => True) (Forall is_printf)
                     (recv_while_in_flight passes)).
  { apply holds_recv_while_in_flight; prints_side. }
  exact (proj2 (Hh th Logic.I)).
Qed.

(** What an option-set call sends is the request built from its
    arguments, and it is all it sends. *)
Lemma set_option_value_request : forall x opt_name data opt_type nla_type r th,
  (opt_type = TEAM_OPTION_TYPE_U32 /\ nla_type = NLA_U32 \/
   opt_type = TEAM_OPTION_TYPE_STRING /\ nla_type = NLA_STRING) ->
  In (Send r) (trace_of (set_option_value x opt_name data opt_type th)) ->
  r = option_set_request th opt_name nla_type data.
Proof.
  intros x opt_name data opt_type nla_type r th Hty.
  assert (Hrun : set_option_value x opt_name data opt_type th
    = (if negb (nlmsg_alloc_ok x) then ret (- ENOMEM) else
       if negb (nla_put_ok x) then ret (- ENOBUFS) else
       send_and_recv x (option_set_request th opt_name nla_type data) None) th).
  { unfold set_option_value.
    destruct Hty as [[-> ->]|[-> ->]];
      [ change (TEAM_OPTION_TYPE_U32 =? TEAM_OPTION_TYPE_U32) with true
      | change (TEAM_OPTION_TYPE_STRING =? TEAM_OPTION_TYPE_U32) with false;
        change (TEAM_OPTION_TYPE_STRING =? TEAM_OPTION_TYPE_STRING) with true ];
      cbv iota;
      (destruct (nlmsg_alloc_ok x); [|reflexivity]);
      (destruct (nla_put_ok x); [|reflexivity]);
      cbn [negb]; rewrite run_bind_get; reflexivity. }
  rewrite Hrun.
  destruct (nlmsg_alloc_ok x); cbn [negb]; [|intros []].
  destruct (nla_put_ok x); cbn [negb]; [|intros []].
  unfold send_and_recv. cbv zeta.
  destruct (nl_send_result x <? 0); [intros []|].
  unfold trace_of. rewrite run_bind. unfold emit at 1. cbn [fst snd].
  rewrite run_bind_modify, run_bind, run_ret. cbn [fst snd app].
  rewrite run_bind.
  pose proof (recv_while_in_flight_prints (replies x) (set_nl_sock_err 1 th))
    as Hp. unfold trace_of in Hp.
  destruct (recv_while_in_flight (replies x) (set_nl_sock_err 1 th))
    as [[[[]| |] th2] t2]; cbn [fst snd] in *.
  - rewrite run_bind_get, run_ret. cbn [snd]. rewrite app_nil_r.
    intros [E|Hin]; [inversion E; reflexivity|].
    rewrite Forall_forall in Hp. destruct (Hp _ Hin) as [m Hm]. discriminate.
  - intros [E|Hin]; [inversion E; reflexivity|].
    rewrite Forall_forall in Hp. destruct (Hp _ Hin) as [m Hm]. discriminate.
  - intros [E|Hin]; [inversion E; reflexivity|].
    rewrite Forall_forall in Hp. destruct (Hp _ Hin) as [m Hm]. discriminate.
Qed.

(** The event pump on one option-list message that carries one readable
    entry of a known type. *)
Lemma event_installs_entry : forall th d msg a o,
  cb_valid (th_nl_sock_event th) = ValidEvent ->
  item d = ItemValid msg ->
  genl_cmd msg = TEAM_CMD_OPTIONS_GET ->
  team_ifindex_of (uninit_u32 d) msg = ifindex th ->
  TEAM_ATTR_LIST_OPTION msg = Some [Some a] ->
  wellformed (Some a) = true ->
  option_of_entry a = Some o ->
  heap_allows 3 (heap d) ->
  option_list (handle_of (team_process_event [d] th)) = [o].
Proof.
  intros th d msg a o Hcb Hd Hcmd Hi Hl Hw Ho Hh.
  destruct (options_loop_complete [Some a] (heap d) []) as [t Hloop].
  { cbn [forallb]. rewrite Hw. reflexivity. }
  { exact Hh. }
  assert (Hc : accept [] (candidates [Some a]) = [o]).
  { rewrite accept_from_nil. unfold candidates. cbn [flat_map].
    rewrite Ho. reflexivity. }
  rewrite Hc in Hloop.
  assert (Hr : option_refresh th (uninit_u32 d) (heap d) msg t [o]).
  { split; [exact Hi|]. exists [Some a]. split; [exact Hl|exact Hloop]. }
  rewrite run_team_process_event. cbn [nl_recvmsgs_default].
  rewrite run_bind. unfold nl_cb_call. rewrite run_bind_get. rewrite Hd.
  cbn [sock_of]. rewrite Hcb. unfold event_handler. rewrite Hcmd.
  rewrite (get_options_handler_refresh th _ _ _ _ _ Hr).
  change (NL_SKIP =? NL_STOP) with false. cbv iota. rewrite run_ret.
  reflexivity.
Qed.

Lemma echo_is_for_this_team : forall th r msg a uninit,
  req_team_ifindex r = ifindex th ->
  echoes r msg a ->
  team_ifindex_of uninit msg = ifindex th.
Proof.
  intros th r msg a uninit Hr [[i [Hi Hv]] _]. unfold team_ifindex_of.
  rewrite Hi, Hv. exact Hr.
Qed.

(** X15.  An option set through the library reads back through it: when
    the kernel echoes the request a setter sent as an option-list event,
    carrying the name, the type code and the data the request carried, and
    the event pump drains it, the getter of the same type finds the option
    by the name that was set and returns the value that was set.  This
    holds for [team_set_option_value_by_name_u32] with
    [team_get_option_value_by_name_u32], for the string pair, and for the
    two pairs with a fixed name: [team_set_active_port] with
    [team_get_active_port] and [team_set_mode_name] with
    [team_get_mode_name]. *)
Theorem set_then_event_then_get : forall x th opt_name r d msg a v,
  cb_valid (th_nl_sock_event th) = ValidEvent ->
  item d = ItemValid msg ->
  genl_cmd msg = TEAM_CMD_OPTIONS_GET ->
  heap_allows 3 (heap d) ->
  echoes r msg a ->
  (forall val,
     In (Send r)
        (trace_of (team_set_option_value_by_name_u32 x opt_name val th)) ->
     team_get_option_value_by_name_u32 v
       (handle_of (team_process_event [d]
          (handle_of (team_set_option_value_by_name_u32 x opt_name val th))))
       opt_name
     = (0, Some val)) /\
  (forall str,
     In (Send r)
        (trace_of (team_set_option_value_by_name_string x opt_name str th)) ->
     team_get_option_value_by_name_string v
       (handle_of (team_process_event [d]
          (handle_of (team_set_option_value_by_name_string x opt_name str th))))
       opt_name
     = (0, Some str)) /\
  (forall ifindex,
     In (Send r) (trace_of (team_set_active_port x ifindex th)) ->
     team_get_active_port v
       (handle_of (team_process_event [d]
          (handle_of (team_set_active_port x ifindex th))))
     = (0, Some ifindex)) /\
  (forall mode_name,
     In (Send r) (trace_of (team_set_mode_name x mode_name th)) ->
     team_get_mode_name v
       (handle_of (team_process_event [d]
          (handle_of (team_set_mode_name x mode_name th))))
     = (0, Some mode_name)).
Proof.
  intros x th name0 r d msg a v Hcb Hd Hcmd Hh He.
  assert (Hb : forall opt_name data opt_type,
             same_binding th
               (handle_of (set_option_value x opt_name data opt_type th))).
  { intros opt_name data opt_type.
    apply stable_set_option_value; same_binding_side. }
  assert (Hu32 : forall opt_name val,
     In (Send r)
        (trace_of (team_set_option_value_by_name_u32 x opt_name val th)) ->
     team_get_option_value_by_name_u32 v
       (handle_of (team_process_event [d]
          (handle_of (team_set_option_value_by_name_u32 x opt_name val th))))
       opt_name
     = (0, Some val)).
  { intros opt_name val Hs.
    unfold team_set_option_value_by_name_u32 in *.
      apply (set_option_value_request x opt_name (DataU32 val)
               TEAM_OPTION_TYPE_U32 NLA_U32) in Hs;
        [|left; split; reflexivity].
      destruct (Hb opt_name (DataU32 val) TEAM_OPTION_TYPE_U32) as [Ei [_ [Es _]]].
      set (th1 := handle_of (set_option_value x opt_name (DataU32 val)
                               TEAM_OPTION_TYPE_U32 th)) in *.
      pose proof He as [_ [Hl [name [code [data [na [ta [da
                          [Hro [Hn [Ht [Hdt [En [Ec Ed]]]]]]]]]]]]]].
      subst r. cbn [req_options option_set_request] in Hro.
      injection Hro as <- <- <-.
      unfold team_get_option_value_by_name_u32, team_get_option_by_name.
      rewrite (event_installs_entry th1 d msg a
                 {| option_type := TEAM_OPTION_TYPE_U32;
                    option_changed := present (TEAM_ATTR_OPTION_CHANGED a);
                    option_name := opt_name;
                    option_data_of := DataU32 val |}).
      + unfold __find_option. cbn [find option_name].
        rewrite String.eqb_refl. reflexivity.
      + rewrite Es. exact Hcb.
      + exact Hd.
      + exact Hcmd.
      + eapply echo_is_for_this_team; [|exact He]. symmetry. exact Ei.
      + exact Hl.
      + unfold wellformed. rewrite Hn, Ht, Hdt. reflexivity.
      + unfold option_of_entry. rewrite Hn, Ht, Hdt. cbv zeta. rewrite Ec.
        change (to_int NLA_U32 =? NLA_U32) with true. cbv iota.
        rewrite En, Ed. reflexivity.
      + exact Hh. }
  assert (Hstr : forall opt_name str,
     In (Send r)
        (trace_of (team_set_option_value_by_name_string x opt_name str th)) ->
     team_get_option_value_by_name_string v
       (handle_of (team_process_event [d]
          (handle_of (team_set_option_value_by_name_string x opt_name str th))))
       opt_name
     = (0, Some str)).
  { intros opt_name str Hs.
    unfold team_set_option_value_by_name_string in *.
      apply (set_option_value_request x opt_name (DataString str)
               TEAM_OPTION_TYPE_STRING NLA_STRING) in Hs;
        [|right; split; reflexivity].
      destruct (Hb opt_name (DataString str) TEAM_OPTION_TYPE_STRING) as [Ei [_ [Es _]]].
      set (th1 := handle_of (set_option_value x opt_name (DataString str)
                               TEAM_OPTION_TYPE_STRING th)) in *.
      pose proof He as [_ [Hl [name [code [data [na [ta [da
                          [Hro [Hn [Ht [Hdt [En [Ec Ed]]]]]]]]]]]]]].
      subst r. cbn [req_options option_set_request] in Hro.
      injection Hro as <- <- <-.
      unfold team_get_option_value_by_name_string, team_get_option_by_name.
      rewrite (event_installs_entry th1 d msg a
                 {| option_type := TEAM_OPTION_TYPE_STRING;
                    option_changed := present (TEAM_ATTR_OPTION_CHANGED a);
                    option_name := opt_name;
                    option_data_of := DataString str |}).
      + unfold __find_option. cbn [find option_name].
        rewrite String.eqb_refl. reflexivity.
      + rewrite Es. exact Hcb.
      + exact Hd.
      + exact Hcmd.
      + eapply echo_is_for_this_team; [|exact He]. symmetry. exact Ei.
      + exact Hl.
      + unfold wellformed. rewrite Hn, Ht, Hdt. reflexivity.
      + unfold option_of_entry. rewrite Hn, Ht, Hdt. cbv zeta. rewrite Ec.
        change (to_int NLA_STRING =? NLA_U32) with false.
        change (to_int NLA_STRING =? NLA_STRING) with true. cbv iota.
        rewrite En, Ed. reflexivity.
      + exact Hh. }
  split; [exact (Hu32 name0)|]. split; [exact (Hstr name0)|]. split.
  - intros ifindex. exact (Hu32 "activeport"%string ifindex).
  - intros mode_name. exact (Hstr "mode"%string mode_name).
Qed.

Lemma set_then_event_then_get_witness :
  team_get_option_value_by_name_u32 sample_views
    (handle_of (team_process_event [deliver (ItemValid echo_of_activeport_42)]
       (handle_of (team_set_option_value_by_name_u32 exchange_acked
                     "activeport" 42 sample_handle))))
    "activeport"
  = (0, Some 42).
Proof.
  refine (proj1 (set_then_event_then_get exchange_acked sample_handle
            "activeport"
            (option_set_request sample_handle "activeport" NLA_U32 (DataU32 42))
            (deliver (ItemValid echo_of_activeport_42)) echo_of_activeport_42
            {| TEAM_ATTR_OPTION_NAME := Some (string_attr "activeport");
               TEAM_ATTR_OPTION_CHANGED := None;
               TEAM_ATTR_OPTION_TYPE := Some (u32_attr NLA_U32);
               TEAM_ATTR_OPTION_DATA := Some (u32_attr 42) |}
            sample_views _ _ _ _ _) 42 _).
  - vm_compute. reflexivity.
  - reflexivity.
  - reflexivity.
  - apply heap_allows_nil.
  - split; [|split].
    + exists (u32_attr 7). split; vm_compute; reflexivity.
    + reflexivity.
    + exists "activeport"%string, NLA_U32, (DataU32 42),
        (string_attr "activeport"), (u32_attr NLA_U32), (u32_attr 42).
      repeat split; vm_compute; reflexivity.
  - vm_compute. left. reflexivity.
Defined.

(** ** The record [create_option] did not allocate *)

Lemma options_loop_crashed : forall nested heap tmp_list t,
  options_loop heap nested tmp_list = (t, Crashed) ->
  exists k, (k < 3 * List.length nested)%nat /\ nth k heap true = false.
Proof.
  induction nested as [|e nested IH]; intros heap tmp_list t H.
  - simpl in H. discriminate.
  - destruct e as [a|]; [|simpl in H; discriminate].
    rewrite options_loop_step in H.
    assert (Hlog : forall m,
               logged m (options_loop heap nested tmp_list) = (t, Crashed) ->
               exists k, (k < 3 * List.length (Some a :: nested))%nat /\
                         nth k heap true = false).
    { intros m Hm. unfold logged in Hm.
      destruct (options_loop heap nested tmp_list) as [t' e'] eqn:El.
      cbn [fst snd] in Hm. inversion Hm; subst.
      destruct (IH _ _ _ El) as [k [Hk Hn]]. exists k.
      split; [cbn [List.length]; lia|exact Hn]. }
    destruct (entry_name a) as [name|]; [|discriminate].
    destruct (wellformed (Some a)); [|discriminate].
    destruct (has_name tmp_list name); [apply (Hlog _ H)|].
    destruct (option_of_entry a) as [o|]; [|apply (Hlog _ H)].
    destruct (create_option_cases heap (option_name o) (option_type o)
                (option_data_of o) (option_changed o))
      as [[_ [_ [_ Hc]]]|[[k [Hk Hn]] _]].
    + rewrite Hc in H. destruct (IH _ _ _ H) as [k [Hk Hn]].
      exists (3 + k)%nat. split; [cbn [List.length]; lia|].
      rewrite !nth_tl in Hn. exact Hn.
    + exists k. split; [cbn [List.length]; lia|exact Hn].
Qed.

(** X19.  [get_options_handler] does not check what [create_option]
    returns.  When one of the three allocations of [create_option] fails
    for an entry the loop takes, the handler goes through the null pointer
    instead of returning, with the handle as it found it; and this is the
    only way it fails to return: with an allocator that answers every
    request it returns [NL_SKIP] whatever the message. *)
Theorem options_handler_faults_on_allocation_failure :
  forall th uninit heap msg,
  (forall a rest o,
     team_ifindex_of uninit msg = ifindex th ->
     TEAM_ATTR_LIST_OPTION msg = Some (Some a :: rest) ->
     option_of_entry a = Some o ->
     (exists k, (k < 3)%nat /\ nth k heap true = false) ->
     get_options_handler uninit heap msg th = (Fault, th, [])) /\
  (result_of (get_options_handler uninit heap msg th) = Fault ->
   handle_of (get_options_handler uninit heap msg th) = th /\
   exists nested k,
     TEAM_ATTR_LIST_OPTION msg = Some nested /\
     (k < 3 * List.length nested)%nat /\ nth k heap true = false) /\
  (result_of (get_options_handler uninit heap msg th) = Fault \/
   result_of (get_options_handler uninit heap msg th) = Ret NL_SKIP).
Proof.
  intros th uninit heap msg. split; [|split].
  - intros a rest o Hi Hl Ho [k [Hk Hn]].
    unfold get_options_handler. rewrite run_bind_get.
    unfold team_ifindex_of in Hi. rewrite Hi, Z.eqb_refl. cbn [negb].
    rewrite Hl, options_loop_step.
    pose proof (option_of_entry_name a o Ho) as En. rewrite En.
    assert (Hw : wellformed (Some a) = true).
    { unfold wellformed. unfold option_of_entry in Ho.
      destruct (TEAM_ATTR_OPTION_NAME a); [|discriminate].
      destruct (TEAM_ATTR_OPTION_TYPE a); [|discriminate].
      destruct (TEAM_ATTR_OPTION_DATA a); [|discriminate]. reflexivity. }
    rewrite Hw, Ho. change (has_name [] (option_name o)) with false. cbv iota.
    destruct (create_option_cases heap (option_name o) (option_type o)
                (option_data_of o) (option_changed o))
      as [[H0 [H1 [H2 _]]]|[_ [heap' Hc]]].
    + exfalso. destruct k as [|[|[|k]]]; try lia; congruence.
    + rewrite Hc. reflexivity.
  - intros Hf. unfold get_options_handler in *. rewrite run_bind_get in *.
    destruct (negb (team_ifindex_of uninit msg =? ifindex th)) eqn:Ei;
      unfold team_ifindex_of in Ei; rewrite Ei in *; [discriminate Hf|].
    destruct (TEAM_ATTR_LIST_OPTION msg) as [nested|]; [|discriminate Hf].
    destruct (options_loop heap nested []) as [t [opts| |]] eqn:El;
      try discriminate Hf.
    split; [reflexivity|]. destruct (options_loop_crashed _ _ _ _ El) as [k Hk].
    exists nested, k. split; [reflexivity|exact Hk].
  - destruct (get_options_handler_cases th uninit heap msg)
      as [[t [opts [_ E]]]|[_ [o [t [E [[->| ->] _]]]]]]; rewrite E;
      unfold result_of; cbn [fst]; auto.
Qed.

Lemma options_handler_faults_on_allocation_failure_witness :
  get_options_handler 0 [true; false] echo_of_activeport_42 sample_handle
  = (Fault, sample_handle, []).
Proof.
  apply (proj1 (options_handler_faults_on_allocation_failure
                  sample_handle 0 [true; false] echo_of_activeport_42)
           {| TEAM_ATTR_OPTION_NAME := Some (string_attr "activeport");
              TEAM_ATTR_OPTION_CHANGED := None;
              TEAM_ATTR_OPTION_TYPE := Some (u32_attr NLA_U32);
              TEAM_ATTR_OPTION_DATA := Some (u32_attr 42) |}
           []
           {| option_type := TEAM_OPTION_TYPE_U32; option_changed := false;
              option_name := "activeport"; option_data_of := DataU32 42 |}).
  - vm_compute. reflexivity.
  - reflexivity.
  - vm_compute. reflexivity.
  - exists 1%nat. split; [lia|reflexivity].
Defined.

(** ** A synchronous refresh of the option list, end to end *)

Lemma run_get_options_refresh : forall x th d ack msg t opts rest,
  cb_ack (th_nl_sock th) = true ->
  nlmsg_alloc_ok x = true ->
  nla_put_ok x = true ->
  0 <= nl_send_result x ->
  replies x = [d; ack] :: rest ->
  item d = ItemValid msg ->
  option_refresh th (uninit_u32 d) (heap d) msg t opts ->
  item ack = ItemAck ->
  exists th3,
    option_list th3 = opts /\
    port_list th3 = port_list th /\
    change_handler_list th3
    = map (mark_item TEAM_OPTION_CHANGE) (change_handler_list th) /\
    exists req,
      get_options x th
      = (Ret 0, swept TEAM_OPTION_CHANGE th3,
         Send req :: t ++ sweep_calls TEAM_OPTION_CHANGE th3).
Proof.
  intros x th d ack msg t opts rest Hack Ha Hp Hs Hr Hd Hor Hk.
  set (th0 := set_nl_sock (set_cb_valid ValidGetOptions (th_nl_sock th))
                (set_nl_sock_err 1 th)).
  set (th3 := set_nl_sock_err 0 (options_refreshed opts th0)).
  exists th3. split; [reflexivity|]. split; [reflexivity|].
  split; [reflexivity|].
  exists {| req_family := family th; req_cmd := TEAM_CMD_OPTIONS_GET;
            req_team_ifindex := ifindex th; req_options := [] |}.
  assert (Hor0 : option_refresh th0 (uninit_u32 d) (heap d) msg t opts).
  { destruct Hor as [Hi H]. split; [exact Hi|exact H]. }
  assert (Hpass : nl_recvmsgs_default CmdSock [d; ack] th0 = (Ret tt, th3, t)).
  { cbn [nl_recvmsgs_default]. unfold nl_cb_call at 1.
    rewrite run_bind, run_bind_get. rewrite Hd.
    change (cb_valid (sock_of CmdSock th0)) with ValidGetOptions. cbv iota.
    rewrite (get_options_handler_refresh th0 _ _ _ _ _ Hor0).
    cbn [fst snd]. change (NL_SKIP =? NL_STOP) with false. cbv iota.
    unfold result_of, handle_of, trace_of. rewrite run_bind.
    unfold nl_cb_call. rewrite run_bind_get. rewrite Hk.
    change (cb_ack (sock_of CmdSock (options_refreshed opts th0)))
      with (cb_ack (th_nl_sock th)).
    rewrite Hack. unfold ack_handler. rewrite run_bind_modify, run_ret.
    cbn [fst snd]. change (NL_STOP =? NL_STOP) with true. cbv iota.
    rewrite run_ret. cbn [fst snd]. rewrite !app_nil_r. reflexivity. }
  assert (Hsr : send_and_recv x
                  {| req_family := family th; req_cmd := TEAM_CMD_OPTIONS_GET;
                     req_team_ifindex := ifindex th; req_options := [] |}
                  (Some ValidGetOptions) th
                = (Ret 0, th3,
                   Send {| req_family := family th;
                           req_cmd := TEAM_CMD_OPTIONS_GET;
                           req_team_ifindex := ifindex th;
                           req_options := [] |} :: t)).
  { unfold send_and_recv. cbv zeta.
    destruct (Z.ltb_spec (nl_send_result x) 0) as [Hn|_]; [lia|].
    rewrite Hr. unfold bind at 1. unfold emit at 1.
    unfold bind at 1. unfold modify at 1.
    unfold bind at 1. unfold modify at 1.
    change (set_nl_sock
              (set_cb_valid ValidGetOptions
                 (th_nl_sock (set_nl_sock_err 1 th)))
              (set_nl_sock_err 1 th)) with th0.
    unfold bind at 1. cbn [recv_while_in_flight].
    change (nl_sock_err th0 >? 0) with true. cbv iota.
    unfold bind at 1. rewrite Hpass.
    rewrite (recv_while_in_flight_done rest th3) by (simpl; lia).
    rewrite run_bind_get, run_ret. cbn [app]. rewrite !app_nil_r.
    reflexivity. }
  unfold get_options. rewrite Ha, Hp. cbn [negb].
  rewrite run_bind_get, run_bind, Hsr. cbn [fst snd].
  change (negb (0 =? 0)) with false. cbv iota.
  unfold result_of, handle_of, trace_of.
  rewrite run_bind, run_check_call_change_handlers, run_ret.
  unfold result_of, handle_of, trace_of. cbn [fst snd app].
  rewrite app_nil_r. reflexivity.
Qed.

(** X16.  A synchronous refresh of the option list, end to end: when the
    request is built and sent and the kernel answers with an option-list
    message for this team every entry of which is readable, followed by an
    acknowledgement, [get_options] returns 0, the cache holds the first
    option of every name the message offers with a known type, the port
    list is untouched, and during the call every registered handler that
    declares [TEAM_OPTION_CHANGE] is called exactly once and no other
    registered handler is called. *)
Theorem option_list_sync_round_trip : forall x th d ack msg nested rest,
  registry_ok th ->
  cb_ack (th_nl_sock th) = true ->
  nlmsg_alloc_ok x = true ->
  nla_put_ok x = true ->
  0 <= nl_send_result x ->
  replies x = [d; ack] :: rest ->
  item d = ItemValid msg ->
  item ack = ItemAck ->
  team_ifindex_of (uninit_u32 d) msg = ifindex th ->
  TEAM_ATTR_LIST_OPTION msg = Some nested ->
  forallb wellformed nested = true ->
  heap_allows (3 * List.length nested) (heap d) ->
  result_of (get_options x th) = Ret 0 /\
  option_list (handle_of (get_options x th))
  = first_of_each_name (candidates nested) /\
  port_list (handle_of (get_options x th)) = port_list th /\
  forall it,
    In it (change_handler_list th) ->
    calls (addr_of it) (trace_of (get_options x th))
    = if team_change_type_eqb (handler_type (handler it)) TEAM_OPTION_CHANGE
      then 1%nat else 0%nat.
Proof.
  intros x th d ack msg nested rest Hok Hack Ha Hp Hs Hr Hd Hk Hi Hl Hw Hh.
  destruct (options_loop_complete nested (heap d) [] Hw Hh) as [t Hloop].
  rewrite accept_from_nil in Hloop.
  assert (Hor : option_refresh th (uninit_u32 d) (heap d) msg t
                  (first_of_each_name (candidates nested))).
  { split; [exact Hi|]. exists nested. split; [exact Hl|exact Hloop]. }
  pose proof (options_loop_prints nested (heap d) []) as Hpr.
  rewrite Hloop in Hpr. cbn [fst] in Hpr.
  destruct (run_get_options_refresh x th d ack msg t _ rest
              Hack Ha Hp Hs Hr Hd Hor Hk)
    as [th3 [Hopts [Hports [Hreg [req Hrun]]]]].
  rewrite Hrun. unfold result_of, handle_of, trace_of. cbn [fst snd].
  split; [reflexivity|]. split; [exact Hopts|]. split; [exact Hports|].
  intros it Hin. cbn [calls]. rewrite calls_app.
  rewrite (prints_no_calls t _ Hpr). cbn [Nat.add].
  assert (Hok3 : registry_ok th3).
  { unfold registry_ok, registry. rewrite Hreg, map_addr_of_mark. exact Hok. }
  assert (Hin3 : In (mark_item TEAM_OPTION_CHANGE it) (change_handler_list th3)).
  { rewrite Hreg. apply in_map. exact Hin. }
  pose proof (sweep_calls_count TEAM_OPTION_CHANGE th3 _ Hok3 Hin3) as Hc.
  rewrite addr_of_mark_item in Hc. rewrite Hc.
  unfold fires. rewrite handler_mark_item.
  rewrite (type_matches_class TEAM_OPTION_CHANGE) by discriminate.
  unfold mark_item.
  rewrite (type_matches_class TEAM_OPTION_CHANGE) by discriminate.
  destruct (team_change_type_eqb (handler_type (handler it)) TEAM_OPTION_CHANGE);
    reflexivity.
Qed.

Lemma option_list_sync_round_trip_witness :
  result_of (get_options
               (exchange_with [[deliver (ItemValid options_msg_two_modes);
                                deliver ItemAck]])
               sample_with_handlers) = Ret 0 /\
  List.length (option_list (handle_of (get_options
               (exchange_with [[deliver (ItemValid options_msg_two_modes);
                                deliver ItemAck]])
               sample_with_handlers))) = 1%nat.
Proof.
  destruct (option_list_sync_round_trip
              (exchange_with [[deliver (ItemValid options_msg_two_modes);
                               deliver ItemAck]])
              sample_with_handlers
              (deliver (ItemValid options_msg_two_modes)) (deliver ItemAck)
              options_msg_two_modes
              [option_entry "mode" NLA_STRING (string_attr "roundrobin");
               option_entry "mode" NLA_STRING (string_attr "activebackup")] [])
    as [H1 [H2 _]];
    try solve [vm_compute; reflexivity | vm_compute; discriminate
              | apply heap_allows_nil].
  - vm_compute. repeat constructor; simpl; intuition discriminate.
  - split; [exact H1|]. rewrite H2. vm_compute. reflexivity.
Defined.

(** ** What goes on the wire *)

Lemma sends_app : forall t1 t2, sends (t1 ++ t2) = sends t1 ++ sends t2.
Proof.
  intros t1 t2. induction t1 as [|e t1 IH]; [reflexivity|].
  destruct e; cbn [app sends]; rewrite IH; reflexivity.
Qed.

Lemma sends_prints : forall t, Forall is_printf t -> sends t = [].
Proof.
  intros t H. induction H as [|e t [m ->] _ IH]; [reflexivity|exact IH].
Qed.

Lemma sends_calls : forall l, sends (map call_of l) = [].
Proof. induction l as [|it l IH]; [reflexivity|exact IH]. Qed.

Lemma sends_sweep_calls : forall type th, sends (sweep_calls type th) = [].
Proof. intros type th. apply sends_calls. Qed.

Lemma send_and_recv_trace : forall x msg valid_handler th,
  (nl_send_result x < 0 /\
   send_and_recv x msg valid_handler th = (Ret (nl_send_result x), th, []))
  \/
  (exists t, trace_of (send_and_recv x msg valid_handler th) = Send msg :: t /\
             Forall is_printf t).
Proof.
  intros x msg valid_handler th. unfold send_and_recv. cbv zeta.
  destruct (Z.ltb_spec (nl_send_result x) 0) as [Hn|Hn].
  - left. split; [exact Hn|reflexivity].
  - right. unfold trace_of. rewrite run_bind. unfold emit at 1.
    cbn [fst snd]. rewrite run_bind_modify.
    set (th1 := handle_of ((match valid_handler with
                            | Some cb =>
                                modify (fun th => set_nl_sock
                                          (set_cb_valid cb (th_nl_sock th)) th)
                            | None => ret tt
                            end) (set_nl_sock_err 1 th))).
    assert (E1 : (match valid_handler with
                  | Some cb =>
                      modify (fun th => set_nl_sock
                                (set_cb_valid cb (th_nl_sock th)) th)
                  | None => ret tt
                  end) (set_nl_sock_err 1 th) = (Ret tt, th1, [])).
    { unfold th1. destruct valid_handler; reflexivity. }
    rewrite run_bind, E1. cbn [fst snd app]. rewrite run_bind.
    pose proof (recv_while_in_flight_prints (replies x) th1) as Hp.
    unfold trace_of in Hp.
    destruct (recv_while_in_flight (replies x) th1) as [[[[]| |] th2] t2];
      cbn [fst snd] in *.
    + rewrite run_bind_get, run_ret. cbn [snd]. rewrite app_nil_r.
      exists t2. split; [reflexivity|exact Hp].
    + exists t2. split; [reflexivity|exact Hp].
    + exists t2. split; [reflexivity|exact Hp].
Qed.

Lemma refresh_tail_unsent : forall C (m : M Z) th e,
  e < 0 ->
  m th = (Ret e, th, []) ->
  sends (trace_of ((err <- m ;;
                    if negb (err =? 0) then ret err
                    else check_call_change_handlers C ;; ret 0) th)) = [] /\
  result_of ((err <- m ;;
              if negb (err =? 0) then ret err
              else check_call_change_handlers C ;; ret 0) th) <> Ret 0.
Proof.
  intros C m th e He Hm. unfold result_of, trace_of. rewrite run_bind, Hm.
  cbn [fst snd]. destruct (Z.eqb_spec e 0) as [->|_]; [lia|]. cbn [negb].
  rewrite run_ret. cbn [fst snd app sends]. split; [reflexivity|].
  intros E. inversion E. lia.
Qed.

Lemma refresh_tail_sent : forall C (m : M Z) th req t,
  trace_of (m th) = Send req :: t ->
  Forall is_printf t ->
  sends (trace_of ((err <- m ;;
                    if negb (err =? 0) then ret err
                    else check_call_change_handlers C ;; ret 0) th)) = [req].
Proof.
  intros C m th req t Ht Hp. unfold result_of, trace_of in *. rewrite run_bind.
  destruct (m th) as [[[err| |] th1] t1]; cbn [fst snd] in *;
    subst t1; cbn [sends]; try (rewrite (sends_prints t Hp); reflexivity).
  destruct (negb (err =? 0)).
  - rewrite run_ret. cbn [snd app sends]. rewrite sends_app.
    rewrite (sends_prints t Hp). reflexivity.
  - rewrite run_bind, run_check_call_change_handlers, run_ret.
    unfold trace_of. cbn [fst snd app sends]. rewrite app_nil_r, sends_app.
    rewrite (sends_prints t Hp), sends_calls. reflexivity.
Qed.

(** A refresh sends its request exactly when the request is built and the
    send does not fail; it does not return 0 otherwise. *)
Lemma get_port_list_sends : forall x th,
  sends (trace_of (get_port_list x th))
  = (if built_and_sent x
     then [refresh_request TEAM_CMD_PORT_LIST_GET (family th) (ifindex th)]
     else []) /\
  (built_and_sent x = false -> result_of (get_port_list x th) <> Ret 0).
Proof.
  intros x th. unfold get_port_list, built_and_sent.
  destruct (nlmsg_alloc_ok x); cbn [negb andb];
    [|split; [reflexivity|intros _; vm_compute; discriminate]].
  destruct (nla_put_ok x); cbn [negb andb];
    [|split; [reflexivity|intros _; vm_compute; discriminate]].
  unfold result_of, trace_of. rewrite run_bind_get.
  destruct (send_and_recv_trace x
              (refresh_request TEAM_CMD_PORT_LIST_GET (family th) (ifindex th))
              (Some ValidGetPortList) th) as [[Hn E]|[t [Ht Hp]]].
  - destruct (Z.leb_spec 0 (nl_send_result x)) as [Hs|_]; [lia|].
    destruct (refresh_tail_unsent TEAM_PORT_CHANGE _ th _ Hn E) as [H1 H2].
    split; [exact H1|intros _; exact H2].
  - pose proof (refresh_tail_sent TEAM_PORT_CHANGE _ th _ t Ht Hp) as H1.
    unfold send_and_recv in Ht. cbv zeta in Ht.
    destruct (Z.ltb_spec (nl_send_result x) 0) as [Hn|Hs];
      [discriminate Ht|].
    destruct (Z.leb_spec 0 (nl_send_result x)) as [_|Hn]; [|lia].
    split; [exact H1|discriminate].
Qed.

Lemma get_options_sends : forall x th,
  sends (trace_of (get_options x th))
  = (if built_and_sent x
     then [refresh_request TEAM_CMD_OPTIONS_GET (family th) (ifindex th)]
     else []) /\
  (built_and_sent x = false -> result_of (get_options x th) <> Ret 0).
Proof.
  intros x th. unfold get_options, built_and_sent.
  destruct (nlmsg_alloc_ok x); cbn [negb andb];
    [|split; [reflexivity|intros _; vm_compute; discriminate]].
  destruct (nla_put_ok x); cbn [negb andb];
    [|split; [reflexivity|intros _; vm_compute; discriminate]].
  unfold result_of, trace_of. rewrite run_bind_get.
  destruct (send_and_recv_trace x
              (refresh_request TEAM_CMD_OPTIONS_GET (family th) (ifindex th))
              (Some ValidGetOptions) th) as [[Hn E]|[t [Ht Hp]]].
  - destruct (Z.leb_spec 0 (nl_send_result x)) as [Hs|_]; [lia|].
    destruct (refresh_tail_unsent TEAM_OPTION_CHANGE _ th _ Hn E) as [H1 H2].
    split; [exact H1|intros _; exact H2].
  - pose proof (refresh_tail_sent TEAM_OPTION_CHANGE _ th _ t Ht Hp) as H1.
    unfold send_and_recv in Ht. cbv zeta in Ht.
    destruct (Z.ltb_spec (nl_send_result x) 0) as [Hn|Hs];
      [discriminate Ht|].
    destruct (Z.leb_spec 0 (nl_send_result x)) as [_|Hn]; [|lia].
    split; [exact H1|discriminate].
Qed.

Ltac silent_side :=
  first [ reflexivity
        | exact Logic.I
        | intros; reflexivity
        | intros t1 t2 H1 H2; rewrite sends_app, H1, H2; reflexivity
        | intros; exact Logic.I
        | intros; split; [exact Logic.I|apply sends_sweep_calls] ].

(** Where a step of [team_init] before the refreshes fails, one line is
    printed and nothing else happens. *)
Lemma team_init_setup_fails : forall w i th,
  ~ (i <> 0 /\ connected w /\ resolved w /\ subscribed w) ->
  exists m, trace_of (team_init w i th) = [Printf m].
Proof.
  intros w i th Hno. unfold team_init, trace_of.
  destruct (Z.eqb_spec i 0) as [Hi|Hi]; [eexists; reflexivity|].
  rewrite !run_bind_modify.
  destruct (Z.eqb_spec (genl_connect_result w) 0) as [Hc1|Hc1]; cbn [negb];
    [|eexists; reflexivity].
  destruct (Z.eqb_spec (genl_connect_event_result w) 0) as [Hc2|Hc2];
    cbn [negb]; [|eexists; reflexivity].
  rewrite run_bind_modify.
  destruct (Z.ltb_spec (genl_ctrl_resolve_result w) 0) as [Hr1|Hr1];
    [eexists; reflexivity|].
  cbv zeta.
  destruct (Z.ltb_spec (genl_ctrl_resolve_grp_result w) 0) as [Hr2|Hr2];
    [eexists; reflexivity|].
  destruct (Z.ltb_spec (nl_socket_add_membership_result w) 0) as [Hs|Hs];
    [eexists; reflexivity|].
  exfalso. apply Hno. unfold connected, resolved, subscribed. auto.
Qed.

(** Once the steps before the refreshes have succeeded, [team_init] sends
    what the port-list refresh sends and then, when that refresh returned
    0, what the option-list refresh sends. *)
Lemma team_init_sends : forall w i th,
  i <> 0 -> connected w -> resolved w -> subscribed w ->
  sends (trace_of (team_init w i th))
  = sends (trace_of (init_ports_done w i th)) ++
    match result_of (init_ports_done w i th) with
    | Ret err =>
        if err =? 0 then sends (trace_of (init_options_done w i th)) else []
    | _ => []
    end.
Proof.
  intros w i th Hi Hc Hr Hs.
  rewrite (run_team_init_refreshes w i th Hi Hc Hr Hs).
  unfold init_options_done, init_ports_done.
  unfold result_of, trace_of, handle_of. rewrite run_bind.
  destruct (get_port_list (port_list_exchange w) (init_setup w i th))
    as [[[err1| |] th1] t1]; cbn [fst snd];
    try (rewrite app_nil_r; reflexivity).
  destruct (Z.eqb_spec err1 0) as [->|Hne]; cbn [negb].
  - rewrite sends_app. f_equal. unfold trace_of. rewrite run_bind.
    destruct (get_options (options_exchange w) th1)
      as [[[err2| |] th2] t2]; cbn [fst snd]; try reflexivity.
    destruct (negb (err2 =? 0)).
    + unfold trace_of. rewrite sends_app. cbn. rewrite app_nil_r. reflexivity.
    + rewrite run_ret. cbn [snd]. rewrite app_nil_r. reflexivity.
  - rewrite sends_app. f_equal.
Qed.

(** X17.  What the library puts on the wire.  [team_init] sends nothing
    when a step before the refreshes fails (ifindex 0, a socket that does
    not connect, a family or group that does not resolve, a membership that
    is not added).  When these steps succeed it sends the port-list request
    exactly when that request is built and its send does not fail, and the
    option-list request exactly when, in addition, the port-list refresh
    returned 0 and the option-list request is built and its send does not
    fail; the port-list request goes first and both carry the family
    resolved and the ifindex given.  When [team_init] returns 0 it has sent
    exactly these two, in this order.  The event pump sends nothing. *)
Theorem requests_on_the_wire : forall w i th,
  (~ (i <> 0 /\ connected w /\ resolved w /\ subscribed w) ->
   sends (trace_of (team_init w i th)) = []) /\
  (i <> 0 -> connected w -> resolved w -> subscribed w ->
   (built_and_sent (port_list_exchange w) = false ->
    sends (trace_of (team_init w i th)) = []) /\
   (built_and_sent (port_list_exchange w) = true ->
    result_of (init_ports_done w i th) <> Ret 0 ->
    sends (trace_of (team_init w i th))
    = [refresh_request TEAM_CMD_PORT_LIST_GET (genl_ctrl_resolve_result w) i])
   /\
   (result_of (init_ports_done w i th) = Ret 0 ->
    built_and_sent (options_exchange w) = false ->
    sends (trace_of (team_init w i th))
    = [refresh_request TEAM_CMD_PORT_LIST_GET (genl_ctrl_resolve_result w) i])
   /\
   (result_of (init_ports_done w i th) = Ret 0 ->
    built_and_sent (options_exchange w) = true ->
    sends (trace_of (team_init w i th))
    = [refresh_request TEAM_CMD_PORT_LIST_GET (genl_ctrl_resolve_result w) i;
       refresh_request TEAM_CMD_OPTIONS_GET (genl_ctrl_resolve_result w) i]))
  /\
  (result_of (team_init w i th) = Ret 0 ->
   sends (trace_of (team_init w i th))
   = [refresh_request TEAM_CMD_PORT_LIST_GET (genl_ctrl_resolve_result w) i;
      refresh_request TEAM_CMD_OPTIONS_GET (genl_ctrl_resolve_result w) i]) /\
  (forall readable, sends (trace_of (team_check_events readable th)) = []) /\
  (forall arrived, sends (trace_of (team_process_event arrived th)) = []).
Proof.
  intros w i th.
  assert (Hok : i <> 0 -> connected w -> resolved w -> subscribed w ->
    (built_and_sent (port_list_exchange w) = false ->
     sends (trace_of (team_init w i th)) = []) /\
    (built_and_sent (port_list_exchange w) = true ->
     result_of (init_ports_done w i th) <> Ret 0 ->
     sends (trace_of (team_init w i th))
     = [refresh_request TEAM_CMD_PORT_LIST_GET (genl_ctrl_resolve_result w) i])
    /\
    (result_of (init_ports_done w i th) = Ret 0 ->
     built_and_sent (options_exchange w) = false ->
     sends (trace_of (team_init w i th))
     = [refresh_request TEAM_CMD_PORT_LIST_GET (genl_ctrl_resolve_result w) i])
    /\
    (result_of (init_ports_done w i th) = Ret 0 ->
     built_and_sent (options_exchange w) = true ->
     sends (trace_of (team_init w i th))
     = [refresh_request TEAM_CMD_PORT_LIST_GET (genl_ctrl_resolve_result w) i;
        refresh_request TEAM_CMD_OPTIONS_GET (genl_ctrl_resolve_result w) i])).
  { intros Hi Hc Hr Hs. rewrite (team_init_sends w i th Hi Hc Hr Hs).
    destruct (get_port_list_sends (port_list_exchange w) (init_setup w i th))
      as [Hp Hp0].
    change (family (init_setup w i th)) with (genl_ctrl_resolve_result w) in Hp.
    change (ifindex (init_setup w i th)) with i in Hp.
    fold (init_ports_done w i th) in Hp, Hp0.
    destruct (get_options_sends (options_exchange w)
                (handle_of (init_ports_done w i th))) as [Ho _].
    destruct (same_binding_get_port_list (port_list_exchange w)
                (init_setup w i th)) as [Bi [Bf _]].
    fold (init_ports_done w i th) in Bi, Bf.
    change (family (init_setup w i th)) with (genl_ctrl_resolve_result w) in Bf.
    change (ifindex (init_setup w i th)) with i in Bi.
    rewrite Bi, Bf in Ho. fold (init_options_done w i th) in Ho.
    rewrite Hp, Ho.
    assert (Hsent : result_of (init_ports_done w i th) = Ret 0 ->
                    built_and_sent (port_list_exchange w) = true).
    { intros E. destruct (built_and_sent (port_list_exchange w));
        [reflexivity|]. exfalso. apply Hp0; [reflexivity|exact E]. }
    split; [|split; [|split]].
    - intros Hb. rewrite Hb.
      destruct (result_of (init_ports_done w i th)) as [err| |] eqn:E;
        try reflexivity.
      destruct (Z.eqb_spec err 0) as [->|_]; [|reflexivity].
      exfalso. apply (Hp0 Hb). reflexivity.
    - intros Hb Hne. rewrite Hb.
      destruct (result_of (init_ports_done w i th)) as [err| |];
        try reflexivity.
      destruct (Z.eqb_spec err 0) as [->|_]; [|reflexivity].
      exfalso. apply Hne. reflexivity.
    - intros E Hb. rewrite (Hsent E), E, Hb. reflexivity.
    - intros E Hb. rewrite (Hsent E), E, Hb. reflexivity. }
  split; [|split; [exact Hok|split; [|split]]].
  - intros Hno. destruct (team_init_setup_fails w i th Hno) as [m ->].
    reflexivity.
  - intros Hz.
    destruct (team_init_zero_steps w i th Hz) as [Hi [Hc [Hr Hs]]].
    destruct (Hok Hi Hc Hr Hs) as [_ [_ [H3 H4]]].
    assert (Hp : result_of (init_ports_done w i th) = Ret 0 /\
                 result_of (init_options_done w i th) = Ret 0).
    { rewrite (run_team_init_refreshes w i th Hi Hc Hr Hs) in Hz.
      unfold init_options_done, init_ports_done.
      unfold result_of, handle_of in *. rewrite run_bind in Hz.
      destruct (get_port_list (port_list_exchange w) (init_setup w i th))
        as [[[err1| |] th1] t1]; cbn [fst snd] in *; try discriminate Hz.
      destruct (Z.eqb_spec err1 0) as [->|Hne]; cbn [negb] in *;
        [|exfalso; vm_compute in Hz; discriminate Hz].
      split; [reflexivity|]. unfold result_of in Hz. rewrite run_bind in Hz.
      destruct (get_options (options_exchange w) th1)
        as [[[err2| |] th2] t2]; cbn [fst snd] in *; try discriminate Hz.
      destruct (Z.eqb_spec err2 0) as [->|Hne]; cbn [negb] in *;
        [reflexivity|exfalso; vm_compute in Hz; discriminate Hz]. }
    destruct Hp as [Hp Ho]. apply H4; [exact Hp|].
    destruct (built_and_sent (options_exchange w)) eqn:Hb; [reflexivity|].
    exfalso.
    destruct (get_options_sends (options_exchange w)
                (handle_of (init_ports_done w i th))) as [_ Ho0].
    apply (Ho0 Hb). exact Ho.
  - intros readable.
    assert (Hh : holds (fun _ => True) (fun t => sends t = [])
                       (team_check_events readable)).
    { apply (holds_team_check_events _ _ (fun _ => True)); silent_side. }
    exact (proj2 (Hh th Logic.I)).
  - intros arrived.
    assert (Hh : holds (fun _ => True) (fun t => sends t = [])
                       (team_process_event arrived)).
    { apply (holds_team_process_event _ _ (fun _ => True)); silent_side. }
    exact (proj2 (Hh th Logic.I)).
Qed.

Lemma requests_on_the_wire_witness :
  sends (trace_of (team_init sample_init_env 0 fresh_handle)) = [] /\
  sends (trace_of (team_init init_env_membership_fails 7 fresh_handle)) = [] /\
  sends (trace_of (team_init init_env_ports_then_error 7 fresh_handle))
  = [refresh_request TEAM_CMD_PORT_LIST_GET 23 7] /\
  sends (trace_of (team_init sample_init_env 7 fresh_handle))
  = [refresh_request TEAM_CMD_PORT_LIST_GET 23 7;
     refresh_request TEAM_CMD_OPTIONS_GET 23 7].
Proof.
  split; [|split; [|split]].
  - apply (proj1 (requests_on_the_wire sample_init_env 0 fresh_handle)).
    intros [H _]. apply H. reflexivity.
  - apply (proj1 (requests_on_the_wire init_env_membership_fails 7
                    fresh_handle)).
    intros [_ [_ [_ H]]]. vm_compute in H. apply H. reflexivity.
  - assert (Hi : 7 <> 0) by discriminate.
    assert (Hc : connected init_env_ports_then_error)
      by (split; reflexivity).
    assert (Hr : resolved init_env_ports_then_error)
      by (split; vm_compute; discriminate).
    assert (Hs : subscribed init_env_ports_then_error)
      by (vm_compute; discriminate).
    destruct (proj1 (proj2 (requests_on_the_wire init_env_ports_then_error 7
                              fresh_handle)) Hi Hc Hr Hs) as [_ [H _]].
    apply H; [reflexivity|vm_compute; discriminate].
  - apply (proj1 (proj2 (proj2 (requests_on_the_wire sample_init_env 7
                                  fresh_handle)))).
    vm_compute. reflexivity.
Defined.

(** ** Pending notifications *)

Lemma flags_kept_refl : forall th, flags_kept th th.
Proof.
  intros th. unfold flags_kept.
  induction (change_handler_list th) as [|it l IH]; constructor; auto.
Qed.

Lemma flags_kept_trans : forall a b c,
  flags_kept a b -> flags_kept b c -> flags_kept a c.
Proof.
  unfold flags_kept. intros a b c.
  generalize (change_handler_list a) (change_handler_list b)
             (change_handler_list c).
  intros la lb lc H. revert lc.
  induction H as [|x y la lb [Hh Hc] _ IH]; intros lc H2.
  - inversion H2. constructor.
  - inversion H2 as [|y' z lb' lc' [Hh' Hc'] H2']; subst.
    constructor; [|apply IH; exact H2'].
    split; [congruence|auto].
Qed.

Lemma flags_kept_mark : forall type l th,
  change_handler_list l = change_handler_list th ->
  flags_kept th (set_change_handler_list
                   (map (mark_item type) (change_handler_list th)) l).
Proof.
  intros type l th _. unfold flags_kept. destruct l. simpl.
  induction (change_handler_list th) as [|it l' IH]; constructor; [|exact IH].
  split; [apply handler_mark_item|]. intros Hc. unfold mark_item.
  destruct (type_matches type (handler it)); [reflexivity|exact Hc].
Qed.

Ltac flags_kept_side :=
  first [ exact flags_kept_refl
        | exact flags_kept_trans
        | intros; apply flags_kept_mark; reflexivity
        | intros;
          lazymatch goal with
          | |- flags_kept ?a _ => exact (flags_kept_refl a)
          end ].

Lemma flags_kept_send_and_recv : forall x msg valid_handler,
  frames flags_kept (send_and_recv x msg valid_handler).
Proof.
  intros x msg valid_handler. apply stable_send_and_recv; flags_kept_side.
Qed.

Lemma refresh_tail_flags : forall C (m : M Z) th,
  flags_kept th (handle_of (m th)) ->
  result_of ((err <- m ;;
              if negb (err =? 0) then ret err
              else check_call_change_handlers C ;; ret 0) th) <> Ret 0 ->
  flags_kept th (handle_of ((err <- m ;;
                             if negb (err =? 0) then ret err
                             else check_call_change_handlers C ;; ret 0) th)).
Proof.
  intros C m th Hk. unfold result_of, handle_of in *. rewrite run_bind.
  destruct (m th) as [[[err| |] th1] t1]; cbn [fst snd] in *;
    [|intros _; exact Hk|intros _; exact Hk].
  destruct (Z.eqb_spec err 0) as [->|Hne]; cbn [negb].
  - rewrite run_bind, run_check_call_change_handlers. cbn [fst snd].
    intros H. exfalso. apply H. reflexivity.
  - rewrite run_ret. cbn [fst snd]. intros _. exact Hk.
Qed.

Lemma called_prints : forall t, Forall is_printf t -> called t = [].
Proof.
  intros t H. induction H as [|e t [m ->] _ IH]; [reflexivity|exact IH].
Qed.

Lemma refresh_tail_handle : forall C (m : M Z) th,
  result_of ((err <- m ;;
              if negb (err =? 0) then ret err
              else check_call_change_handlers C ;; ret 0) th) <> Ret 0 ->
  handle_of ((err <- m ;;
              if negb (err =? 0) then ret err
              else check_call_change_handlers C ;; ret 0) th)
  = handle_of (m th).
Proof.
  intros C m th. unfold result_of, handle_of. rewrite run_bind.
  destruct (m th) as [[[err| |] th1] t1]; cbn [fst snd];
    [|reflexivity|reflexivity].
  destruct (Z.eqb_spec err 0) as [->|Hne]; cbn [negb].
  - rewrite run_bind, run_check_call_change_handlers. cbn [fst snd].
    intros H. exfalso. apply H. reflexivity.
  - rewrite run_ret. reflexivity.
Qed.

(** A refresh whose reply is a message that decodes, followed by an error:
    the decoder has replaced the list and marked the registrations of its
    class, and the refresh returns the error with the handle as the
    receive loop left it. *)
Lemma run_get_port_list_then_error : forall x th d f msg ports e rest,
  cb_err (th_nl_sock th) = true ->
  nlmsg_alloc_ok x = true ->
  nla_put_ok x = true ->
  0 <= nl_send_result x ->
  replies x = [d; f] :: rest ->
  item d = ItemValid msg ->
  port_refresh th (uninit_u32 d) (heap d) msg ports ->
  item f = ItemError e ->
  e < 0 ->
  exists th3 req,
    port_list th3 = ports /\
    change_handler_list th3
    = map (mark_item TEAM_PORT_CHANGE) (change_handler_list th) /\
    get_port_list x th = (Ret e, th3, [Send req]).
Proof.
  intros x th d f msg ports e rest Herr Ha Hp Hs Hr Hd Hpr Hf He.
  set (th0 := set_nl_sock (set_cb_valid ValidGetPortList (th_nl_sock th))
                (set_nl_sock_err 1 th)).
  set (th3 := set_nl_sock_err e (port_refreshed ports th0)).
  exists th3,
    {| req_family := family th; req_cmd := TEAM_CMD_PORT_LIST_GET;
       req_team_ifindex := ifindex th; req_options := [] |}.
  split; [reflexivity|]. split; [reflexivity|].
  assert (Hpass : nl_recvmsgs_default CmdSock [d; f] th0 = (Ret tt, th3, [])).
  { cbn [nl_recvmsgs_default]. unfold nl_cb_call at 1.
    rewrite run_bind, run_bind_get. rewrite Hd.
    change (cb_valid (sock_of CmdSock th0)) with ValidGetPortList. cbv iota.
    rewrite (get_port_list_handler_refresh th0 (uninit_u32 d) (heap d) msg ports)
      by (apply (port_refresh_same_ifindex th); [reflexivity|exact Hpr]).
    cbn [fst snd]. change (NL_SKIP =? NL_STOP) with false. cbv iota.
    unfold result_of, handle_of, trace_of. rewrite run_bind.
    unfold nl_cb_call. rewrite run_bind_get. rewrite Hf.
    change (cb_err (sock_of CmdSock (port_refreshed ports th0)))
      with (cb_err (th_nl_sock th)).
    rewrite Herr. reflexivity. }
  assert (Hsr : send_and_recv x
                  {| req_family := family th; req_cmd := TEAM_CMD_PORT_LIST_GET;
                     req_team_ifindex := ifindex th; req_options := [] |}
                  (Some ValidGetPortList) th
                = (Ret e, th3,
                   [Send {| req_family := family th;
                            req_cmd := TEAM_CMD_PORT_LIST_GET;
                            req_team_ifindex := ifindex th;
                            req_options := [] |}])).
  { unfold send_and_recv. cbv zeta.
    destruct (Z.ltb_spec (nl_send_result x) 0) as [Hn|_]; [lia|].
    rewrite Hr. unfold bind at 1. unfold emit at 1.
    unfold bind at 1. unfold modify at 1.
    unfold bind at 1. unfold modify at 1.
    change (set_nl_sock
              (set_cb_valid ValidGetPortList
                 (th_nl_sock (set_nl_sock_err 1 th)))
              (set_nl_sock_err 1 th)) with th0.
    unfold bind at 1. cbn [recv_while_in_flight].
    change (nl_sock_err th0 >? 0) with true. cbv iota.
    unfold bind at 1. rewrite Hpass.
    rewrite (recv_while_in_flight_done rest th3) by (simpl; lia).
    rewrite run_bind_get, run_ret. reflexivity. }
  unfold get_port_list. rewrite Ha, Hp. cbn [negb].
  rewrite run_bind_get, run_bind, Hsr. cbn [fst snd].
  destruct (Z.eqb_spec e 0) as [->|_]; [lia|]. cbn [negb].
  rewrite run_ret. reflexivity.
Qed.

Lemma run_get_options_then_error : forall x th d f msg t opts e rest,
  cb_err (th_nl_sock th) = true ->
  nlmsg_alloc_ok x = true ->
  nla_put_ok x = true ->
  0 <= nl_send_result x ->
  replies x = [d; f] :: rest ->
  item d = ItemValid msg ->
  option_refresh th (uninit_u32 d) (heap d) msg t opts ->
  item f = ItemError e ->
  e < 0 ->
  exists th3 req,
    option_list th3 = opts /\
    change_handler_list th3
    = map (mark_item TEAM_OPTION_CHANGE) (change_handler_list th) /\
    get_options x th = (Ret e, th3, Send req :: t).
Proof.
  intros x th d f msg t opts e rest Herr Ha Hp Hs Hr Hd Hor Hf He.
  set (th0 := set_nl_sock (set_cb_valid ValidGetOptions (th_nl_sock th))
                (set_nl_sock_err 1 th)).
  set (th3 := set_nl_sock_err e (options_refreshed opts th0)).
  exists th3,
    {| req_family := family th; req_cmd := TEAM_CMD_OPTIONS_GET;
       req_team_ifindex := ifindex th; req_options := [] |}.
  split; [reflexivity|]. split; [reflexivity|].
  assert (Hor0 : option_refresh th0 (uninit_u32 d) (heap d) msg t opts).
  { destruct Hor as [Hi H]. split; [exact Hi|exact H]. }
  assert (Hpass : nl_recvmsgs_default CmdSock [d; f] th0 = (Ret tt, th3, t)).
  { cbn [nl_recvmsgs_default]. unfold nl_cb_call at 1.
    rewrite run_bind, run_bind_get. rewrite Hd.
    change (cb_valid (sock_of CmdSock th0)) with ValidGetOptions. cbv iota.
    rewrite (get_options_handler_refresh th0 _ _ _ _ _ Hor0).
    cbn [fst snd]. change (NL_SKIP =? NL_STOP) with false. cbv iota.
    unfold result_of, handle_of, trace_of. rewrite run_bind.
    unfold nl_cb_call. rewrite run_bind_get. rewrite Hf.
    change (cb_err (sock_of CmdSock (options_refreshed opts th0)))
      with (cb_err (th_nl_sock th)).
    rewrite Herr. unfold error_handler. rewrite run_bind_modify, run_ret.
    cbn [fst snd]. change (NL_SKIP =? NL_STOP) with false. cbv iota.
    cbn [nl_recvmsgs_default]. rewrite run_ret. cbn [fst snd].
    rewrite !app_nil_r. reflexivity. }
  assert (Hsr : send_and_recv x
                  {| req_family := family th; req_cmd := TEAM_CMD_OPTIONS_GET;
                     req_team_ifindex := ifindex th; req_options := [] |}
                  (Some ValidGetOptions) th
                = (Ret e, th3,
                   Send {| req_family := family th;
                           req_cmd := TEAM_CMD_OPTIONS_GET;
                           req_team_ifindex := ifindex th;
                           req_options := [] |} :: t)).
  { unfold send_and_recv. cbv zeta.
    destruct (Z.ltb_spec (nl_send_result x) 0) as [Hn|_]; [lia|].
    rewrite Hr. unfold bind at 1. unfold emit at 1.
    unfold bind at 1. unfold modify at 1.
    unfold bind at 1. unfold modify at 1.
    change (set_nl_sock
              (set_cb_valid ValidGetOptions
                 (th_nl_sock (set_nl_sock_err 1 th)))
              (set_nl_sock_err 1 th)) with th0.
    unfold bind at 1. cbn [recv_while_in_flight].
    change (nl_sock_err th0 >? 0) with true. cbv iota.
    unfold bind at 1. rewrite Hpass.
    rewrite (recv_while_in_flight_done rest th3) by (simpl; lia).
    rewrite run_bind_get, run_ret. cbn [app]. rewrite !app_nil_r.
    reflexivity. }
  unfold get_options. rewrite Ha, Hp. cbn [negb].
  rewrite run_bind_get, run_bind, Hsr. cbn [fst snd].
  destruct (Z.eqb_spec e 0) as [->|_]; [lia|]. cbn [negb].
  rewrite run_ret. unfold result_of, handle_of, trace_of. cbn [fst snd].
  rewrite app_nil_r. reflexivity.
Qed.

(** A registration of class [C] that a refresh of class [C] has marked is
    called by the next event pump, even one that drains nothing. *)
Lemma marked_fires_on_next_pump : forall C th th3 it,
  C <> TEAM_ALL_CHANGE ->
  registry_ok th ->
  change_handler_list th3 = map (mark_item C) (change_handler_list th) ->
  In it (change_handler_list th) ->
  handler_type (handler it) = C ->
  In {| call_this := true; handler := handler it |} (change_handler_list th3) /\
  calls (addr_of it) (trace_of (team_process_event [] th3)) = 1%nat.
Proof.
  intros C th th3 it HC Hok Hreg Hin Ht.
  assert (Hm : mark_item C it = {| call_this := true; handler := handler it |}).
  { unfold mark_item. rewrite (type_matches_class C) by exact HC. rewrite Ht.
    destruct C; reflexivity. }
  assert (Hin3 : In (mark_item C it) (change_handler_list th3)).
  { rewrite Hreg. apply in_map. exact Hin. }
  split; [rewrite <- Hm; exact Hin3|].
  assert (Hok3 : registry_ok th3).
  { unfold registry_ok, registry. rewrite Hreg, map_addr_of_mark. exact Hok. }
  rewrite run_team_process_event. cbn [nl_recvmsgs_default].
  rewrite run_ret. unfold trace_of. cbn [snd app].
  pose proof (sweep_calls_count TEAM_ALL_CHANGE th3 _ Hok3 Hin3) as Hc.
  rewrite addr_of_mark_item in Hc. rewrite Hc, Hm. reflexivity.
Qed.

(** X18.  A refresh that fails loses no pending notification.  When
    [get_port_list] or [get_options] does not return 0 it leaves the handle
    exactly as its exchange left it: nothing is swept and nothing is undone,
    so the registrations are the ones it found, in the same order, and
    every one that was pending is still pending.  The marks of its decoder
    are among what is kept: when the reply is a message that decodes
    followed by an error, the refresh returns the error and calls no
    handler, every registration of its class is pending on the handle it
    leaves, and the next event pump calls each of them once, even if it
    drains nothing.  An option-set call never clears a pending
    registration, however it ends. *)
Theorem failed_refresh_keeps_pending : forall x th,
  (result_of (get_port_list x th) <> Ret 0 ->
   flags_kept th (handle_of (get_port_list x th)) /\
   (nlmsg_alloc_ok x = true -> nla_put_ok x = true ->
    handle_of (get_port_list x th)
    = handle_of (send_and_recv x
                   (refresh_request TEAM_CMD_PORT_LIST_GET
                      (family th) (ifindex th))
                   (Some ValidGetPortList) th))) /\
  (result_of (get_options x th) <> Ret 0 ->
   flags_kept th (handle_of (get_options x th)) /\
   (nlmsg_alloc_ok x = true -> nla_put_ok x = true ->
    handle_of (get_options x th)
    = handle_of (send_and_recv x
                   (refresh_request TEAM_CMD_OPTIONS_GET
                      (family th) (ifindex th))
                   (Some ValidGetOptions) th))) /\
  (forall opt_name data opt_type,
     flags_kept th (handle_of (set_option_value x opt_name data opt_type th)))
  /\
  (forall d f msg ports e rest,
     registry_ok th ->
     cb_err (th_nl_sock th) = true ->
     nlmsg_alloc_ok x = true ->
     nla_put_ok x = true ->
     0 <= nl_send_result x ->
     replies x = [d; f] :: rest ->
     item d = ItemValid msg ->
     port_refresh th (uninit_u32 d) (heap d) msg ports ->
     item f = ItemError e ->
     e < 0 ->
     result_of (get_port_list x th) = Ret e /\
     called (trace_of (get_port_list x th)) = [] /\
     forall it,
       In it (change_handler_list th) ->
       handler_type (handler it) = TEAM_PORT_CHANGE ->
       In {| call_this := true; handler := handler it |}
          (change_handler_list (handle_of (get_port_list x th))) /\
       calls (addr_of it)
             (trace_of (team_process_event []
                          (handle_of (get_port_list x th)))) = 1%nat) /\
  (forall d f msg t opts e rest,
     registry_ok th ->
     cb_err (th_nl_sock th) = true ->
     nlmsg_alloc_ok x = true ->
     nla_put_ok x = true ->
     0 <= nl_send_result x ->
     replies x = [d; f] :: rest ->
     item d = ItemValid msg ->
     option_refresh th (uninit_u32 d) (heap d) msg t opts ->
     item f = ItemError e ->
     e < 0 ->
     result_of (get_options x th) = Ret e /\
     called (trace_of (get_options x th)) = [] /\
     forall it,
       In it (change_handler_list th) ->
       handler_type (handler it) = TEAM_OPTION_CHANGE ->
       In {| call_this := true; handler := handler it |}
          (change_handler_list (handle_of (get_options x th))) /\
       calls (addr_of it)
             (trace_of (team_process_event []
                          (handle_of (get_options x th)))) = 1%nat).
Proof.
  intros x th. split; [|split; [|split; [|split]]].
  - intros Hne. split.
    + revert Hne. unfold get_port_list.
      destruct (nlmsg_alloc_ok x); cbn [negb];
        [|intros _; apply flags_kept_refl].
      destruct (nla_put_ok x); cbn [negb]; [|intros _; apply flags_kept_refl].
      unfold result_of, handle_of. rewrite run_bind_get.
      apply refresh_tail_flags. apply flags_kept_send_and_recv.
    + intros Ha Hp. revert Hne. unfold get_port_list. rewrite Ha, Hp.
      cbn [negb]. unfold result_of, handle_of. rewrite run_bind_get.
      apply refresh_tail_handle.
  - intros Hne. split.
    + revert Hne. unfold get_options.
      destruct (nlmsg_alloc_ok x); cbn [negb];
        [|intros _; apply flags_kept_refl].
      destruct (nla_put_ok x); cbn [negb]; [|intros _; apply flags_kept_refl].
      unfold result_of, handle_of. rewrite run_bind_get.
      apply refresh_tail_flags. apply flags_kept_send_and_recv.
    + intros Ha Hp. revert Hne. unfold get_options. rewrite Ha, Hp.
      cbn [negb]. unfold result_of, handle_of. rewrite run_bind_get.
      apply refresh_tail_handle.
  - intros opt_name data opt_type.
    apply stable_set_option_value; flags_kept_side.
  - intros d f msg ports e rest Hok Herr Ha Hp Hs Hr Hd Hpr Hf He.
    destruct (run_get_port_list_then_error x th d f msg ports e rest
                Herr Ha Hp Hs Hr Hd Hpr Hf He)
      as [th3 [req [_ [Hreg Hrun]]]].
    rewrite Hrun. unfold result_of, handle_of, trace_of. cbn [fst snd].
    split; [reflexivity|]. split; [reflexivity|].
    intros it Hin Ht.
    apply (marked_fires_on_next_pump TEAM_PORT_CHANGE th th3 it);
      [discriminate|assumption..].
  - intros d f msg t opts e rest Hok Herr Ha Hp Hs Hr Hd Hor Hf He.
    destruct (run_get_options_then_error x th d f msg t opts e rest
                Herr Ha Hp Hs Hr Hd Hor Hf He)
      as [th3 [req [_ [Hreg Hrun]]]].
    pose proof Hor as [_ [nested [_ Hloop]]].
    pose proof (options_loop_prints nested (heap d) []) as Hpr.
    rewrite Hloop in Hpr. cbn [fst] in Hpr.
    rewrite Hrun. unfold result_of, handle_of, trace_of. cbn [fst snd].
    split; [reflexivity|]. split; [cbn [called]; apply called_prints; exact Hpr|].
    intros it Hin Ht.
    apply (marked_fires_on_next_pump TEAM_OPTION_CHANGE th th3 it);
      [discriminate|assumption..].
Qed.

Lemma failed_refresh_keeps_pending_witness :
  result_of (get_port_list exchange_ports_then_error sample_with_handlers)
  = Ret (-19) /\
  change_handler_list
    (handle_of (get_port_list exchange_ports_then_error sample_with_handlers))
  = [ {| call_this := false; handler := all_handler 2 |};
      {| call_this := true; handler := port_handler 1 |} ] /\
  flags_kept
    (handle_of (get_port_list exchange_ports_then_error sample_with_handlers))
    (handle_of (get_options exchange_refused
       (handle_of (get_port_list exchange_ports_then_error
                     sample_with_handlers)))).
Proof.
  assert (Hok : registry_ok sample_with_handlers).
  { vm_compute. repeat constructor; simpl; intuition discriminate. }
  assert (Herr : cb_err (th_nl_sock sample_with_handlers) = true)
    by (vm_compute; reflexivity).
  assert (Hs : 0 <= nl_send_result exchange_ports_then_error)
    by (vm_compute; discriminate).
  assert (Hpr : port_refresh sample_with_handlers 0 [] sample_ports_msg
                  [sample_port_11; sample_port_12]).
  { split; [vm_compute; reflexivity|]. eexists. split; [reflexivity|].
    split; [vm_compute; reflexivity|]. apply heap_allows_nil. }
  assert (He : -19 < 0) by lia.
  destruct (failed_refresh_keeps_pending exchange_ports_then_error
              sample_with_handlers) as [_ [_ [_ [H _]]]].
  destruct (H (deliver (ItemValid sample_ports_msg)) (deliver (ItemError (-19)))
              sample_ports_msg [sample_port_11; sample_port_12] (-19) []
              Hok Herr eq_refl eq_refl Hs eq_refl eq_refl Hpr eq_refl He)
    as [H1 _].
  split; [exact H1|]. split; [vm_compute; reflexivity|].
  assert (Hne : result_of (get_options exchange_refused
                  (handle_of (get_port_list exchange_ports_then_error
                                sample_with_handlers))) <> Ret 0)
    by (vm_compute; discriminate).
  destruct (failed_refresh_keeps_pending exchange_refused
              (handle_of (get_port_list exchange_ports_then_error
                            sample_with_handlers))) as [_ [Ho _]].
  exact (proj1 (Ho Hne)).
Defined.

(** ** What a setter does *)





